(** * Ordsøk: the evaluation table engine

    A shallow embedding of the table engine of the Ordsøk single-page
    application ([evaluationTable], [handleSort] and [chartSeries] of the
    [App] component) together with the properties of its specification.

    Conventions of the embedding.
    - A JavaScript number that may be [NaN] or infinite is a [num]; finite
      values are kept as exact rationals (no rounding to binary64, no signed
      zero).  Word-group counts and row totals are integers ([Z]).
    - [Record<string, number>] objects and [Map<string, number>] maps that
      are only read by key are [gmap string Z], the own properties of the
      object; a read of a document's counts under a topic name goes through
      [readValue], which follows the object to [Object.prototype].  The rows
      of the pivoted table are read under year labels only, which are never
      names of [Object.prototype].  Collections whose order is
      observable ([Object.entries(evaluateData)], the insertion-ordered
      [yearBins] map, arrays of rows) are lists.
    - [Array.prototype.sort] is a stable sort that looks only at the sign of
      the comparator, [NaN] counting as zero.
    - [String.prototype.localeCompare(_, 'nb')] is a parameter of the
      development. *)

From Stdlib Require Import QArith Qround Lqa ZArith String Ascii DecimalString Decimal.
From Stdlib Require Import Sorting.Sorted Sorting.Permutation Structures.OrderedTypeEx.
From stdpp Require Import gmap strings list fin_maps sorting.

Open Scope Z_scope.

(** ** JavaScript numbers *)

Inductive num : Type :=
| Fin (q : Q)
| NaN
| PInf
| NInf.

Definition ofZ (z : Z) : num := Fin (inject_Z z).

Module Num.

(** The sign of a finite value as a [comparison]: [Lt] negative, [Eq] zero,
    [Gt] positive. *)
Definition sgn (q : Q) : comparison := (q ?= 0)%Q.

(** [-x] *)
Definition neg (x : num) : num :=
  match x with
  | Fin q => Fin (- q)
  | NaN => NaN
  | PInf => NInf
  | NInf => PInf
  end.

(** [x + y] *)
Definition add (x y : num) : num :=
  match x, y with
  | NaN, _ | _, NaN => NaN
  | Fin a, Fin b => Fin (a + b)
  | PInf, NInf | NInf, PInf => NaN
  | PInf, _ | _, PInf => PInf
  | NInf, _ | _, NInf => NInf
  end.

(** [x - y] *)
Definition sub (x y : num) : num := add x (neg y).

(** An infinity of the given sign; a zero factor gives [NaN]. *)
Definition inf_of (s : comparison) : num :=
  match s with
  | Gt => PInf
  | Lt => NInf
  | Eq => NaN
  end.

(** [x * y] *)
Definition mul (x y : num) : num :=
  match x, y with
  | NaN, _ | _, NaN => NaN
  | Fin a, Fin b => Fin (a * b)
  | Fin a, PInf | PInf, Fin a => inf_of (sgn a)
  | Fin a, NInf | NInf, Fin a => inf_of (CompOpp (sgn a))
  | PInf, PInf | NInf, NInf => PInf
  | PInf, NInf | NInf, PInf => NInf
  end.

(** [x / y]; a finite non-zero value over zero is an infinity, zero over
    zero is [NaN]. *)
Definition div (x y : num) : num :=
  match x, y with
  | NaN, _ | _, NaN => NaN
  | Fin a, Fin b =>
      if Qeq_bool b 0 then inf_of (sgn a) else Fin (a / b)
  | Fin _, (PInf | NInf) => Fin 0
  | PInf, Fin b => if Qle_bool 0 b then PInf else NInf
  | NInf, Fin b => if Qle_bool 0 b then NInf else PInf
  | (PInf | NInf), (PInf | NInf) => NaN
  end.

(** [x > 0] *)
Definition gt0 (x : num) : bool :=
  match x with
  | Fin q => match sgn q with Gt => true | _ => false end
  | PInf => true
  | _ => false
  end.

(** [x < 0] *)
Definition lt0 (x : num) : bool :=
  match x with
  | Fin q => match sgn q with Lt => true | _ => false end
  | NInf => true
  | _ => false
  end.

(** [Number.isNaN(x)] and [Number.isFinite(x)] *)
Definition isNaN (x : num) : bool :=
  match x with NaN => true | _ => false end.

Definition isFinite (x : num) : bool :=
  match x with Fin _ => true | _ => false end.

(** Equality of numbers up to the representation of rationals. *)
Definition eqv (x y : num) : Prop :=
  match x, y with
  | Fin a, Fin b => (a == b)%Q
  | NaN, NaN | PInf, PInf | NInf, NInf => True
  | _, _ => False
  end.

End Num.

(** ** [Number(string)]

    The [StringToNumber] conversion: surrounding white space is dropped, the
    empty string is [0], then a hexadecimal, octal or binary integer literal
    or a signed decimal literal (with optional fraction and exponent, or
    [Infinity]) is read; anything else is [NaN].  Strings are read by their
    ASCII characters: of the white space, tab, line feed, vertical tab, form
    feed, carriage return and space are known. *)

Module StringToNumber.

Definition isWhiteSpace (c : ascii) : bool :=
  let n := N_of_ascii c in
  ((9 <=? n)%N && (n <=? 13)%N) || (n =? 32)%N.

Fixpoint trimStart (l : list ascii) : list ascii :=
  match l with
  | c :: l' => if isWhiteSpace c then trimStart l' else l
  | [] => []
  end.

Definition trim (l : list ascii) : list ascii :=
  List.rev (trimStart (List.rev (trimStart l))).

(** The value of a digit in the given radix. *)
Definition digit (radix : N) (c : ascii) : option N :=
  let n := N_of_ascii c in
  let v :=
    if ((48 <=? n) && (n <=? 57))%N then Some (n - 48)%N
    else if ((97 <=? n) && (n <=? 102))%N then Some (n - 87)%N
    else if ((65 <=? n) && (n <=? 70))%N then Some (n - 55)%N
    else None in
  match v with
  | Some d => if (d <? radix)%N then Some d else None
  | None => None
  end.

(** Reads the longest run of digits: its value continued from [acc], the
    number of digits read, and the rest of the input. *)
Fixpoint digits (radix : N) (acc : N) (l : list ascii) : N * nat * list ascii :=
  match l with
  | c :: l' =>
      match digit radix c with
      | Some d =>
          let '(v, n, rest) := digits radix (acc * radix + d)%N l' in
          (v, S n, rest)
      | None => (acc, O, l)
      end
  | [] => (acc, O, [])
  end.

(** A non-decimal literal: one or more digits and nothing after them. *)
Definition integerLiteral (radix : N) (l : list ascii) : num :=
  match digits radix 0 l with
  | (v, S _, []) => ofZ (Z.of_N v)
  | _ => NaN
  end.

(** The optional exponent part, which must end the literal. *)
Definition exponentPart (l : list ascii) : option Z :=
  match l with
  | [] => Some 0
  | c :: l' =>
      if (Ascii.eqb c "e" || Ascii.eqb c "E")%bool then
        let '(sign, l'') :=
          match l' with
          | "+"%char :: r => (1, r)
          | "-"%char :: r => (-1, r)
          | _ => (1, l')
          end in
        match digits 10 0 l'' with
        | (v, S _, []) => Some (sign * Z.of_N v)
        | _ => None
        end
      else None
  end.

(** An unsigned decimal literal: digits, an optional fraction, an optional
    exponent; at least one digit before or after the point. *)
Definition unsignedDecimal (l : list ascii) : num :=
  let '(ip, n, l1) := digits 10 0 l in
  let '(m, k, l2) :=
    match l1 with
    | "."%char :: r => digits 10 ip r
    | _ => (ip, O, l1)
    end in
  match (n + k)%nat with
  | O => NaN
  | S _ =>
      match exponentPart l2 with
      | Some e => Fin (inject_Z (Z.of_N m) * Qpower 10 (e - Z.of_nat k))
      | None => NaN
      end
  end.

Definition infinity : list ascii := list_ascii_of_string "Infinity".

Definition isInfinity (l : list ascii) : bool :=
  bool_decide (l = infinity).

Definition decimalLiteral (l : list ascii) : num :=
  match l with
  | "+"%char :: r => if isInfinity r then PInf else unsignedDecimal r
  | "-"%char :: r => if isInfinity r then NInf else Num.neg (unsignedDecimal r)
  | _ => if isInfinity l then PInf else unsignedDecimal l
  end.

Definition stringToNumber (s : string) : num :=
  match trim (list_ascii_of_string s) with
  | [] => ofZ 0
  | "0"%char :: c :: r =>
      if (Ascii.eqb c "x" || Ascii.eqb c "X")%bool then integerLiteral 16 r
      else if (Ascii.eqb c "o" || Ascii.eqb c "O")%bool then integerLiteral 8 r
      else if (Ascii.eqb c "b" || Ascii.eqb c "B")%bool then integerLiteral 2 r
      else decimalLiteral ("0"%char :: c :: r)
  | l => decimalLiteral l
  end.

End StringToNumber.

(** [Number(value)] for a value that is a string, or [undefined] ([None]). *)
Definition Number (value : option string) : num :=
  match value with
  | Some s => StringToNumber.stringToNumber s
  | None => NaN
  end.

(** Template-literal conversion [`${n}`] of an integral number. *)
Definition toString (n : Z) : string :=
  NilZero.string_of_int (Z.to_int n).

(** ** [Array.prototype.sort(compareFn)]

    A stable insertion sort: an element moves behind another one only when
    the comparator, applied to the two, is positive. *)

Section Sort.
Context {A : Type} (compareFn : A -> A -> num).

Fixpoint insert (x : A) (l : list A) : list A :=
  match l with
  | [] => [x]
  | y :: l' => if Num.gt0 (compareFn x y) then y :: insert x l' else x :: l
  end.

Definition sort (l : list A) : list A := foldr insert [] l.

(** [x] may stay in front of [y]. *)
Definition keeps (x y : A) : Prop := Num.gt0 (compareFn x y) = false.
End Sort.

(** The default comparator of [sort()]: strings by their code units. *)
Definition compareCodeUnits (a b : string) : num :=
  match String.compare a b with
  | Lt => ofZ (-1)
  | Eq => ofZ 0
  | Gt => ofZ 1
  end.

(** [map.set(k, v)] on an insertion-ordered [Map]: an existing key keeps its
    place, a new key goes last. *)
Fixpoint mapSet {V : Type} (k : string) (v : V) (m : list (string * V)) : list (string * V) :=
  match m with
  | [] => [(k, v)]
  | (k', v') :: m' =>
      if decide (k = k') then (k, v) :: m' else (k', v') :: mapSet k v m'
  end.

(** [set.add(k)] on an insertion-ordered [Set]. *)
Definition setAdd (s : list string) (k : string) : list string :=
  if decide (k ∈ s) then s else s ++ [k].

(** [Object.keys], [Object.values] and [Object.entries] of a record of
    counts. *)
Definition objectEntries (o : gmap string Z) : list (string * Z) := map_to_list o.
Definition objectKeys (o : gmap string Z) : list string := (objectEntries o).*1.
Definition objectValues (o : gmap string Z) : list Z := (objectEntries o).*2.

(** ** Property reads

    The word-group counts of a document are a plain object.  A read
    [values[key]] that finds no own property goes on to [Object.prototype]:
    for the names below it gives the inherited member, a function (the
    prototype object itself for [__proto__]), which [?? 0] does not replace
    and which is [NaN] as an operand of [-] or [/]. *)
Definition objectPrototype : list string :=
  ["constructor"; "__defineGetter__"; "__defineSetter__"; "hasOwnProperty";
   "__lookupGetter__"; "__lookupSetter__"; "isPrototypeOf";
   "propertyIsEnumerable"; "toString"; "valueOf"; "__proto__";
   "toLocaleString"]%string.

Inductive PropertyValue : Type :=
| Count (n : Z)
| Member.

(** [values?.[key] ?? 0] *)
Definition readValue (values : gmap string Z) (key : string) : PropertyValue :=
  match values !! key with
  | Some n => Count n
  | None => if decide (key ∈ objectPrototype) then Member else Count 0
  end.

(** The value as an operand of [-] or [/]. *)
Definition toNumber (value : PropertyValue) : num :=
  match value with
  | Count n => ofZ n
  | Member => NaN
  end.

(** ** Data model *)

Module CorpusMeta.
Record t : Type := mk {
  dhlabid : option string;
  urn : option string;
  title : option string;
  authors : option string;
  year : option string
}.
End CorpusMeta.

Module TableRow.
Record t : Type := mk {
  id : string;
  values : gmap string Z;
  total : Z
}.
End TableRow.

Module ColumnDef.
Inductive Kind : Type := count | percent.

Record t : Type := mk {
  key : string;
  label : string;
  kind : Kind;
  year : option string
}.
End ColumnDef.

(** An entry of [rowsWithTotals]. *)
Module DocRow.
Record t : Type := mk {
  docId : string;
  topics : gmap string Z;
  total : Z
}.
End DocRow.

Inductive SortDir : Type := asc | desc.

Module Mode.
Inductive t : Type := docs | topics.
End Mode.

Module Table.
Record t : Type := mk {
  mode : Mode.t;
  rows : list TableRow.t;
  columns : list ColumnDef.t;
  totalRows : nat;
  yearTotals : option (gmap string Z)
}.
End Table.

(** The component state read by the engine.  [evaluateData] holds
    [Object.entries] of the evaluation response, in the order JavaScript
    enumerates them. *)
Module State.
Record t : Type := mk {
  evaluateData : option (list (string * gmap string Z));
  corpusMetaById : gmap string CorpusMeta.t;
  corpusMetaByUrn : gmap string CorpusMeta.t;
  sortKey : string;
  sortDir : SortDir;
  totalThreshold : Q;
  aggregateByYear : bool;
  yearBinSize : num;
  aggregatePercent : bool;
  hiddenSeries : gset string
}.
End State.

(** ** The row and column builder *)

(** [a ?? b] *)
Definition nullish {A : Type} (a b : option A) : option A :=
  match a with
  | Some _ => a
  | None => b
  end.

(** The union of the word-group names of all documents, in first-seen
    order ([topicSet]), then sorted ([topics]). *)
Definition topicSet (rows : list (string * gmap string Z)) : list string :=
  foldl (fun s row => foldl setAdd s (objectKeys row.2)) [] rows.

Definition topics (rows : list (string * gmap string Z)) : list string :=
  sort compareCodeUnits (topicSet rows).

(** Counts are numbers by their type, so the [typeof value === 'number']
    guard of the reducer always takes the value. *)
Definition rowsWithTotals (rows : list (string * gmap string Z)) : list DocRow.t :=
  fmap (fun row =>
         DocRow.mk row.1 row.2
           (foldl (fun sum value => sum + value) 0 (objectValues row.2)))
      rows.

(** [Math.max(1, Math.floor(yearBinSize || 1))]: a positive integer width,
    or no finite width at all when [yearBinSize] is [Infinity]. *)
Inductive BinSize : Type :=
| Width (n : Z)
| Unbounded.

Definition binSize (yearBinSize : num) : BinSize :=
  match yearBinSize with
  | Fin q => if Qeq_bool q 0 then Width 1 else Width (Z.max 1 (Qfloor q))
  | NaN => Width 1
  | PInf => Unbounded
  | NInf => Width 1
  end.

(** The label and sort value of the bin of a finite year: with a finite
    width, [start = Math.floor(yearValue / binSize) * binSize]; with an
    infinite one the product is [NaN]. *)
Definition yearBin (binSize : BinSize) (yearValue : Q) : string * num :=
  match binSize with
  | Width b =>
      let start := Qfloor (yearValue / inject_Z b) * b in
      (if 1 <? b
       then toString start +:+ "-" +:+ toString (start + b - 1)
       else toString start,
       ofZ start)
  | Unbounded => ("NaN-NaN"%string, NaN)
  end.

(** [getYearLabel(docId)]: the label, or [null], and the [yearBins] map
    after the call.  [hasYear], that is [!Number.isNaN(yearValue) &&
    Number.isFinite(yearValue)], holds exactly when the number is finite. *)
Definition getYearLabel (metaLookup : gmap string CorpusMeta.t) (binSize : BinSize)
    (docId : string) (yearBins : list (string * num))
  : option string * list (string * num) :=
  match Number (metaLookup !! docId ≫= CorpusMeta.year) with
  | Fin yearValue =>
      let bin := yearBin binSize yearValue in
      (Some bin.1, mapSet bin.1 bin.2 yearBins)
  | _ => (None, yearBins)
  end.

(** The state of the pivot loop: the topic rows (shared with [rowMap]),
    [yearTotals] and [yearBins]. *)
Module Pivot.
Record t : Type := mk {
  topicRows : list TableRow.t;
  yearTotals : gmap string Z;
  yearBins : list (string * num)
}.
End Pivot.

(** The two updates of [currentRow].  The values of a topic row are read
    and written under year labels only; no year label is a name of
    [Object.prototype], so such a read finds the row's own count or
    nothing. *)
Definition addToRow (label : string) (increment : Z) (row : TableRow.t) : TableRow.t :=
  TableRow.mk (TableRow.id row)
    (<[label := default 0 (TableRow.values row !! label) + increment]> (TableRow.values row))
    (TableRow.total row + increment).

(** An update through [rowMap.get(topic)] is seen in [topicRows]: the map
    holds the row objects themselves. *)
Definition updateRow (topic : string) (f : TableRow.t -> TableRow.t)
    (rows : list TableRow.t) : list TableRow.t :=
  fmap (fun row => if decide (TableRow.id row = topic) then f row else row) rows.

(** The body of the inner [forEach] over [Object.entries(row.topics)]. *)
Definition addCount (label : string) (st : Pivot.t) (entry : string * Z) : Pivot.t :=
  if decide (entry.1 ∈ TableRow.id <$> Pivot.topicRows st) then
    Pivot.mk
      (updateRow entry.1 (addToRow label entry.2) (Pivot.topicRows st))
      (<[label := default 0 (Pivot.yearTotals st !! label) + entry.2]> (Pivot.yearTotals st))
      (Pivot.yearBins st)
  else st.

(** The body of [rowsWithTotals.forEach]; a label is never the empty
    string, so [!label] holds for [null] only. *)
Definition addDocument (metaLookup : gmap string CorpusMeta.t) (binSize : BinSize)
    (st : Pivot.t) (row : DocRow.t) : Pivot.t :=
  match getYearLabel metaLookup binSize (DocRow.docId row) (Pivot.yearBins st) with
  | (Some label, yearBins) =>
      foldl (addCount label)
        (Pivot.mk (Pivot.topicRows st) (Pivot.yearTotals st) yearBins)
        (objectEntries (DocRow.topics row))
  | (None, _) => st
  end.

Definition emptyPivot (topics : list string) : Pivot.t :=
  Pivot.mk (fmap (fun topic => TableRow.mk topic ∅ 0) topics) ∅ [].

Definition pivot (metaLookup : gmap string CorpusMeta.t) (binSize : BinSize)
    (topics : list string) (rowsWithTotals : list DocRow.t) : Pivot.t :=
  foldl (addDocument metaLookup binSize) (emptyPivot topics) rowsWithTotals.

Definition yearLabels (yearBins : list (string * num)) : list string :=
  (sort (fun a b => Num.sub a.2 b.2) yearBins).*1.

Definition columnDefs (aggregatePercent : bool) (yearLabels : list string) : list ColumnDef.t :=
  flat_map
    (fun label =>
       ColumnDef.mk (label +:+ "__count") label ColumnDef.count (Some label)
       :: (if aggregatePercent
           then [ColumnDef.mk (label +:+ "__percent") (label +:+ " %")
                   ColumnDef.percent (Some label)]
           else []))
    yearLabels.

Definition docRows (rowsWithTotals : list DocRow.t) : list TableRow.t :=
  fmap (fun row => TableRow.mk (DocRow.docId row) (DocRow.topics row) (DocRow.total row))
      rowsWithTotals.

(** [totalThreshold > 0 ? sorted.filter(row => row.total >= totalThreshold) : sorted] *)
Definition filtered (totalThreshold : Q) (sorted : list TableRow.t) : list TableRow.t :=
  if Qle_bool totalThreshold 0 then sorted
  else List.filter (fun row => Qle_bool totalThreshold (inject_Z (TableRow.total row))) sorted.

Definition direction (sortDir : SortDir) : num :=
  match sortDir with
  | asc => ofZ 1
  | desc => ofZ (-1)
  end.

(** The value a percent column is ordered by, [value / denom], and the value
    it shows, [(value / denom) * 100]: here the exact quotients.  The code
    computes them in binary64, so what it shows is this value rounded; the
    cells of a column add up to 100 only up to that rounding. *)
Definition percentKey (value denom : Z) : num :=
  if 0 <? denom then Num.div (ofZ value) (ofZ denom) else ofZ 0.

Definition percentValue (value denom : Z) : num :=
  if 0 <? denom then Num.mul (Num.div (ofZ value) (ofZ denom)) (ofZ 100) else ofZ 0.

(** ** Comparators and the table *)

Section Engine.
(** [a.localeCompare(b, 'nb')] *)
Variable localeCompare : string -> string -> Z.

(** The comparator of the pivoted table.  The column found for the sort key
    is one of the table's columns, so [column.year] is a year label. *)
Definition compareTopicRows (columnDefs : list ColumnDef.t) (yearTotals : gmap string Z)
    (sortKey : string) (sortDir : SortDir) (a b : TableRow.t) : num :=
  let direction := direction sortDir in
  if decide (sortKey = "row") then
    Num.mul direction (ofZ (localeCompare (TableRow.id a) (TableRow.id b)))
  else if decide (sortKey = "total") then
    Num.mul direction (Num.sub (ofZ (TableRow.total a)) (ofZ (TableRow.total b)))
  else
    match List.find (fun def => bool_decide (ColumnDef.key def = sortKey)) columnDefs with
    | Some column =>
        let year := default ""%string (ColumnDef.year column) in
        match ColumnDef.kind column with
        | ColumnDef.count =>
            let aValue := default 0 (TableRow.values a !! year) in
            let bValue := default 0 (TableRow.values b !! year) in
            Num.mul direction (Num.sub (ofZ aValue) (ofZ bValue))
        | ColumnDef.percent =>
            let denomA := default 0 (yearTotals !! year) in
            let denomB := default 0 (yearTotals !! year) in
            let aValue := percentKey (default 0 (TableRow.values a !! year)) denomA in
            let bValue := percentKey (default 0 (TableRow.values b !! year)) denomB in
            Num.mul direction (Num.sub aValue bValue)
        end
    | None => ofZ 0
    end.

(** [metaLookup[id]?.[sortKey] ?? corpusMetaByUrn[id]?.[sortKey]] for the
    keys [title] and [authors]. *)
Definition metaField (sortKey : string) (m : CorpusMeta.t) : option string :=
  if decide (sortKey = "title") then CorpusMeta.title m else CorpusMeta.authors m.

Definition displayValue (metaLookup corpusMetaByUrn : gmap string CorpusMeta.t)
    (sortKey : string) (id : string) : string :=
  default ""%string
    (nullish (metaLookup !! id ≫= metaField sortKey)
             (corpusMetaByUrn !! id ≫= metaField sortKey)).

(** [Number(metaLookup[id]?.year ?? corpusMetaByUrn[id]?.year ?? 0)] *)
Definition yearValue (metaLookup corpusMetaByUrn : gmap string CorpusMeta.t)
    (id : string) : num :=
  match nullish (metaLookup !! id ≫= CorpusMeta.year)
                (corpusMetaByUrn !! id ≫= CorpusMeta.year) with
  | Some year => Number (Some year)
  | None => ofZ 0
  end.

(** The comparator of the by-document table. *)
Definition compareDocRows (metaLookup corpusMetaByUrn : gmap string CorpusMeta.t)
    (topics : list string) (sortKey : string) (sortDir : SortDir)
    (a b : TableRow.t) : num :=
  let direction := direction sortDir in
  if decide (sortKey = "dhlabid" ∨ sortKey = "row") then
    Num.mul direction (ofZ (localeCompare (TableRow.id a) (TableRow.id b)))
  else if decide (sortKey = "total") then
    Num.mul direction (Num.sub (ofZ (TableRow.total a)) (ofZ (TableRow.total b)))
  else if decide (sortKey = "title" ∨ sortKey = "authors") then
    let aValue := displayValue metaLookup corpusMetaByUrn sortKey (TableRow.id a) in
    let bValue := displayValue metaLookup corpusMetaByUrn sortKey (TableRow.id b) in
    Num.mul direction (ofZ (localeCompare aValue bValue))
  else if decide (sortKey = "year") then
    let aValue := yearValue metaLookup corpusMetaByUrn (TableRow.id a) in
    let bValue := yearValue metaLookup corpusMetaByUrn (TableRow.id b) in
    Num.mul direction (Num.sub aValue bValue)
  else if decide (sortKey ∈ topics) then
    let aValue := readValue (TableRow.values a) sortKey in
    let bValue := readValue (TableRow.values b) sortKey in
    Num.mul direction (Num.sub (toNumber aValue) (toNumber bValue))
  else ofZ 0.

(** The rows of the two tables after sorting, before the threshold. *)
Definition sortedTopicRows (s : State.t) (rows : list (string * gmap string Z))
  : list TableRow.t :=
  let p := pivot (State.corpusMetaById s) (binSize (State.yearBinSize s))
             (topics rows) (rowsWithTotals rows) in
  sort
    (compareTopicRows
       (columnDefs (State.aggregatePercent s) (yearLabels (Pivot.yearBins p)))
       (Pivot.yearTotals p) (State.sortKey s) (State.sortDir s))
    (Pivot.topicRows p).

Definition sortedDocRows (s : State.t) (rows : list (string * gmap string Z))
  : list TableRow.t :=
  sort
    (compareDocRows (State.corpusMetaById s) (State.corpusMetaByUrn s)
       (topics rows) (State.sortKey s) (State.sortDir s))
    (docRows (rowsWithTotals rows)).

Definition evaluationTable (s : State.t) : option Table.t :=
  match State.evaluateData s with
  | None => None
  | Some rows =>
      if State.aggregateByYear s then
        let p := pivot (State.corpusMetaById s) (binSize (State.yearBinSize s))
                   (topics rows) (rowsWithTotals rows) in
        Some (Table.mk Mode.topics
                (filtered (State.totalThreshold s) (sortedTopicRows s rows))
                (columnDefs (State.aggregatePercent s) (yearLabels (Pivot.yearBins p)))
                (length (Pivot.topicRows p))
                (Some (Pivot.yearTotals p)))
      else
        Some (Table.mk Mode.docs
                (filtered (State.totalThreshold s) (sortedDocRows s rows))
                (fmap (fun topic => ColumnDef.mk topic topic ColumnDef.count None)
                     (topics rows))
                (length (docRows (rowsWithTotals rows)))
                None)
  end.
End Engine.

(** [handleSort(key)]: the state after the click. *)
Definition handleSort (s : State.t) (key : string) : State.t :=
  if decide (State.sortKey s = key) then
    State.mk (State.evaluateData s) (State.corpusMetaById s) (State.corpusMetaByUrn s)
      (State.sortKey s)
      (match State.sortDir s with asc => desc | desc => asc end)
      (State.totalThreshold s) (State.aggregateByYear s) (State.yearBinSize s)
      (State.aggregatePercent s) (State.hiddenSeries s)
  else
    State.mk (State.evaluateData s) (State.corpusMetaById s) (State.corpusMetaByUrn s)
      key
      (if decide (key = "title" ∨ key = "authors" ∨ key = "dhlabid") then asc else desc)
      (State.totalThreshold s) (State.aggregateByYear s) (State.yearBinSize s)
      (State.aggregatePercent s) (State.hiddenSeries s).

(** The sort state together with the page of the by-document table. *)
Module View.
Record t : Type := mk {
  state : State.t;
  pageIndex : Z
}.
End View.

#[global] Instance SortDir_eq_dec : EqDecision SortDir.
Proof. solve_decision. Defined.


(** What a table cell is given to show ([toFixed] formatting apart): a
    number, or an inherited member of [Object.prototype] where the row has
    no count of its own under a name of [objectPrototype]. *)
Inductive Cell : Type :=
| CellNumber (n : num)
| CellMember.

Definition cellValue (table : Table.t) (row : TableRow.t) (column : ColumnDef.t) : Cell :=
  let value :=
    readValue (TableRow.values row)
      (default (ColumnDef.key column) (ColumnDef.year column)) in
  match ColumnDef.kind column, Table.mode table with
  | ColumnDef.percent, Mode.topics =>
      let denom :=
        default 0 (Table.yearTotals table
                     ≫= fun m => m !! default ""%string (ColumnDef.year column)) in
      match value with
      | Count n => CellNumber (percentValue n denom)
      | Member =>
          CellNumber
            (if 0 <? denom then Num.mul (Num.div NaN (ofZ denom)) (ofZ 100) else ofZ 0)
      end
  | _, _ =>
      match value with
      | Count n => CellNumber (ofZ n)
      | Member => CellMember
      end
  end.

(** ** The chart series *)

Module ChartSeries.
Record t : Type := mk {
  years : list string;
  series : list (string * list num)
}.
End ChartSeries.

(** [chartSeries], without the axis layout ([maxValue], [tickIndices]). *)
Definition chartSeries (s : State.t) (evaluationTable : option Table.t)
  : option ChartSeries.t :=
  match evaluationTable with
  | None => None
  | Some table =>
      match Table.mode table with
      | Mode.docs => None
      | Mode.topics =>
          let yearColumns :=
            List.filter
              (fun column =>
                 match ColumnDef.kind column, ColumnDef.year column with
                 | ColumnDef.count, Some year => negb (bool_decide (year = ""%string))
                 | _, _ => false
                 end)
              (Table.columns table) in
          match yearColumns with
          | [] => None
          | _ =>
              let years :=
                fmap (fun column => default (ColumnDef.label column) (ColumnDef.year column))
                    yearColumns in
              let sortedRows :=
                sort (fun a b => Num.sub (ofZ (TableRow.total b)) (ofZ (TableRow.total a)))
                     (Table.rows table) in
              let visibleRows :=
                List.filter
                  (fun row => negb (bool_decide (TableRow.id row ∈ State.hiddenSeries s)))
                  sortedRows in
              let topRows := take 5 visibleRows in
              let series :=
                fmap (fun row =>
                       (TableRow.id row,
                        fmap (fun column =>
                               let year := default ""%string (ColumnDef.year column) in
                               let raw := default 0 (TableRow.values row !! year) in
                               if State.aggregatePercent s then
                                 let denom :=
                                   default 0 (Table.yearTotals table ≫= fun m => m !! year) in
                                 percentValue raw denom
                               else ofZ raw)
                            yearColumns))
                    topRows in
              Some (ChartSeries.mk years series)
          end
      end
  end.

(** ** The revision that bins documents without a year as [Ukjent] *)

Module Ukjent.

Definition getYearLabel (metaLookup : gmap string CorpusMeta.t) (binSize : BinSize)
    (docId : string) (yearBins : list (string * num))
  : string * list (string * num) :=
  match Number (metaLookup !! docId ≫= CorpusMeta.year) with
  | Fin yearValue =>
      let bin := yearBin binSize yearValue in
      (bin.1, mapSet bin.1 bin.2 yearBins)
  | _ => ("Ukjent"%string, mapSet "Ukjent"%string (ofZ (-1)) yearBins)
  end.

Definition addDocument (metaLookup : gmap string CorpusMeta.t) (binSize : BinSize)
    (st : Pivot.t) (row : DocRow.t) : Pivot.t :=
  let '(label, yearBins) :=
    getYearLabel metaLookup binSize (DocRow.docId row) (Pivot.yearBins st) in
  foldl (addCount label)
    (Pivot.mk (Pivot.topicRows st) (Pivot.yearTotals st) yearBins)
    (objectEntries (DocRow.topics row)).

Definition pivot (metaLookup : gmap string CorpusMeta.t) (binSize : BinSize)
    (topics : list string) (rowsWithTotals : list DocRow.t) : Pivot.t :=
  foldl (addDocument metaLookup binSize) (emptyPivot topics) rowsWithTotals.

(** The columns and denominators of the pivoted table of this revision. *)
Definition columns (s : State.t) (rows : list (string * gmap string Z)) : list ColumnDef.t :=
  columnDefs (State.aggregatePercent s)
    (yearLabels
       (Pivot.yearBins
          (pivot (State.corpusMetaById s) (binSize (State.yearBinSize s))
             (topics rows) (rowsWithTotals rows)))).

Definition yearTotals (s : State.t) (rows : list (string * gmap string Z)) : gmap string Z :=
  Pivot.yearTotals
    (pivot (State.corpusMetaById s) (binSize (State.yearBinSize s))
       (topics rows) (rowsWithTotals rows)).

End Ukjent.

(** ** Vocabulary of the properties *)

(** [sum(row.total for row in rows)] *)
Definition sumTotal (rows : list TableRow.t) : Z :=
  foldr Z.add 0 (TableRow.total <$> rows).

Definition sumDocTotal (rows : list DocRow.t) : Z :=
  foldr Z.add 0 (DocRow.total <$> rows).

Definition sumZ (l : list Z) : Z := foldr Z.add 0 l.

(** The documents that [getYearLabel] gives a label. *)
Definition hasYear (metaLookup : gmap string CorpusMeta.t) (docId : string) : bool :=
  let yearValue := Number (metaLookup !! docId ≫= CorpusMeta.year) in
  negb (Num.isNaN yearValue) && Num.isFinite yearValue.

(** Strings in the order of their code units. *)
Definition lexLt (a b : string) : Prop := String.compare a b = Lt.


(** [setTotalThreshold(value)] *)
Definition setTotalThreshold (s : State.t) (value : Q) : State.t :=
  State.mk (State.evaluateData s) (State.corpusMetaById s) (State.corpusMetaByUrn s)
    (State.sortKey s) (State.sortDir s) value (State.aggregateByYear s)
    (State.yearBinSize s) (State.aggregatePercent s) (State.hiddenSeries s).

#[global] Instance TableRow_eq_dec : EqDecision TableRow.t.
Proof. solve_decision. Defined.

(** A comparator that orders: its sign is antisymmetric and its strict part
    is transitive. *)
Definition orders {A : Type} (c : A -> A -> num) : Prop :=
  (∀ x y, Num.gt0 (c x y) = Num.lt0 (c y x))
  ∧ (∀ x y z, Num.lt0 (c x y) = true → Num.lt0 (c y z) = true → Num.lt0 (c x z) = true).

(** No two different elements of the list compare as equal. *)
Definition tieFree {A : Type} (c : A -> A -> num) (l : list A) : Prop :=
  ∀ x y, x ∈ l → y ∈ l → x ≠ y → Num.lt0 (c x y) = true ∨ Num.gt0 (c x y) = true.

(** Every bin has an integral sort value, and [Ukjent] has -1. *)
Definition binsOk (bins : list (string * num)) : Prop :=
  Forall (fun e => (∃ z, e.2 = ofZ z) ∧ (e.1 = "Ukjent"%string → e.2 = ofZ (-1))) bins.

(** The two revisions of the pivot loop agree on every bin but [Ukjent]. *)
Definition agreeOffUkjent (st st' : Pivot.t) : Prop :=
  TableRow.id <$> Pivot.topicRows st = TableRow.id <$> Pivot.topicRows st'
  ∧ ∀ label, label ≠ "Ukjent"%string →
             Pivot.yearTotals st !! label = Pivot.yearTotals st' !! label.

(** The year the specification words describe for ordering: the document's
    year as a number, and 0 when it is missing or not numeric. *)
Definition yearOrZero (metaLookup corpusMetaByUrn : gmap string CorpusMeta.t)
    (id : string) : num :=
  match yearValue metaLookup corpusMetaByUrn id with
  | NaN => ofZ 0
  | n => n
  end.

Definition compareByYearOrZero (metaLookup corpusMetaByUrn : gmap string CorpusMeta.t)
    (sortDir : SortDir) (a b : TableRow.t) : num :=
  Num.mul (direction sortDir)
    (Num.sub (yearOrZero metaLookup corpusMetaByUrn (TableRow.id a))
             (yearOrZero metaLookup corpusMetaByUrn (TableRow.id b))).

(** ** A worked example: two documents, two word groups *)

Definition exampleData : list (string * gmap string Z) :=
  [("doc1"%string, {[ "nature"%string := 3; "war"%string := 0 ]});
   ("doc2"%string, {[ "nature"%string := 5 ]})].

Definition exampleMeta : gmap string CorpusMeta.t :=
  {[ "doc1"%string := CorpusMeta.mk None None None None (Some "1994"%string);
     "doc2"%string := CorpusMeta.mk None None None None (Some "1988"%string) ]}.

(** A stand-in for the collation, used where an example needs one. *)
Definition byCodeUnits (a b : string) : Z :=
  match String.compare a b with
  | Lt => -1
  | Eq => 0
  | Gt => 1
  end.

Definition exampleState (aggregateByYear : bool) (yearBinSize : num) (totalThreshold : Q)
  : State.t :=
  State.mk (Some exampleData) exampleMeta ∅ "total" desc totalThreshold
    aggregateByYear yearBinSize false ∅.

(** ** Paging *)

(** [array.slice(start, end)]: a negative bound counts from the end, and
    both bounds are clamped to the array. *)
Definition slice {A : Type} (start stop : Z) (l : list A) : list A :=
  let len := Z.of_nat (length l) in
  let from := if start <? 0 then Z.max (len + start) 0 else Z.min start len in
  let to := if stop <? 0 then Z.max (len + stop) 0 else Z.min stop len in
  take (Z.to_nat (to - from)) (drop (Z.to_nat from) l).

(** The rows of the table body: a page of the by-document table when
    [pageSize > 0], all rows otherwise. *)
Definition pageRows (table : Table.t) (pageSize pageIndex : Z) : list TableRow.t :=
  match Table.mode table with
  | Mode.docs =>
      if 0 <? pageSize
      then slice (pageIndex * pageSize) (pageIndex * pageSize + pageSize) (Table.rows table)
      else Table.rows table
  | Mode.topics => Table.rows table
  end.

(** [Math.ceil(rows.length / pageSize)]; the pager shows it only for
    [pageSize > 0]. *)
Definition pageCount (rows : nat) (pageSize : Z) : Z :=
  Qceiling (inject_Z (Z.of_nat rows) / inject_Z pageSize).

(** The two pager buttons: the page index after a click, and whether the
    button is disabled. *)
Definition previousPage (prev : Z) : Z := Z.max (prev - 1) 0.

Definition previousDisabled (pageIndex : Z) : bool := bool_decide (pageIndex = 0).

Definition nextPage (rows : nat) (pageSize prev : Z) : Z :=
  Z.min (prev + 1) (pageCount rows pageSize - 1).

Definition nextDisabled (rows : nat) (pageSize pageIndex : Z) : bool :=
  bool_decide (pageCount rows pageSize - 1 ≤ pageIndex).

(** ** More vocabulary *)

(** The label of the bin that starts at [start], for a finite width. *)
Definition binLabel (b start : Z) : string :=
  if 1 <? b then toString start +:+ "-" +:+ toString (start + b - 1) else toString start.

(** The sum of a year column over the rows. *)
Definition columnSum (label : string) (rows : list TableRow.t) : Z :=
  sumZ ((fun row => default 0 (TableRow.values row !! label)) <$> rows).

(** Rows in the order of their totals. *)
Definition totalOrder (sortDir : SortDir) (a b : TableRow.t) : Prop :=
  match sortDir with
  | asc => TableRow.total a ≤ TableRow.total b
  | desc => TableRow.total b ≤ TableRow.total a
  end.

(** The rational a finite number stands for. *)
Definition finitePart (x : num) : Q :=
  match x with
  | Fin q => q
  | _ => 0%Q
  end.

(** Every denominator is the sum of its column. *)
Definition denominatorsMatch (st : Pivot.t) : Prop :=
  ∀ label, default 0 (Pivot.yearTotals st !! label) = columnSum label (Pivot.topicRows st).

(** The total of a row is the sum of its values. *)
Definition rowTotalsMatch (rows : list TableRow.t) : Prop :=
  Forall (fun row => TableRow.total row = sumZ (objectValues (TableRow.values row))) rows.

(** The label [getYearLabel] gives a document, if any. *)
Definition docLabel (metaLookup : gmap string CorpusMeta.t) (binSize : BinSize)
    (docId : string) : option string :=
  (getYearLabel metaLookup binSize docId []).1.

(** Bins of width [b]: label and sort value of each come from its start. *)
Definition binsFor (b : Z) (bins : list (string * num)) : Prop :=
  Forall (fun e => ∃ start, e = (binLabel b start, ofZ start)) bins.

(** The start of a bin, read off its sort value. *)
Definition binStart (e : string * num) : Z := Qfloor (finitePart e.2).

(** The value [compareTopicRows] orders a column by: the count, or the share
    of the year's total for a percent column. *)
Definition columnSortValue (yearTotals : gmap string Z) (column : ColumnDef.t)
    (row : TableRow.t) : num :=
  let year := default ""%string (ColumnDef.year column) in
  match ColumnDef.kind column with
  | ColumnDef.count => ofZ (default 0 (TableRow.values row !! year))
  | ColumnDef.percent =>
      percentKey (default 0 (TableRow.values row !! year)) (default 0 (yearTotals !! year))
  end.

(** The page indices the pager can reach from the first page: a click on
    an enabled button moves to the previous or next page. *)
Inductive reachablePage (rows : nat) (pageSize : Z) : Z -> Prop :=
| reach_first : reachablePage rows pageSize 0
| reach_previous pageIndex :
    reachablePage rows pageSize pageIndex →
    previousDisabled pageIndex = false →
    reachablePage rows pageSize (previousPage pageIndex)
| reach_next pageIndex :
    reachablePage rows pageSize pageIndex →
    nextDisabled rows pageSize pageIndex = false →
    reachablePage rows pageSize (nextPage rows pageSize pageIndex).

(** ** Text helpers

    The helpers that read and write text files work on strings character by
    character.  Here such a string is the list of its characters, taken from
    ASCII as in [StringToNumber], and white space is the ASCII white space. *)

Module JsString.

Definition comma : ascii := ","%char.
Definition semicolon : ascii := ";"%char.
Definition bar : ascii := "|"%char.
Definition space : ascii := " "%char.
Definition tab : ascii := "009"%char.
Definition newline : ascii := "010"%char.
Definition carriageReturn : ascii := "013"%char.
Definition quote : ascii := "034"%char.

(** [s.trim()]. *)
Definition trim (s : list ascii) : list ascii := StringToNumber.trim s.

(** Puts a character in front of the first piece. *)
Definition prepend (c : ascii) (pieces : list (list ascii)) : list (list ascii) :=
  match pieces with
  | piece :: pieces' => (c :: piece) :: pieces'
  | [] => [[c]]
  end.

(** [s.split(c)] for a one-character string [c], and [s.split(/[...]/g)] for
    a class of characters: the pieces between the separators. *)
Fixpoint split (isSeparator : ascii -> bool) (s : list ascii) : list (list ascii) :=
  match s with
  | [] => [[]]
  | c :: s' =>
      if isSeparator c then [] :: split isSeparator s'
      else prepend c (split isSeparator s')
  end.

(** [s.split(/[...]+/g)]: the pieces between the maximal runs of separators;
    [inRun] tells that the character before was a separator. *)
Fixpoint splitRuns (isSeparator : ascii -> bool) (inRun : bool) (s : list ascii)
    : list (list ascii) :=
  match s with
  | [] => [[]]
  | c :: s' =>
      if isSeparator c
      then (if inRun then splitRuns isSeparator true s'
            else [] :: splitRuns isSeparator true s')
      else prepend c (splitRuns isSeparator false s')
  end.

(** [s.split(/\r?\n/)]. *)
Fixpoint splitLines (s : list ascii) : list (list ascii) :=
  match s with
  | [] => [[]]
  | c :: s' =>
      if decide (c = newline) then [] :: splitLines s'
      else if decide (c = carriageReturn) then
        match s' with
        | next :: s'' =>
            if decide (next = newline) then [] :: splitLines s''
            else prepend c (splitLines s')
        | [] => [[c]]
        end
      else prepend c (splitLines s')
  end.

(** [pieces.join(separator)]. *)
Fixpoint join (separator : list ascii) (pieces : list (list ascii)) : list ascii :=
  match pieces with
  | [] => []
  | [piece] => piece
  | piece :: pieces' => piece ++ separator ++ join separator pieces'
  end.

(** [s.toUpperCase()] and [s.toLowerCase()]. *)
Definition upper (c : ascii) : ascii :=
  let n := N_of_ascii c in
  if ((97 <=? n) && (n <=? 122))%N then ascii_of_N (n - 32) else c.

Definition lower (c : ascii) : ascii :=
  let n := N_of_ascii c in
  if ((65 <=? n) && (n <=? 90))%N then ascii_of_N (n + 32) else c.

Definition toUpperCase (s : list ascii) : list ascii := upper <$> s.

Definition toLowerCase (s : list ascii) : list ascii := lower <$> s.

(** [s.startsWith(start)]. *)
Definition startsWith (start s : list ascii) : bool :=
  bool_decide (start `prefix_of` s).

(** [Boolean(s)]: a string is truthy when it is not empty. *)
Definition truthy (s : list ascii) : bool :=
  match s with
  | [] => false
  | _ :: _ => true
  end.

(** [Array.from(new Set(l))]: the first occurrence of each element, in
    order. *)
Definition unique {A : Type} `{EqDecision A} (l : list A) : list A :=
  foldl (fun seen s => if decide (s ∈ seen) then seen else seen ++ [s]) [] l.

End JsString.

Definition MAX_CORPUS : nat := Z.to_nat 50000.

Definition isWordSeparator (c : ascii) : bool :=
  bool_decide (c = JsString.comma) || bool_decide (c = JsString.semicolon)
  || bool_decide (c = JsString.newline).

Definition parseWordList (value : list ascii) : list (list ascii) :=
  List.filter JsString.truthy
    (JsString.trim <$> JsString.splitRuns isWordSeparator false value).

Definition isTokenSeparator (c : ascii) : bool :=
  bool_decide (c = JsString.semicolon) || bool_decide (c = JsString.comma)
  || bool_decide (c = JsString.bar) || bool_decide (c = JsString.tab).

Definition isUrn (token : list ascii) : bool :=
  JsString.startsWith (list_ascii_of_string "URN:") (JsString.toUpperCase token).

(** One turn of the loop of [parseCorpusText]: what the line adds to [urns],
    nothing for a blank line. *)
Definition corpusLine (line : list ascii) : option (list ascii) :=
  let trimmed := JsString.trim line in
  if JsString.truthy trimmed then
    let tokens := JsString.trim <$> JsString.split isTokenSeparator trimmed in
    Some (default trimmed (List.find isUrn tokens))
  else None.

Definition parseCorpusText (text : list ascii) : list (list ascii) :=
  let lines := JsString.splitLines text in
  let urns := omap corpusLine lines in
  take MAX_CORPUS (JsString.unique urns).

(** The loop of [parseDelimitedLine] from a position on: [rest] is the part
    of the line not read yet. *)
Fixpoint parseDelimitedLineFrom (delimiter : list ascii) (values : list (list ascii))
    (current : list ascii) (inQuotes : bool) (rest : list ascii)
    : list (list ascii) :=
  match rest with
  | [] => values ++ [JsString.trim current]
  | char :: rest' =>
      if decide (char = JsString.quote) then
        match rest' with
        | next :: rest'' =>
            if inQuotes && bool_decide (next = JsString.quote)
            then parseDelimitedLineFrom delimiter values
                   (current ++ [JsString.quote]) inQuotes rest''
            else parseDelimitedLineFrom delimiter values current (negb inQuotes) rest'
        | [] => parseDelimitedLineFrom delimiter values current (negb inQuotes) rest'
        end
      else if bool_decide ([char] = delimiter) && negb inQuotes then
        parseDelimitedLineFrom delimiter (values ++ [JsString.trim current]) []
          inQuotes rest'
      else parseDelimitedLineFrom delimiter values (current ++ [char]) inQuotes rest'
  end.

Definition parseDelimitedLine (line delimiter : list ascii) : list (list ascii) :=
  parseDelimitedLineFrom delimiter [] [] false line.

Definition candidates : list (list ascii) :=
  [[JsString.comma]; [JsString.semicolon]; [JsString.tab]].

Definition detectDelimiter (line : list ascii) : list ascii :=
  fst (foldl
         (fun '(best, bestCount) delimiter =>
            let count :=
              length (JsString.split (fun c => bool_decide ([c] = delimiter)) line) in
            if (bestCount <? count)%nat then (delimiter, count) else (best, bestCount))
         ([JsString.comma], 0%nat) candidates).

(** [escapeCsvValue] on a value that is a string already. *)
Definition escapeCsvValue (text : list ascii) : list ascii :=
  if bool_decide (JsString.quote ∈ text) then
    [JsString.quote]
    ++ (text ≫= fun c => if decide (c = JsString.quote)
                          then [JsString.quote; JsString.quote] else [c])
    ++ [JsString.quote]
  else if existsb (fun c => bool_decide (c = JsString.comma)
                            || bool_decide (c = JsString.newline)) text then
    [JsString.quote] ++ text ++ [JsString.quote]
  else text.

(** The content of the file written by [downloadCsv]; a cell is given as
    the string [String(value)] yields. *)
Definition downloadCsv (rows : list (list (list ascii))) : list ascii :=
  JsString.join [JsString.newline]
    ((fun row => JsString.join [JsString.comma] (escapeCsvValue <$> row)) <$> rows).

(** What [parseCorpusRows] returns. *)
Module ParsedCorpus.
Record t : Type := mk {
  urns : list string;
  metaById : gmap string CorpusMeta.t;
  metaByUrn : gmap string CorpusMeta.t
}.
End ParsedCorpus.

(** [value ? String(value).trim() : undefined] and [value || undefined] on a
    string. *)
Definition trimmedOrUndefined (value : list ascii) : option string :=
  if JsString.truthy value then Some (string_of_list_ascii (JsString.trim value))
  else None.

Definition orUndefined (value : list ascii) : option string :=
  if JsString.truthy value then Some (string_of_list_ascii value) else None.

(** One turn of the loop of [parseCorpusRows], on a row whose cells are
    strings, as the rows of a CSV file are. *)
Definition addCorpusRow (acc : ParsedCorpus.t) (row : gmap string (list ascii))
    : ParsedCorpus.t :=
  let urn :=
    default [] (nullish (row !! "urn"%string)
                  (nullish (row !! "URN"%string) (row !! "Urn"%string))) in
  let dhlabid :=
    default []
      (nullish (row !! "dhlabid"%string)
         (nullish (row !! "dhlab_id"%string)
            (nullish (row !! "dhlabId"%string)
               (nullish (row !! EmptyString)
                  (nullish (row !! "index"%string) (row !! "Unnamed: 0"%string)))))) in
  let title := default [] (row !! "title"%string) in
  let authors := default [] (row !! "authors"%string) in
  let year := default [] (row !! "year"%string) in
  let cleanedUrn := JsString.trim urn in
  let cleanedId := JsString.trim dhlabid in
  let afterUrn :=
    if JsString.truthy cleanedUrn then
      ParsedCorpus.mk
        (ParsedCorpus.urns acc ++ [string_of_list_ascii cleanedUrn])
        (ParsedCorpus.metaById acc)
        (<[string_of_list_ascii cleanedUrn :=
             CorpusMeta.mk (orUndefined cleanedId)
               (Some (string_of_list_ascii cleanedUrn))
               (trimmedOrUndefined title) (trimmedOrUndefined authors)
               (trimmedOrUndefined year)]>
           (ParsedCorpus.metaByUrn acc))
    else acc in
  if JsString.truthy cleanedId then
    ParsedCorpus.mk
      (ParsedCorpus.urns afterUrn)
      (<[string_of_list_ascii cleanedId :=
           CorpusMeta.mk (Some (string_of_list_ascii cleanedId))
             (orUndefined cleanedUrn)
             (trimmedOrUndefined title) (trimmedOrUndefined authors)
             (trimmedOrUndefined year)]>
         (ParsedCorpus.metaById afterUrn))
      (ParsedCorpus.metaByUrn afterUrn)
  else afterUrn.

Definition parseCorpusRows (rows : list (gmap string (list ascii)))
    : option ParsedCorpus.t :=
  match rows with
  | [] => None
  | _ :: _ =>
      let result := foldl addCorpusRow (ParsedCorpus.mk [] ∅ ∅) rows in
      Some (ParsedCorpus.mk
              (take MAX_CORPUS (JsString.unique (ParsedCorpus.urns result)))
              (ParsedCorpus.metaById result)
              (ParsedCorpus.metaByUrn result))
  end.

(** The row object of a CSV line: [row[key] = values[index] ?? ''] for each
    header cell in turn. *)
Definition csvRow (header values : list (list ascii)) : gmap string (list ascii) :=
  foldl (fun row '(index, key) =>
           <[string_of_list_ascii key := default [] (values !! index)]> row)
    ∅ (imap (fun index key => (index, key)) header).

Definition parseCorpusCsv (text : list ascii) : option ParsedCorpus.t :=
  let lines :=
    List.filter (fun line => (0 <? length (JsString.trim line))%nat)
      (JsString.splitLines text) in
  match lines with
  | [] => None
  | headerLine :: dataLines =>
      let delimiter := detectDelimiter headerLine in
      let header :=
        JsString.toLowerCase <$> parseDelimitedLine headerLine delimiter in
      let rows :=
        (fun line => csvRow header (parseDelimitedLine line delimiter))
          <$> dataLines in
      parseCorpusRows rows
  end.

(** [handleCorpusFile] on a CSV or text file, once the file is read: the
    next values of [corpusUrns], [corpusMetaById] and [corpusMetaByUrn];
    [prev] holds the values before. *)
Definition handleCorpusFile (isCsv : bool) (text : list ascii) (prev : ParsedCorpus.t)
    : ParsedCorpus.t :=
  let csvParsed := if isCsv then parseCorpusCsv text else None in
  match csvParsed with
  | Some parsed => parsed
  | None =>
      ParsedCorpus.mk (string_of_list_ascii <$> parseCorpusText text)
        (ParsedCorpus.metaById prev) (ParsedCorpus.metaByUrn prev)
  end.

(** ** Word bags and the chart legend *)

Module Wordbag.
Record t : Type := mk {
  id : string;
  name : list ascii;
  words : list (list ascii);
  wordsText : list ascii
}.
End Wordbag.

(** The own properties of the object [wordbagJson] builds, which are what
    [Object.keys] and [JSON.stringify] see of it.  The assignment
    [obj[name] = bag.words] under the name [__proto__] runs the setter of
    [Object.prototype]: it replaces the prototype of [obj] and adds no own
    property. *)
Definition wordbagJson (wordbags : list Wordbag.t) : gmap string (list (list ascii)) :=
  foldl (fun obj bag =>
           let name := JsString.trim (Wordbag.name bag) in
           if JsString.truthy name
           then (if decide (string_of_list_ascii name = "__proto__"%string)
                 then obj
                 else <[string_of_list_ascii name := Wordbag.words bag]> obj)
           else obj)
    ∅ wordbags.

(** The click on a legend button: the next value of [hiddenSeries]. *)
Definition toggleSeries (prev : gset string) (id : string) : gset string :=
  if decide (id ∈ prev) then prev ∖ {[ id ]} else prev ∪ {[ id ]}.

(** Vocabulary for the text helpers. *)

(** A string that neither starts nor ends with white space. *)
Definition trimmed (s : list ascii) : Prop :=
  (∀ c, head s = Some c → StringToNumber.isWhiteSpace c = false)
  ∧ (∀ c, last s = Some c → StringToNumber.isWhiteSpace c = false).

Definition occurrences (delimiter : list ascii) (line : list ascii) : nat :=
  length (List.filter (fun c => bool_decide ([c] = delimiter)) line).

(** The bags that [wordbagJson] files under a name. *)
Definition bagsNamed (key : string) (wordbags : list Wordbag.t) : list Wordbag.t :=
  List.filter
    (fun bag =>
       JsString.truthy (JsString.trim (Wordbag.name bag))
       && bool_decide (string_of_list_ascii (JsString.trim (Wordbag.name bag)) = key))
    wordbags.

(** A field of a metadata record that is present, not empty and neither
    starts nor ends with white space. *)
Definition cleanField (field : option string) : Prop :=
  ∀ value, field = Some value →
    value ≠ EmptyString ∧ trimmed (list_ascii_of_string value).

Definition cleanMeta (m : CorpusMeta.t) : Prop :=
  cleanField (CorpusMeta.dhlabid m) ∧ cleanField (CorpusMeta.urn m)
  ∧ cleanField (CorpusMeta.title m) ∧ cleanField (CorpusMeta.authors m)
  ∧ cleanField (CorpusMeta.year m).

(** How the three parts of a parsed corpus hang together while the rows are
    read: every URN has its record, and the records carry their own key. *)
Definition linked (acc : ParsedCorpus.t) : Prop :=
  (∀ urn, urn ∈ ParsedCorpus.urns acc → is_Some (ParsedCorpus.metaByUrn acc !! urn))
  ∧ map_Forall (fun key m => key ≠ EmptyString ∧ CorpusMeta.urn m = Some key
                             ∧ key ∈ ParsedCorpus.urns acc)
      (ParsedCorpus.metaByUrn acc)
  ∧ map_Forall (fun key m => key ≠ EmptyString ∧ CorpusMeta.dhlabid m = Some key
                             ∧ ∀ urn, CorpusMeta.urn m = Some urn →
                                 is_Some (ParsedCorpus.metaByUrn acc !! urn))
      (ParsedCorpus.metaById acc).

Definition nonBlankLines (text : list ascii) : list (list ascii) :=
  List.filter (fun line => (0 <? length (JsString.trim line))%nat)
    (JsString.splitLines text).

(** * Properties *)

(** ** Sorting *)

Section SortFacts.
Context {A : Type} (compareFn : A -> A -> num).


Lemma insert_Permutation (x : A) (l : list A) : insert compareFn x l ≡ₚ x :: l.
Proof.
  induction l as [|y l IH]; simpl; [done|].
  destruct (Num.gt0 (compareFn x y)); [|done].
  rewrite IH. apply Permutation_swap.
Qed.

Lemma sort_Permutation (l : list A) : sort compareFn l ≡ₚ l.
Proof.
  induction l as [|x l IH]; simpl; [done|].
  rewrite insert_Permutation. by rewrite IH.
Qed.

Lemma sort_length (l : list A) : length (sort compareFn l) = length l.
Proof. apply Permutation_length, sort_Permutation. Qed.

Lemma elem_of_sort (x : A) (l : list A) : x ∈ sort compareFn l ↔ x ∈ l.
Proof. by rewrite sort_Permutation. Qed.

Lemma insert_StronglySorted (x : A) (l : list A) :
  (∀ y z, y ∈ l → z ∈ l → keeps compareFn x y → keeps compareFn y z → keeps compareFn x z) →
  (∀ y, y ∈ l → keeps compareFn x y ∨ keeps compareFn y x) →
  StronglySorted (keeps compareFn) l →
  StronglySorted (keeps compareFn) (insert compareFn x l).
Proof.
  intros Htrans Htotal Hl.
  induction Hl as [|y l Hl IH Hy]; simpl.
  - repeat constructor.
  - destruct (Num.gt0 (compareFn x y)) eqn:Hxy.
    + constructor.
      * apply IH.
        -- intros u v Hu Hv. apply Htrans; by constructor.
        -- intros u Hu. apply Htotal. by constructor.
      * rewrite Forall_forall. intros u Hu.
        rewrite insert_Permutation in Hu.
        apply elem_of_cons in Hu as [->|Hu].
        -- destruct (Htotal y) as [H|H]; [by left| |done].
           unfold keeps in H. congruence.
        -- rewrite Forall_forall in Hy. by apply Hy.
    + constructor; [by constructor|].
      constructor; [done|].
      rewrite Forall_forall. intros u Hu.
      apply (Htrans y u); [by left|by right|done|].
      rewrite Forall_forall in Hy. by apply Hy.
Qed.

(** On a list whose elements the comparator orders consistently, the
    result is sorted. *)
Lemma sort_StronglySorted (l : list A) :
  (∀ x y z, x ∈ l → y ∈ l → z ∈ l → keeps compareFn x y → keeps compareFn y z → keeps compareFn x z) →
  (∀ x y, x ∈ l → y ∈ l → keeps compareFn x y ∨ keeps compareFn y x) →
  StronglySorted (keeps compareFn) (sort compareFn l).
Proof.
  induction l as [|x l IH]; intros Htrans Htotal; simpl; [constructor|].
  apply insert_StronglySorted.
  - intros y z Hy Hz. rewrite elem_of_sort in Hy, Hz.
    apply Htrans; by constructor.
  - intros y Hy. rewrite elem_of_sort in Hy.
    apply Htotal; by constructor.
  - apply IH.
    + intros u v w Hu Hv Hw. apply Htrans; by constructor.
    + intros u v Hu Hv. apply Htotal; by constructor.
Qed.
End SortFacts.

(** ** The topic universe *)

Lemma elem_of_setAdd (s : list string) (k k' : string) :
  k' ∈ setAdd s k ↔ k' ∈ s ∨ k' = k.
Proof.
  unfold setAdd. case_decide.
  - split; [by left|]. intros [?| ->]; done.
  - rewrite elem_of_app, list_elem_of_singleton. done.
Qed.

Lemma NoDup_setAdd (s : list string) (k : string) : NoDup s → NoDup (setAdd s k).
Proof.
  intros Hs. unfold setAdd. case_decide; [done|].
  apply NoDup_app. split_and!; [done| |apply NoDup_singleton].
  intros x Hx Hx'. apply list_elem_of_singleton in Hx'. by subst.
Qed.

Lemma elem_of_foldl_setAdd (ks s : list string) (k : string) :
  k ∈ foldl setAdd s ks ↔ k ∈ s ∨ k ∈ ks.
Proof.
  revert s. induction ks as [|k0 ks IH]; intros s; simpl.
  - rewrite elem_of_nil. tauto.
  - rewrite IH, elem_of_setAdd, elem_of_cons. tauto.
Qed.

Lemma NoDup_foldl_setAdd (ks s : list string) : NoDup s → NoDup (foldl setAdd s ks).
Proof.
  revert s. induction ks as [|k0 ks IH]; intros s Hs; simpl; [done|].
  by apply IH, NoDup_setAdd.
Qed.

Lemma elem_of_topicSet_from (rows : list (string * gmap string Z)) (s : list string) (k : string) :
  k ∈ foldl (fun s row => foldl setAdd s (objectKeys row.2)) s rows
  ↔ k ∈ s ∨ ∃ row, row ∈ rows ∧ k ∈ objectKeys row.2.
Proof.
  revert s. induction rows as [|row rows IH]; intros s; simpl.
  - split; [by left|]. intros [?|(row & Hrow & _)]; [done|].
    by apply elem_of_nil in Hrow.
  - rewrite IH, elem_of_foldl_setAdd. split.
    + intros [[?|?]|(r & Hr & Hk)]; [by left| |].
      * right. exists row. split; [by left|done].
      * right. exists r. split; [by right|done].
    + intros [?|(r & Hr & Hk)]; [by left; left|].
      apply elem_of_cons in Hr as [->|Hr]; [by left; right|].
      right. by exists r.
Qed.

Lemma NoDup_topicSet_from (rows : list (string * gmap string Z)) (s : list string) :
  NoDup s → NoDup (foldl (fun s row => foldl setAdd s (objectKeys row.2)) s rows).
Proof.
  revert s. induction rows as [|row rows IH]; intros s Hs; simpl; [done|].
  by apply IH, NoDup_foldl_setAdd.
Qed.

(** A name is in [topics] exactly when some document reports it. *)
Lemma elem_of_topics (rows : list (string * gmap string Z)) (k : string) :
  k ∈ topics rows ↔ ∃ row, row ∈ rows ∧ is_Some (row.2 !! k).
Proof.
  unfold topics, topicSet. rewrite elem_of_sort, elem_of_topicSet_from.
  rewrite elem_of_nil.
  assert (Hkeys : ∀ o : gmap string Z, k ∈ objectKeys o ↔ is_Some (o !! k)).
  { intros o. unfold objectKeys, objectEntries. rewrite list_elem_of_fmap. split.
    - intros ([k' v] & -> & Hin). apply elem_of_map_to_list in Hin. by exists v.
    - intros [v Hv]. exists (k, v). split; [done|]. by apply elem_of_map_to_list. }
  split.
  - intros [[]|(row & Hrow & Hk)]. exists row. by rewrite <- Hkeys.
  - intros (row & Hrow & Hk). right. exists row. by rewrite Hkeys.
Qed.

Lemma NoDup_topics (rows : list (string * gmap string Z)) : NoDup (topics rows).
Proof.
  unfold topics. rewrite sort_Permutation.
  apply NoDup_topicSet_from, NoDup_nil_2.
Qed.

(** ** The pivot loop *)

Lemma updateRow_ids (topic label : string) (increment : Z) (rows : list TableRow.t) :
  TableRow.id <$> updateRow topic (addToRow label increment) rows = TableRow.id <$> rows.
Proof.
  unfold updateRow. induction rows as [|row rows IH]; simpl; [done|].
  f_equal; [|done]. by case_decide.
Qed.

Lemma addCount_ids (label : string) (st : Pivot.t) (entry : string * Z) :
  TableRow.id <$> Pivot.topicRows (addCount label st entry)
  = TableRow.id <$> Pivot.topicRows st.
Proof.
  unfold addCount. case_decide; simpl; [apply updateRow_ids|done].
Qed.

Lemma addCount_yearBins (label : string) (st : Pivot.t) (entry : string * Z) :
  Pivot.yearBins (addCount label st entry) = Pivot.yearBins st.
Proof. unfold addCount. by case_decide. Qed.

Lemma foldl_addCount_ids (label : string) (entries : list (string * Z)) (st : Pivot.t) :
  TableRow.id <$> Pivot.topicRows (foldl (addCount label) st entries)
  = TableRow.id <$> Pivot.topicRows st.
Proof.
  revert st. induction entries as [|entry entries IH]; intros st; simpl; [done|].
  by rewrite IH, addCount_ids.
Qed.

Lemma foldl_addCount_yearBins (label : string) (entries : list (string * Z)) (st : Pivot.t) :
  Pivot.yearBins (foldl (addCount label) st entries) = Pivot.yearBins st.
Proof.
  revert st. induction entries as [|entry entries IH]; intros st; simpl; [done|].
  by rewrite IH, addCount_yearBins.
Qed.

Lemma addDocument_ids (metaLookup : gmap string CorpusMeta.t) (b : BinSize)
    (st : Pivot.t) (row : DocRow.t) :
  TableRow.id <$> Pivot.topicRows (addDocument metaLookup b st row)
  = TableRow.id <$> Pivot.topicRows st.
Proof.
  unfold addDocument.
  destruct (getYearLabel _ _ _ _) as [[label|] bins]; [|done].
  by rewrite foldl_addCount_ids.
Qed.

Lemma foldl_addDocument_ids (metaLookup : gmap string CorpusMeta.t) (b : BinSize)
    (docs : list DocRow.t) (st : Pivot.t) :
  TableRow.id <$> Pivot.topicRows (foldl (addDocument metaLookup b) st docs)
  = TableRow.id <$> Pivot.topicRows st.
Proof.
  revert st. induction docs as [|doc docs IH]; intros st; simpl; [done|].
  by rewrite IH, addDocument_ids.
Qed.

Lemma emptyPivot_ids (names : list string) :
  TableRow.id <$> Pivot.topicRows (emptyPivot names) = names.
Proof.
  unfold emptyPivot; simpl. induction names as [|n names IH]; csimpl; [done|].
  by f_equal.
Qed.

(** The pivoted rows are the topics, one row each and in their order. *)
Lemma pivot_ids (metaLookup : gmap string CorpusMeta.t) (b : BinSize)
    (names : list string) (docs : list DocRow.t) :
  TableRow.id <$> Pivot.topicRows (pivot metaLookup b names docs) = names.
Proof. unfold pivot. by rewrite foldl_addDocument_ids, emptyPivot_ids. Qed.

Lemma updateRow_cons (topic : string) (f : TableRow.t -> TableRow.t)
    (row : TableRow.t) (rows : list TableRow.t) :
  updateRow topic f (row :: rows)
  = (if decide (TableRow.id row = topic) then f row else row) :: updateRow topic f rows.
Proof. reflexivity. Qed.

Lemma updateRow_other (topic : string) (f : TableRow.t -> TableRow.t) (rows : list TableRow.t) :
  topic ∉ TableRow.id <$> rows → updateRow topic f rows = rows.
Proof.
  induction rows as [|row rows IH]; [done|].
  rewrite fmap_cons, updateRow_cons. intros [Hne Hnin]%not_elem_of_cons.
  rewrite decide_False by done. by rewrite IH.
Qed.

Lemma sumTotal_cons (row : TableRow.t) (rows : list TableRow.t) :
  sumTotal (row :: rows) = TableRow.total row + sumTotal rows.
Proof. reflexivity. Qed.

Lemma updateRow_sumTotal (topic label : string) (increment : Z) (rows : list TableRow.t) :
  NoDup (TableRow.id <$> rows) →
  topic ∈ TableRow.id <$> rows →
  sumTotal (updateRow topic (addToRow label increment) rows) = sumTotal rows + increment.
Proof.
  induction rows as [|row rows IH]; intros Hnd Hin.
  - by apply elem_of_nil in Hin.
  - rewrite fmap_cons in Hnd, Hin. apply NoDup_cons in Hnd as [Hrow Hnd].
    rewrite updateRow_cons, !sumTotal_cons. case_decide as Hid.
    + subst topic. rewrite (updateRow_other _ _ rows Hrow). simpl. lia.
    + apply elem_of_cons in Hin as [->|Hin]; [done|].
      rewrite IH by done. lia.
Qed.

Lemma foldl_addCount_sumTotal (label : string) (entries : list (string * Z)) (st : Pivot.t) :
  NoDup (TableRow.id <$> Pivot.topicRows st) →
  (∀ entry, entry ∈ entries → entry.1 ∈ TableRow.id <$> Pivot.topicRows st) →
  sumTotal (Pivot.topicRows (foldl (addCount label) st entries))
  = sumTotal (Pivot.topicRows st) + foldl (fun sum value => sum + value) 0 (entries.*2).
Proof.
  assert (Hshift : ∀ (vs : list Z) (a : Z),
             foldl (fun sum value => sum + value) a vs
             = a + foldl (fun sum value => sum + value) 0 vs).
  { induction vs as [|v vs IH]; intros a; simpl; [lia|].
    rewrite (IH (a + v)), (IH (0 + v)). lia. }
  revert st. induction entries as [|entry entries IH]; intros st Hnd Hin; csimpl; [lia|].
  rewrite IH.
  - rewrite (Hshift _ (0 + entry.2)).
    unfold addCount at 1. rewrite decide_True by (apply Hin; by left). simpl.
    rewrite updateRow_sumTotal; [lia|done|]. apply Hin. by left.
  - by rewrite addCount_ids.
  - intros e He. rewrite addCount_ids. apply Hin. by right.
Qed.

Lemma getYearLabel_hasYear (metaLookup : gmap string CorpusMeta.t) (b : BinSize)
    (docId : string) (bins : list (string * num)) :
  hasYear metaLookup docId = true →
  ∃ label bins', getYearLabel metaLookup b docId bins = (Some label, bins').
Proof.
  unfold hasYear, getYearLabel.
  destruct (Number _); simpl; intros H; try done. eauto.
Qed.

Lemma getYearLabel_no_year (metaLookup : gmap string CorpusMeta.t) (b : BinSize)
    (docId : string) (bins : list (string * num)) :
  hasYear metaLookup docId = false →
  getYearLabel metaLookup b docId bins = (None, bins).
Proof.
  unfold hasYear, getYearLabel. by destruct (Number _).
Qed.

Lemma foldl_addDocument_sumTotal (metaLookup : gmap string CorpusMeta.t) (b : BinSize)
    (docs : list DocRow.t) (st : Pivot.t) :
  NoDup (TableRow.id <$> Pivot.topicRows st) →
  (∀ doc, doc ∈ docs → hasYear metaLookup (DocRow.docId doc) = true) →
  (∀ doc, doc ∈ docs →
     DocRow.total doc
     = foldl (fun sum value => sum + value) 0 (objectValues (DocRow.topics doc))) →
  (∀ doc k, doc ∈ docs → k ∈ objectKeys (DocRow.topics doc) →
     k ∈ TableRow.id <$> Pivot.topicRows st) →
  sumTotal (Pivot.topicRows (foldl (addDocument metaLookup b) st docs))
  = sumTotal (Pivot.topicRows st) + sumDocTotal docs.
Proof.
  revert st. induction docs as [|doc docs IH]; intros st Hnd Hyear Htotal Hkeys.
  - unfold sumDocTotal; simpl. lia.
  - cbn [foldl]. rewrite IH.
    + change (sumDocTotal (doc :: docs)) with (DocRow.total doc + sumDocTotal docs).
      unfold addDocument at 1.
      destruct (getYearLabel_hasYear metaLookup b (DocRow.docId doc) (Pivot.yearBins st))
        as (label & bins' & ->); [apply Hyear; by left|].
      rewrite foldl_addCount_sumTotal; cbn [Pivot.topicRows].
      * rewrite (Htotal doc) by (by left). unfold objectValues. lia.
      * done.
      * intros entry Hentry. apply (Hkeys doc); [by left|].
        unfold objectKeys. apply list_elem_of_fmap. by exists entry.
    + by rewrite addDocument_ids.
    + intros d Hd. apply Hyear. by right.
    + intros d Hd. apply Htotal. by right.
    + intros d k Hd Hk. rewrite addDocument_ids. apply (Hkeys d); [by right|done].
Qed.

Lemma emptyPivot_sumTotal (names : list string) :
  sumTotal (Pivot.topicRows (emptyPivot names)) = 0.
Proof.
  unfold emptyPivot, sumTotal; simpl. induction names as [|n names IH]; csimpl; [done|].
  by rewrite IH.
Qed.

Lemma sumTotal_docRows (docs : list DocRow.t) : sumTotal (docRows docs) = sumDocTotal docs.
Proof.
  unfold sumTotal, sumDocTotal, docRows.
  induction docs as [|doc docs IH]; csimpl; [done|].
  by rewrite IH.
Qed.

Lemma sumTotal_Permutation (l1 l2 : list TableRow.t) :
  l1 ≡ₚ l2 → sumTotal l1 = sumTotal l2.
Proof.
  induction 1; rewrite ?sumTotal_cons; lia.
Qed.

Lemma elem_of_rowsWithTotals (rows : list (string * gmap string Z)) (doc : DocRow.t) :
  doc ∈ rowsWithTotals rows →
  (DocRow.docId doc, DocRow.topics doc) ∈ rows
  ∧ DocRow.total doc
    = foldl (fun sum value => sum + value) 0 (objectValues (DocRow.topics doc)).
Proof.
  unfold rowsWithTotals. rewrite list_elem_of_fmap. intros ([d o] & -> & Hin). simpl. done.
Qed.

(** ** Conservation of totals *)

Lemma pivot_sumTotal (metaLookup : gmap string CorpusMeta.t) (b : BinSize)
    (rows : list (string * gmap string Z)) :
  Forall (fun row => hasYear metaLookup row.1 = true) rows →
  sumTotal (Pivot.topicRows (pivot metaLookup b (topics rows) (rowsWithTotals rows)))
  = sumDocTotal (rowsWithTotals rows).
Proof.
  intros Hyear. rewrite Forall_forall in Hyear. unfold pivot.
  rewrite foldl_addDocument_sumTotal.
  - rewrite emptyPivot_sumTotal. lia.
  - rewrite emptyPivot_ids. apply NoDup_topics.
  - intros doc [Hdoc _]%elem_of_rowsWithTotals. by apply (Hyear _ Hdoc).
  - by intros doc [_ Htotal]%elem_of_rowsWithTotals.
  - intros doc k [Hdoc _]%elem_of_rowsWithTotals Hk.
    rewrite emptyPivot_ids. apply elem_of_topics.
    exists (DocRow.docId doc, DocRow.topics doc). split; [done|]. simpl.
    unfold objectKeys, objectEntries in Hk.
    apply list_elem_of_fmap in Hk as ([k' v] & -> & Hin).
    apply elem_of_map_to_list in Hin. by exists v.
Qed.

Lemma filtered_disabled (totalThreshold : Q) (sorted : list TableRow.t) :
  (totalThreshold <= 0)%Q → filtered totalThreshold sorted = sorted.
Proof.
  intros H. unfold filtered. apply Qle_bool_iff in H. by rewrite H.
Qed.

(** The builder's rows, before the sort and the threshold: the by-document
    rows and the topic rows after the pivot loop have the same sum. *)
Lemma builder_conserves_totals (metaLookup : gmap string CorpusMeta.t)
    (yearBinSize : num) (rows : list (string * gmap string Z)) :
  Forall (fun row => hasYear metaLookup row.1 = true) rows →
  sumTotal (docRows (rowsWithTotals rows))
  = sumTotal (Pivot.topicRows
                (pivot metaLookup (binSize yearBinSize) (topics rows) (rowsWithTotals rows))).
Proof.
  intros Hyear. by rewrite pivot_sumTotal, sumTotal_docRows.
Qed.

(** As it is worded, without a word on the threshold, the conservation fails:
    each table drops the rows whose own total is below the threshold, and the
    totals of documents and of topics differ.  With the threshold 4 the
    by-document table keeps doc2 (5) and the pivoted table keeps nature
    (8), although both documents have a year. *)
Lemma threshold_breaks_conservation :
  let byDocument := exampleState false (ofZ 10) 4 in
  let byYear := exampleState true (ofZ 10) 4 in
  Forall (fun row => hasYear exampleMeta row.1 = true) exampleData
  ∧ (sumTotal <$> (Table.rows <$> evaluationTable byCodeUnits byDocument)) = Some 5
  ∧ (sumTotal <$> (Table.rows <$> evaluationTable byCodeUnits byYear)) = Some 8
  ∧ (TableRow.id <$>
       default [] (Table.rows <$> evaluationTable byCodeUnits byDocument))
    = ["doc2"%string]
  ∧ (TableRow.id <$>
       default [] (Table.rows <$> evaluationTable byCodeUnits byYear))
    = ["nature"%string].
Proof. split_and!; [repeat constructor|by vm_compute..]. Qed.

(** C1 (amended). When every document has a usable year and the threshold
    filter is off in both views, the rows of the by-document table and
    the rows of the pivoted by-year table, built from the same evaluation
    result and metadata, have the same sum of totals, whatever the sort
    keys, directions and bin sizes of the two views. *)
Theorem pivot_conserves_totals (localeCompare : string -> string -> Z) (s s' : State.t)
    (rows : list (string * gmap string Z)) (byDocument byYear : Table.t) :
  State.evaluateData s = Some rows →
  State.evaluateData s' = Some rows →
  State.corpusMetaById s' = State.corpusMetaById s →
  State.aggregateByYear s = false →
  State.aggregateByYear s' = true →
  (State.totalThreshold s <= 0)%Q →
  (State.totalThreshold s' <= 0)%Q →
  Forall (fun row => hasYear (State.corpusMetaById s) row.1 = true) rows →
  evaluationTable localeCompare s = Some byDocument →
  evaluationTable localeCompare s' = Some byYear →
  sumTotal (Table.rows byDocument) = sumTotal (Table.rows byYear).
Proof.
  intros Hrows Hrows' Hmeta Hagg Hagg' Ht Ht' Hyear.
  unfold evaluationTable. rewrite Hrows, Hrows', Hagg, Hagg'.
  intros [= <-] [= <-]. simpl.
  rewrite !filtered_disabled by done.
  unfold sortedDocRows, sortedTopicRows.
  rewrite (sumTotal_Permutation _ _ (sort_Permutation _ _)).
  rewrite (sumTotal_Permutation _ _ (sort_Permutation _ (Pivot.topicRows _))).
  rewrite Hmeta. by rewrite pivot_sumTotal, sumTotal_docRows.
Qed.

Lemma pivot_conserves_totals_witness :
  let s := exampleState false (ofZ 10) 0 in
  let s' := exampleState true (ofZ 10) 0 in
  ∃ byDocument byYear,
    evaluationTable byCodeUnits s = Some byDocument
    ∧ evaluationTable byCodeUnits s' = Some byYear
    ∧ Forall (fun row => hasYear (State.corpusMetaById s) row.1 = true) exampleData
    ∧ sumTotal (Table.rows byDocument) = sumTotal (Table.rows byYear)
    ∧ sumTotal (Table.rows byYear) = 8.
Proof.
  intros s s'.
  assert (Hyear : Forall (fun row => hasYear (State.corpusMetaById s) row.1 = true)
                    exampleData) by repeat constructor.
  destruct (evaluationTable byCodeUnits s) as [byDocument|] eqn:Hdoc;
    [|discriminate Hdoc].
  destruct (evaluationTable byCodeUnits s') as [byYear|] eqn:Hpivot;
    [|discriminate Hpivot].
  exists byDocument, byYear.
  split; [reflexivity|]. split; [reflexivity|]. split; [exact Hyear|].
  split.
  - exact (pivot_conserves_totals byCodeUnits s s' exampleData byDocument byYear
             eq_refl eq_refl eq_refl eq_refl eq_refl
             ltac:(unfold Qle; simpl; lia) ltac:(unfold Qle; simpl; lia)
             Hyear Hdoc Hpivot).
  - revert Hpivot. unfold s'. vm_compute. by intros [= <-].
Defined.

(** ** Documents without a year *)






(** ** The reported row count *)

(** C10. [totalRows] is the number of rows before the threshold is applied:
    the number of documents in by-document mode, the number of topics in
    pivoted mode; changing [totalThreshold] does not change it. *)
Theorem totalRows_counts_unfiltered_rows (localeCompare : string -> string -> Z)
    (s : State.t) :
  match State.evaluateData s, evaluationTable localeCompare s with
  | Some rows, Some table =>
      (if State.aggregateByYear s
       then Table.totalRows table = length (sortedTopicRows localeCompare s rows)
            ∧ Table.totalRows table = length (topics rows)
       else Table.totalRows table = length (sortedDocRows localeCompare s rows)
            ∧ Table.totalRows table = length rows)
      ∧ ∀ value,
          Table.totalRows <$> evaluationTable localeCompare (setTotalThreshold s value)
          = Some (Table.totalRows table)
  | None, None => True
  | _, _ => False
  end.
Proof.
  unfold evaluationTable. destruct s as [data byId byUrn key dir thr agg ybs pct hid].
  simpl. destruct data as [rows|]; [|done].
  destruct agg; simpl.
  - split; [|done]. unfold sortedTopicRows. rewrite sort_length. simpl.
    split; [done|].
    rewrite <- (length_fmap TableRow.id). by rewrite pivot_ids.
  - split; [|done]. unfold sortedDocRows. rewrite sort_length.
    split; [done|]. unfold docRows, rowsWithTotals. by rewrite !length_fmap.
Qed.

(** ** The by-document builder *)

Lemma lexLt_trans (a b c : string) : lexLt a b → lexLt b c → lexLt a c.
Proof.
  unfold lexLt. rewrite !OrderedTypeEx.String_as_OT.cmp_lt.
  apply OrderedTypeEx.String_as_OT.lt_trans.
Qed.



Lemma foldl_add_sumZ (l : list Z) (a : Z) :
  foldl (fun sum value => sum + value) a l = a + sumZ l.
Proof.
  revert a. induction l as [|v l IH]; intros a; simpl; [lia|].
  rewrite IH. unfold sumZ. lia.
Qed.

Lemma sumZ_Permutation (l1 l2 : list Z) : l1 ≡ₚ l2 → sumZ l1 = sumZ l2.
Proof. unfold sumZ. induction 1; simpl; lia. Qed.






(** ** Percentages *)

Lemma Qeq_bool_inject_Z_pos (d : Z) : 0 < d → Qeq_bool (inject_Z d) 0 = false.
Proof.
  intros Hd. destruct (Qeq_bool (inject_Z d) 0) eqn:H; [|done].
  apply Qeq_bool_iff in H. unfold Qeq in H. simpl in H. lia.
Qed.

Lemma percentKey_pos (value denom : Z) :
  0 < denom → percentKey value denom = Fin (inject_Z value / inject_Z denom).
Proof.
  intros Hd. unfold percentKey, Num.div, ofZ.
  rewrite (proj2 (Z.ltb_lt 0 denom) Hd). by rewrite Qeq_bool_inject_Z_pos.
Qed.

Lemma percentValue_pos (value denom : Z) :
  0 < denom →
  percentValue value denom = Fin (inject_Z value / inject_Z denom * inject_Z 100).
Proof.
  intros Hd. unfold percentValue, Num.div, ofZ.
  rewrite (proj2 (Z.ltb_lt 0 denom) Hd). by rewrite Qeq_bool_inject_Z_pos.
Qed.

Lemma percent_nonpos (value denom : Z) :
  denom ≤ 0 → percentKey value denom = ofZ 0 ∧ percentValue value denom = ofZ 0.
Proof.
  intros Hd. unfold percentKey, percentValue.
  by rewrite (proj2 (Z.ltb_ge 0 denom) Hd).
Qed.

Lemma percentValue_finite (value denom : Z) :
  ∃ q, percentValue value denom = Fin q
       ∧ (q == if 0 <? denom then 100 * inject_Z value / inject_Z denom else 0)%Q.
Proof.
  destruct (0 <? denom) eqn:Hd.
  - apply Z.ltb_lt in Hd. rewrite percentValue_pos by done.
    eexists; split; [done|]. change (inject_Z 100) with 100%Q. field.
    intros H. unfold Qeq in H. simpl in H. lia.
  - unfold percentValue. rewrite Hd. by exists (inject_Z 0).
Qed.

Lemma percentKey_finite (value denom : Z) :
  ∃ q, percentKey value denom = Fin q
       ∧ (q == if 0 <? denom then inject_Z value / inject_Z denom else 0)%Q.
Proof.
  destruct (0 <? denom) eqn:Hd.
  - apply Z.ltb_lt in Hd. rewrite percentKey_pos by done. by eexists.
  - unfold percentKey. rewrite Hd. by exists (inject_Z 0).
Qed.

(** The specification's wording fails for the sort comparator:
    the value compared for a percent column is the share itself, not the
    share times 100. *)
Lemma percent_sort_key_is_not_scaled :
  let a := TableRow.mk "nature" {[ "1994"%string := 3 ]} 3 in
  let b := TableRow.mk "war" ∅ 0 in
  let yearTotals : gmap string Z := {[ "1994"%string := 3 ]} in
  percentKey 3 3 = Fin (3 / 3)
  ∧ ¬ Num.eqv (percentKey 3 3) (Fin (100 * 3 / 3))
  ∧ Num.eqv
      (compareTopicRows byCodeUnits (columnDefs true ["1994"%string]) yearTotals
         "1994__percent" asc a b)
      (Fin 1)
  ∧ Num.eqv (percentValue 3 3) (Fin 100).
Proof. split_and!; [reflexivity|by vm_compute..]. Qed.

(** ** Sort state *)

(** C5. Selecting the key [row] when another key is current sets the
    direction to descending: [row] is not among the keys [handleSort]
    resets to ascending. *)
Theorem handleSort_row_resets_to_desc (s : State.t) :
  State.sortKey s ≠ "row"%string →
  State.sortKey (handleSort s "row") = "row"%string
  ∧ State.sortDir (handleSort s "row") = desc.
Proof.
  intros Hne. unfold handleSort. by rewrite decide_False.
Qed.

Lemma handleSort_row_resets_to_desc_witness :
  State.sortKey (exampleState true (ofZ 1) 0) ≠ "row"%string
  ∧ State.sortKey (handleSort (exampleState true (ofZ 1) 0) "row") = "row"%string
  ∧ State.sortDir (handleSort (exampleState true (ofZ 1) 0) "row") = desc.
Proof.
  assert (H : State.sortKey (exampleState true (ofZ 1) 0) ≠ "row"%string).
  { intros H. discriminate H. }
  split; [exact H|]. exact (handleSort_row_resets_to_desc _ H).
Defined.

(** The rest of the behaviour of [handleSort]: the same key flips the
    direction; a new key is ascending for [title], [authors] and [dhlabid]
    and descending for every other key. *)
Lemma handleSort_spec (s : State.t) (key : string) :
  (State.sortKey s = key →
     State.sortKey (handleSort s key) = key
     ∧ State.sortDir (handleSort s key)
       = match State.sortDir s with asc => desc | desc => asc end)
  ∧ (State.sortKey s ≠ key →
       State.sortKey (handleSort s key) = key
       ∧ State.sortDir (handleSort s key)
         = if decide (key = "title"%string ∨ key = "authors"%string ∨ key = "dhlabid"%string)
           then asc else desc).
Proof.
  unfold handleSort. split; intros H.
  - by rewrite decide_True.
  - by rewrite decide_False.
Qed.

(** ** Year bins *)

(** The specification's wording fails: a bin size that is not
    an integer is rounded down, not replaced by 1. *)
Lemma fractional_bin_size_is_floored :
  binSize (Fin (5 # 2)) = Width 2 ∧ binSize (Fin (5 # 2)) ≠ binSize (ofZ 1).
Proof. split; [reflexivity|]. intros H. discriminate H. Qed.

Lemma binSize_finite (q : Q) : binSize (Fin q) = Width (Z.max 1 (Qfloor q)).
Proof.
  unfold binSize. destruct (Qeq_bool q 0) eqn:H; [|done].
  apply Qeq_bool_iff in H. by rewrite (Qfloor_comp _ _ H).
Qed.

Lemma Qfloor_div_integers (z b : Z) :
  Qfloor (inject_Z z / inject_Z b) * b = z `div` b * b.
Proof. by rewrite <- Zdiv_Qdiv. Qed.

(** C6 (amended). The bin width is [max(1, floor(yearBinSize))]: it is 1 for
    every non-positive or [NaN] input, the integer itself for a positive
    integer, and the integer part for any other positive input (1 below 1).
    With width [b], a document whose year is the number [y] goes into the
    bin that starts at [floor(y / b) × b], labelled by the start alone when
    [b] is 1 (the year itself, for an integral year) and by
    start-(start + b - 1) otherwise.  With width 10 the years 1994 and 1988
    fall into 1990-1999 and 1980-1989, and the pivoted row for nature holds
    3 and 5 there, with total 8. *)
Theorem year_bin_size_coercion :
  (∀ q, binSize (Fin q) = Width (Z.max 1 (Qfloor q)))
  ∧ (∀ q, (q <= 0)%Q → binSize (Fin q) = Width 1)
  ∧ binSize NaN = Width 1
  ∧ (∀ p, binSize (ofZ (Z.pos p)) = Width (Z.pos p))
  ∧ (∀ p y,
       let b := Z.pos p in
       let start := Qfloor (y / inject_Z b) * b in
       yearBin (Width b) y
       = (if decide (b = 1) then toString start
          else toString start +:+ "-" +:+ toString (start + b - 1),
          ofZ start))
  ∧ (∀ p z,
       Qfloor (inject_Z z / inject_Z (Z.pos p)) * Z.pos p = z `div` Z.pos p * Z.pos p
       ∧ Qfloor (inject_Z z / inject_Z 1) * 1 = z)
  ∧ (∀ metaLookup b docId bins y,
       Number (metaLookup !! docId ≫= CorpusMeta.year) = Fin y →
       getYearLabel metaLookup b docId bins
       = (Some (yearBin b y).1, mapSet (yearBin b y).1 (yearBin b y).2 bins))
  ∧ (let p := pivot exampleMeta (binSize (ofZ 10)) (topics exampleData)
                (rowsWithTotals exampleData) in
     (fun docId => (getYearLabel exampleMeta (binSize (ofZ 10)) docId []).1)
       <$> ["doc1"; "doc2"]%string
     = [Some "1990-1999"; Some "1980-1989"]%string
     ∧ yearLabels (Pivot.yearBins p) = ["1980-1989"; "1990-1999"]%string
     ∧ (fun row =>
          (TableRow.id row,
           TableRow.values row !! "1990-1999"%string,
           TableRow.values row !! "1980-1989"%string,
           TableRow.total row))
         <$> Pivot.topicRows p
       = [("nature", Some 3, Some 5, 8); ("war", Some 0, None, 0)]%string).
Proof.
  split_and!.
  - apply binSize_finite.
  - intros q Hq. rewrite binSize_finite. f_equal.
    assert (Qfloor q ≤ 0); [|lia].
    rewrite <- (Qfloor_Z 0). by apply Qfloor_resp_le.
  - done.
  - intros p. unfold ofZ. rewrite binSize_finite, Qfloor_Z. f_equal. lia.
  - intros p y b start. unfold yearBin. fold start. f_equal.
    destruct (1 <? b) eqn:Hb.
    + apply Z.ltb_lt in Hb. rewrite decide_False; [done|lia].
    + apply Z.ltb_ge in Hb. rewrite decide_True; [done|]. unfold b in *. lia.
  - intros p z. split; [apply Qfloor_div_integers|].
    rewrite Qfloor_div_integers. rewrite Z.div_1_r. lia.
  - intros metaLookup b docId bins y Hy. unfold getYearLabel. by rewrite Hy.
  - by vm_compute.
Qed.

(** ** The [Ukjent] bin *)

Lemma toString_head (z : Z) : ∃ c s, toString z = String c s ∧ c ≠ "U"%char.
Proof.
  unfold toString. destruct (Z.to_int z) as [d|d]; simpl.
  - destruct d; simpl; eexists _, _; (split; [reflexivity|done]).
  - eexists _, _; split; [reflexivity|done].
Qed.

Lemma yearBin_not_Ukjent (b : BinSize) (y : Q) : (yearBin b y).1 ≠ "Ukjent"%string.
Proof.
  destruct b as [b|]; [|done]. unfold yearBin. cbn [fst].
  destruct (toString_head (Qfloor (y / inject_Z b) * b)) as (c & s & Hs & Hc).
  destruct (1 <? b); rewrite Hs; simpl; intros [= ?]; done.
Qed.

Lemma elem_of_mapSet {V : Type} (k : string) (v : V) (m : list (string * V)) (e : string * V) :
  e ∈ mapSet k v m → e = (k, v) ∨ e ∈ m.
Proof.
  induction m as [|[k' v'] m IH]; simpl.
  - intros ->%list_elem_of_singleton. by left.
  - case_decide.
    + intros [->|?]%elem_of_cons; [by left|]. right. by right.
    + intros [->|?]%elem_of_cons; [right; by left|].
      destruct IH as [?|?]; [done|by left|]. right. by right.
Qed.

Lemma Ukjent_getYearLabel_binsOk (metaLookup : gmap string CorpusMeta.t) (b : Z)
    (docId : string) (bins : list (string * num)) :
  binsOk bins → binsOk (Ukjent.getYearLabel metaLookup (Width b) docId bins).2.
Proof.
  unfold binsOk. rewrite !Forall_forall. intros Hok e.
  unfold Ukjent.getYearLabel.
  destruct (Number _) as [y| | |]; cbn [snd];
    intros [->|He]%elem_of_mapSet; try (by apply Hok); try (by eauto).
  split; [simpl; eauto|].
  intros H. by apply yearBin_not_Ukjent in H.
Qed.

Lemma Ukjent_pivot_binsOk (metaLookup : gmap string CorpusMeta.t) (b : Z)
    (names : list string) (docs : list DocRow.t) :
  binsOk (Pivot.yearBins (Ukjent.pivot metaLookup (Width b) names docs)).
Proof.
  unfold Ukjent.pivot.
  assert (H : binsOk (Pivot.yearBins (emptyPivot names))) by constructor.
  revert H. generalize (emptyPivot names).
  induction docs as [|doc docs IH]; intros st Hst; [done|].
  cbn [foldl]. apply IH. unfold Ukjent.addDocument.
  pose proof (Ukjent_getYearLabel_binsOk metaLookup b (DocRow.docId doc) _ Hst) as H.
  destruct (Ukjent.getYearLabel _ _ _ _) as [label bins].
  by rewrite foldl_addCount_yearBins.
Qed.

Lemma gt0_sub_ofZ (a b : Z) : Num.gt0 (Num.sub (ofZ a) (ofZ b)) = bool_decide (b < a).
Proof.
  unfold Num.gt0, Num.sub, Num.add, Num.neg, ofZ, Num.sgn.
  rewrite <- inject_Z_opp, <- inject_Z_plus.
  unfold Qcompare, inject_Z. cbn [Qnum Qden]. rewrite !Z.mul_1_r.
  destruct (Z.compare_spec (a + - b) 0); case_bool_decide; lia.
Qed.

Lemma StronglySorted_lookup {A : Type} (R : A -> A -> Prop) (l : list A)
    (i j : nat) (x y : A) :
  StronglySorted R l → l !! i = Some x → l !! j = Some y → (i < j)%nat → R x y.
Proof.
  intros Hl. revert i j. induction Hl as [|z l Hl IH Hz]; intros i j Hi Hj Hij.
  - by rewrite lookup_nil in Hi.
  - destruct j as [|j]; [lia|]. destruct i as [|i]; simpl in *.
    + injection Hi as ->. rewrite Forall_forall in Hz. apply Hz.
      by eapply list_elem_of_lookup_2.
    + apply (IH i j); [done|done|lia].
Qed.

Lemma sorted_yearBins (bins : list (string * num)) :
  binsOk bins →
  StronglySorted (keeps (fun a b => Num.sub a.2 b.2))
    (sort (fun a b => Num.sub a.2 b.2) bins).
Proof.
  unfold binsOk. rewrite Forall_forall. intros Hok.
  apply sort_StronglySorted; unfold keeps.
  - intros x y z Hx Hy Hz.
    destruct (Hok x Hx) as [[a ->] _], (Hok y Hy) as [[b ->] _], (Hok z Hz) as [[c ->] _].
    rewrite !gt0_sub_ofZ, !bool_decide_eq_false. lia.
  - intros x y Hx Hy.
    destruct (Hok x Hx) as [[a ->] _], (Hok y Hy) as [[b ->] _].
    rewrite !gt0_sub_ofZ, !bool_decide_eq_false. lia.
Qed.

Lemma addCount_agree (label : string) (entries : list (string * Z)) (st st' : Pivot.t) :
  agreeOffUkjent st st' →
  agreeOffUkjent (foldl (addCount label) st entries) (foldl (addCount label) st' entries).
Proof.
  revert st st'. induction entries as [|entry entries IH]; intros st st' [Hids Hyt]; [done|].
  cbn [foldl]. apply IH. split.
  - by rewrite !addCount_ids.
  - intros l Hl. unfold addCount. rewrite <- Hids.
    case_decide; [|by apply Hyt]. simpl.
    destruct (decide (label = l)) as [->|Hne].
    + rewrite !lookup_insert_eq. by rewrite (Hyt l Hl).
    + rewrite !lookup_insert_ne by done. by apply Hyt.
Qed.

Lemma addCount_Ukjent_agree (entries : list (string * Z)) (st st' : Pivot.t) :
  agreeOffUkjent st st' →
  agreeOffUkjent (foldl (addCount "Ukjent") st entries) st'.
Proof.
  revert st. induction entries as [|entry entries IH]; intros st [Hids Hyt]; [done|].
  cbn [foldl]. apply IH. split.
  - by rewrite addCount_ids.
  - intros l Hl. unfold addCount. case_decide; [|by apply Hyt]. simpl.
    rewrite lookup_insert_ne by done. by apply Hyt.
Qed.

Lemma pivots_agree (metaLookup : gmap string CorpusMeta.t) (b : BinSize)
    (names : list string) (docs : list DocRow.t) :
  agreeOffUkjent (Ukjent.pivot metaLookup b names docs) (pivot metaLookup b names docs).
Proof.
  unfold Ukjent.pivot, pivot.
  assert (H : agreeOffUkjent (emptyPivot names) (emptyPivot names)) by done.
  revert H. generalize (emptyPivot names) at 1 3. generalize (emptyPivot names).
  induction docs as [|doc docs IH]; intros st' st Hagree; [done|].
  cbn [foldl]. apply IH.
  unfold Ukjent.addDocument, addDocument, Ukjent.getYearLabel, getYearLabel.
  destruct (Number _) as [y| | |].
  - apply addCount_agree. by destruct Hagree.
  - apply addCount_Ukjent_agree. by destruct Hagree.
  - apply addCount_Ukjent_agree. by destruct Hagree.
  - apply addCount_Ukjent_agree. by destruct Hagree.
Qed.

(** The specification's wording fails: with one document of
    1994 and one without a year, the [Ukjent] columns come first, and the
    [Ukjent] percent column has a denominator of its own. *)
Lemma unknown_column_comes_first :
  let s := State.mk (Some exampleData)
             {[ "doc1"%string := CorpusMeta.mk None None None None (Some "1994"%string) ]}
             ∅ "total" desc 0 true (ofZ 1) true ∅ in
  ColumnDef.key <$> Ukjent.columns s exampleData
  = ["Ukjent__count"; "Ukjent__percent"; "1994__count"; "1994__percent"]%string
  ∧ Ukjent.yearTotals s exampleData !! "Ukjent"%string = Some 5.
Proof. by vm_compute. Qed.

(** C7 (amended). In the revision that bins documents without a year as
    [Ukjent], for every finite [yearBinSize], that bin has the sort value -1
    and the year columns follow the
    ascending sort values: the [Ukjent] column comes before every bin that
    starts after -1 (every bin of a year from 0 on) and after every bin that
    starts before -1.  No numeric bin is labelled [Ukjent], and the counts
    of the documents without a year are added to [yearTotals] under
    [Ukjent] only: the denominator of every other bin is the one the pivot
    computes when these documents are dropped. *)
Theorem unknown_bin_order_and_denominators (metaLookup : gmap string CorpusMeta.t)
    (yearBinSize : Q) (names : list string) (docs : list DocRow.t) :
  let p := Ukjent.pivot metaLookup (binSize (Fin yearBinSize)) names docs in
  let entries := sort (fun a b => Num.sub a.2 b.2) (Pivot.yearBins p) in
  yearLabels (Pivot.yearBins p) = entries.*1
  ∧ (∀ i j v label start,
       entries !! i = Some ("Ukjent"%string, v) →
       entries !! j = Some (label, ofZ start) →
       v = ofZ (-1)
       ∧ (-1 < start → (i < j)%nat)
       ∧ (start < -1 → (j < i)%nat))
  ∧ (∀ width y, (yearBin width y).1 ≠ "Ukjent"%string)
  ∧ (∀ width label,
       label ≠ "Ukjent"%string →
       Pivot.yearTotals (Ukjent.pivot metaLookup width names docs) !! label
       = Pivot.yearTotals (pivot metaLookup width names docs) !! label).
Proof.
  rewrite binSize_finite. set (b := Z.max 1 (Qfloor yearBinSize)).
  intros p entries. split_and!.
  - done.
  - intros i j v label start Hi Hj.
    pose proof (Ukjent_pivot_binsOk metaLookup b names docs) as Hok.
    pose proof (sorted_yearBins _ Hok) as Hsorted. fold p in Hok, Hsorted. fold entries in Hsorted.
    assert (Hv : v = ofZ (-1)).
    { unfold binsOk in Hok. rewrite Forall_forall in Hok.
      apply (Hok ("Ukjent"%string, v)); [|done].
      apply (elem_of_sort (fun a b => Num.sub a.2 b.2)).
      by eapply list_elem_of_lookup_2. }
    subst v. split; [done|]. split; intros Hstart.
    + destruct (decide (i < j)%nat) as [|Hge]; [done|exfalso].
      assert (j ≠ i) by (intros ->; rewrite Hi in Hj; injection Hj as _ Hq; lia).
      pose proof (StronglySorted_lookup _ _ j i _ _ Hsorted Hj Hi ltac:(lia)) as Hk.
      unfold keeps in Hk. cbn [snd] in Hk. rewrite gt0_sub_ofZ in Hk.
      apply bool_decide_eq_false in Hk. lia.
    + destruct (decide (j < i)%nat) as [|Hge]; [done|exfalso].
      assert (j ≠ i) by (intros ->; rewrite Hi in Hj; injection Hj as _ Hq; lia).
      pose proof (StronglySorted_lookup _ _ i j _ _ Hsorted Hi Hj ltac:(lia)) as Hk.
      unfold keeps in Hk. cbn [snd] in Hk. rewrite gt0_sub_ofZ in Hk.
      apply bool_decide_eq_false in Hk. lia.
  - apply yearBin_not_Ukjent.
  - intros width label Hlabel. by apply pivots_agree.
Qed.

(** ** Direction of a sort *)

Lemma gt0_Fin (q : Q) : Num.gt0 (Fin q) = true ↔ (0 < q)%Q.
Proof.
  unfold Num.gt0, Num.sgn. rewrite (Qgt_alt q 0).
  destruct (q ?= 0)%Q; split; done.
Qed.

Lemma lt0_Fin (q : Q) : Num.lt0 (Fin q) = true ↔ (q < 0)%Q.
Proof.
  unfold Num.lt0, Num.sgn. rewrite (Qlt_alt q 0).
  destruct (q ?= 0)%Q; split; done.
Qed.

Lemma sign_exclusive (x : num) : Num.gt0 x = true → Num.lt0 x = true → False.
Proof.
  destruct x as [q| | |]; try done.
  rewrite gt0_Fin, lt0_Fin. lra.
Qed.

Lemma bool_eq_iff (a b : bool) : (a = true ↔ b = true) → a = b.
Proof. destruct a, b; intuition congruence. Qed.

Lemma sign_asc (x : num) :
  Num.gt0 (Num.mul (direction asc) x) = Num.gt0 x
  ∧ Num.lt0 (Num.mul (direction asc) x) = Num.lt0 x.
Proof.
  destruct x as [q| | |]; try done.
  split; apply bool_eq_iff; cbn [direction Num.mul ofZ];
    rewrite ?gt0_Fin, ?lt0_Fin; change (inject_Z 1) with 1%Q; lra.
Qed.

Lemma sign_desc (x : num) :
  Num.gt0 (Num.mul (direction desc) x) = Num.lt0 x
  ∧ Num.lt0 (Num.mul (direction desc) x) = Num.gt0 x.
Proof.
  destruct x as [q| | |]; try done.
  split; apply bool_eq_iff; cbn [direction Num.mul ofZ];
    rewrite ?gt0_Fin, ?lt0_Fin; change (inject_Z (-1)) with (-1)%Q; lra.
Qed.

Lemma sub_antisym (x y : num) : Num.gt0 (Num.sub x y) = Num.lt0 (Num.sub y x).
Proof.
  destruct x as [a| | |], y as [b| | |]; try done.
  apply bool_eq_iff. cbn [Num.sub Num.add Num.neg].
  rewrite gt0_Fin, lt0_Fin. lra.
Qed.

Lemma sub_trans (x y z : num) :
  Num.lt0 (Num.sub x y) = true → Num.lt0 (Num.sub y z) = true →
  Num.lt0 (Num.sub x z) = true.
Proof.
  destruct x as [a| | |], y as [b| | |], z as [c| | |]; try done.
  cbn [Num.sub Num.add Num.neg]. rewrite !lt0_Fin. lra.
Qed.

Lemma gt0_ofZ (z : Z) : Num.gt0 (ofZ z) = bool_decide (0 < z).
Proof.
  apply bool_eq_iff. unfold ofZ. rewrite gt0_Fin, bool_decide_eq_true.
  unfold Qlt. simpl. lia.
Qed.

Lemma lt0_ofZ (z : Z) : Num.lt0 (ofZ z) = bool_decide (z < 0).
Proof.
  apply bool_eq_iff. unfold ofZ. rewrite lt0_Fin, bool_decide_eq_true.
  unfold Qlt. simpl. lia.
Qed.

Lemma StronglySorted_rev {A : Type} (R : A -> A -> Prop) (l : list A) :
  StronglySorted R l → StronglySorted (flip R) (rev l).
Proof.
  induction 1 as [|x l Hl IH Hx]; simpl; [constructor|].
  apply StronglySorted_app. split_and!.
  - intros y x' Hy ->%list_elem_of_singleton.
    rewrite Forall_forall in Hx. apply Hx.
    by apply list_elem_of_In, in_rev, list_elem_of_In.
  - done.
  - repeat constructor.
Qed.

Section DirectionInversion.
Context {A : Type} `{EqDecision A} (up down : A -> A -> num).
Hypothesis up_orders : orders up.
Hypothesis down_up : ∀ x y, Num.gt0 (down x y) = Num.lt0 (up x y).

Lemma keeps_down (x y : A) : keeps down x y ↔ keeps up y x.
Proof. unfold keeps. rewrite down_up. by rewrite (proj1 up_orders y x). Qed.

Lemma keeps_up_total (x y : A) : keeps up x y ∨ keeps up y x.
Proof.
  unfold keeps. destruct (Num.gt0 (up x y)) eqn:Hxy; [right|by left].
  destruct (Num.gt0 (up y x)) eqn:Hyx; [|done].
  rewrite (proj1 up_orders y x) in Hyx. by destruct (sign_exclusive _ Hxy Hyx).
Qed.

Lemma keeps_up_trans (l : list A) (x y z : A) :
  tieFree up l → x ∈ l → y ∈ l → z ∈ l →
  keeps up x y → keeps up y z → keeps up x z.
Proof.
  intros Hfree Hx Hy Hz Hxy Hyz.
  assert (Hstrict : ∀ u v, u ∈ l → v ∈ l → u ≠ v → keeps up u v → Num.lt0 (up u v) = true).
  { intros u v Hu Hv Hne Huv. destruct (Hfree u v Hu Hv Hne); [done|].
    unfold keeps in Huv. congruence. }
  destruct (decide (x = y)) as [->|Hne1]; [done|].
  destruct (decide (y = z)) as [->|Hne2]; [done|].
  destruct (decide (x = z)) as [->|Hne3].
  - destruct (keeps_up_total z z); done.
  - unfold keeps. destruct (Num.gt0 (up x z)) eqn:Hgt; [exfalso|done].
    apply (sign_exclusive _ Hgt).
    apply (proj2 up_orders x y z); by apply Hstrict.
Qed.

(** Sorting downwards is sorting upwards and reversing, on a list without
    ties. *)
Lemma sort_down_rev (l : list A) :
  tieFree up l → sort down l = rev (sort up l).
Proof.
  intros Hfree.
  apply (StronglySorted_unique_strong (keeps down)).
  - intros x y Hx Hy Hxy Hyx.
    rewrite elem_of_sort in Hx.
    rewrite list_elem_of_In, <- in_rev, <- list_elem_of_In, elem_of_sort in Hy.
    destruct (decide (x = y)) as [|Hne]; [done|exfalso].
    apply keeps_down in Hxy. unfold keeps in Hxy, Hyx.
    rewrite down_up in Hyx.
    destruct (Hfree y x Hy Hx) as [H|H]; [congruence|congruence|congruence].
  - apply sort_StronglySorted.
    + intros x y z Hx Hy Hz. rewrite !keeps_down. intros Hyx Hzy.
      by apply (keeps_up_trans l z y x).
    + intros x y _ _. rewrite !keeps_down. apply keeps_up_total.
  - assert (Hup : StronglySorted (keeps up) (sort up l)).
    { apply sort_StronglySorted.
      - intros x y z. by apply keeps_up_trans.
      - intros x y _ _. apply keeps_up_total. }
    apply StronglySorted_rev in Hup.
    revert Hup. generalize (rev (sort up l)). intros l'.
    induction 1 as [|x l'' Hl IH Hx]; constructor; [done|].
    rewrite Forall_forall in Hx |- *. intros y Hy.
    apply keeps_down. by apply Hx.
  - rewrite sort_Permutation. rewrite <- (Permutation_rev (sort up l)).
    by rewrite sort_Permutation.
Qed.
End DirectionInversion.

Lemma orders_sub {A : Type} (f : A -> num) : orders (fun x y => Num.sub (f x) (f y)).
Proof.
  split.
  - intros x y. apply sub_antisym.
  - intros x y z. apply sub_trans.
Qed.

Lemma orders_zero {A : Type} : orders (fun _ _ : A => ofZ 0).
Proof. split; [done|]. intros _ _ _ H. by rewrite lt0_ofZ in H. Qed.

Lemma orders_asc {A : Type} (c : A -> A -> num) :
  orders c → orders (fun x y => Num.mul (direction asc) (c x y)).
Proof.
  intros [Hanti Htrans]. split.
  - intros x y. rewrite (proj1 (sign_asc _)), (proj2 (sign_asc _)). apply Hanti.
  - intros x y z. rewrite !(proj2 (sign_asc _)). apply Htrans.
Qed.

Lemma desc_negates_asc (x : num) :
  Num.gt0 (Num.mul (direction desc) x) = Num.lt0 (Num.mul (direction asc) x)
  ∧ Num.lt0 (Num.mul (direction desc) x) = Num.gt0 (Num.mul (direction asc) x).
Proof.
  destruct (sign_asc x) as [-> ->], (sign_desc x) as [-> ->]. done.
Qed.

Section Collation.
Variable localeCompare : string -> string -> Z.

(** What is assumed of the collation: it is antisymmetric and its strict
    part is transitive. *)
Hypothesis localeCompare_antisym : ∀ a b, 0 < localeCompare a b ↔ localeCompare b a < 0.
Hypothesis localeCompare_trans :
  ∀ a b c, localeCompare a b < 0 → localeCompare b c < 0 → localeCompare a c < 0.

Lemma orders_locale {A : Type} (g : A -> string) :
  orders (fun x y => ofZ (localeCompare (g x) (g y))).
Proof.
  split.
  - intros x y. rewrite gt0_ofZ, lt0_ofZ. apply bool_decide_ext, localeCompare_antisym.
  - intros x y z. rewrite !lt0_ofZ, !bool_decide_eq_true. apply localeCompare_trans.
Qed.

Lemma compareDocRows_orders (byId byUrn : gmap string CorpusMeta.t)
    (names : list string) (key : string) :
  orders (compareDocRows localeCompare byId byUrn names key asc).
Proof.
  unfold compareDocRows. repeat case_decide.
  - apply orders_asc, (orders_locale TableRow.id).
  - apply orders_asc, (orders_sub (fun r => ofZ (TableRow.total r))).
  - apply orders_asc, (orders_locale (fun r => displayValue byId byUrn key (TableRow.id r))).
  - apply orders_asc, (orders_sub (fun r => yearValue byId byUrn (TableRow.id r))).
  - apply orders_asc, (orders_sub (fun r => toNumber (readValue (TableRow.values r) key))).
  - apply orders_zero.
Qed.

Lemma compareDocRows_desc (byId byUrn : gmap string CorpusMeta.t)
    (names : list string) (key : string) (a b : TableRow.t) :
  Num.gt0 (compareDocRows localeCompare byId byUrn names key desc a b)
  = Num.lt0 (compareDocRows localeCompare byId byUrn names key asc a b)
  ∧ Num.lt0 (compareDocRows localeCompare byId byUrn names key desc a b)
    = Num.gt0 (compareDocRows localeCompare byId byUrn names key asc a b).
Proof.
  unfold compareDocRows. repeat case_decide; try apply desc_negates_asc. done.
Qed.

Lemma compareTopicRows_orders (defs : list ColumnDef.t) (yearTotals : gmap string Z)
    (key : string) :
  orders (compareTopicRows localeCompare defs yearTotals key asc).
Proof.
  unfold compareTopicRows. repeat case_decide.
  - apply orders_asc, (orders_locale TableRow.id).
  - apply orders_asc, (orders_sub (fun r => ofZ (TableRow.total r))).
  - destruct (List.find _ defs) as [column|]; [|apply orders_zero].
    destruct (ColumnDef.kind column).
    + apply orders_asc,
        (orders_sub (fun r => ofZ (default 0 (TableRow.values r
                                                !! default ""%string (ColumnDef.year column))))).
    + apply orders_asc,
        (orders_sub (fun r => percentKey
                                (default 0 (TableRow.values r
                                              !! default ""%string (ColumnDef.year column)))
                                (default 0 (yearTotals
                                              !! default ""%string (ColumnDef.year column))))).
Qed.

Lemma compareTopicRows_desc (defs : list ColumnDef.t) (yearTotals : gmap string Z)
    (key : string) (a b : TableRow.t) :
  Num.gt0 (compareTopicRows localeCompare defs yearTotals key desc a b)
  = Num.lt0 (compareTopicRows localeCompare defs yearTotals key asc a b)
  ∧ Num.lt0 (compareTopicRows localeCompare defs yearTotals key desc a b)
    = Num.gt0 (compareTopicRows localeCompare defs yearTotals key asc a b).
Proof.
  unfold compareTopicRows. repeat case_decide; try apply desc_negates_asc.
  destruct (List.find _ defs) as [column|]; [|done].
  destruct (ColumnDef.kind column); apply desc_negates_asc.
Qed.
End Collation.

(** ** Sorting by year *)

(** The specification's wording fails: a year that is not
    numeric is not ordered as 0; it compares as [NaN], a tie, so the row stays
    behind a row of 1990 where the value 0 would put it in front. *)
Lemma nonnumeric_year_is_not_zero :
  let byId : gmap string CorpusMeta.t :=
    {[ "doc1"%string := CorpusMeta.mk None None None None (Some "ukjent"%string);
       "doc2"%string := CorpusMeta.mk None None None None (Some "1990"%string) ]} in
  let a := TableRow.mk "doc1" ∅ 0 in
  let b := TableRow.mk "doc2" ∅ 0 in
  compareDocRows byCodeUnits byId ∅ [] "year" asc a b = NaN
  ∧ Num.lt0 (compareByYearOrZero byId ∅ asc a b) = true
  ∧ sort (compareDocRows byCodeUnits byId ∅ [] "year" asc) [b; a] = [b; a]
  ∧ sort (compareByYearOrZero byId ∅ asc) [b; a] = [a; b].
Proof. by vm_compute. Qed.

(** C8 (amended). With the sort key [year] the rows of the by-document table
    are compared on [Number(year)], the year being looked up by id in
    [corpusMetaById] and then in [corpusMetaByUrn]: the comparator is the
    direction times the difference of the two numbers.  A document with no
    year in either lookup counts as 0.  A year string is converted as it
    is, so one that is not numeric gives [NaN], and the comparator is then
    [NaN] whatever the other row is. *)
Theorem year_sort_fallback (localeCompare : string -> string -> Z)
    (metaLookup corpusMetaByUrn : gmap string CorpusMeta.t) (names : list string)
    (sortDir : SortDir) (a b : TableRow.t) :
  compareDocRows localeCompare metaLookup corpusMetaByUrn names "year" sortDir a b
  = Num.mul (direction sortDir)
      (Num.sub (yearValue metaLookup corpusMetaByUrn (TableRow.id a))
               (yearValue metaLookup corpusMetaByUrn (TableRow.id b)))
  ∧ (∀ id,
       nullish (metaLookup !! id ≫= CorpusMeta.year)
               (corpusMetaByUrn !! id ≫= CorpusMeta.year) = None →
       yearValue metaLookup corpusMetaByUrn id = ofZ 0)
  ∧ (∀ id year,
       nullish (metaLookup !! id ≫= CorpusMeta.year)
               (corpusMetaByUrn !! id ≫= CorpusMeta.year) = Some year →
       yearValue metaLookup corpusMetaByUrn id = Number (Some year))
  ∧ (yearValue metaLookup corpusMetaByUrn (TableRow.id a) = NaN
     ∨ yearValue metaLookup corpusMetaByUrn (TableRow.id b) = NaN →
     compareDocRows localeCompare metaLookup corpusMetaByUrn names "year" sortDir a b = NaN).
Proof.
  assert (Hcmp :
    compareDocRows localeCompare metaLookup corpusMetaByUrn names "year" sortDir a b
    = Num.mul (direction sortDir)
        (Num.sub (yearValue metaLookup corpusMetaByUrn (TableRow.id a))
                 (yearValue metaLookup corpusMetaByUrn (TableRow.id b)))) by done.
  split_and!.
  - done.
  - intros id H. unfold yearValue. by rewrite H.
  - intros id year H. unfold yearValue. by rewrite H.
  - rewrite Hcmp. intros [-> | ->].
    + by destruct sortDir.
    + destruct (yearValue _ _ (TableRow.id a)), sortDir; done.
Qed.

(** ** Ascending and descending *)

Lemma byCodeUnits_antisym (a b : string) : 0 < byCodeUnits a b ↔ byCodeUnits b a < 0.
Proof.
  unfold byCodeUnits. rewrite (String.compare_antisym a b).
  destruct (String.compare b a); simpl; lia.
Qed.

Lemma byCodeUnits_trans (a b c : string) :
  byCodeUnits a b < 0 → byCodeUnits b c < 0 → byCodeUnits a c < 0.
Proof.
  unfold byCodeUnits. intros Hab Hbc.
  assert (H : lexLt a c).
  { apply (lexLt_trans a b c); unfold lexLt.
    - destruct (String.compare a b); [lia|done|lia].
    - destruct (String.compare b c); [lia|done|lia]. }
  unfold lexLt in H. by rewrite H.
Qed.

(** The specification's wording fails: two rows with the same
    total keep their order in both directions, so the reversed ascending
    order is not the descending order. *)
Lemma ties_break_direction_inversion :
  let data : list (string * gmap string Z) :=
    [("doc1"%string, {[ "nature"%string := 1 ]});
     ("doc2"%string, {[ "nature"%string := 1 ]})] in
  let s dir := State.mk (Some data) ∅ ∅ "total" dir 0 false (ofZ 1) false ∅ in
  TableRow.id <$> rev (sortedDocRows byCodeUnits (s asc) data) = ["doc2"; "doc1"]%string
  ∧ TableRow.id <$> sortedDocRows byCodeUnits (s desc) data = ["doc1"; "doc2"]%string.
Proof. by vm_compute. Qed.

(** C9 (amended). For every sort key and both tables, the descending
    comparator has the sign of the ascending one negated, and on every row
    list in which no two different rows tie under the key, sorting ascending
    and reversing gives the list sorted descending.  The collation is
    assumed antisymmetric and transitive. *)
Theorem descending_is_reversed_ascending (localeCompare : string -> string -> Z)
    (metaLookup corpusMetaByUrn : gmap string CorpusMeta.t) (names : list string)
    (defs : list ColumnDef.t) (yearTotals : gmap string Z) (sortKey : string)
    (documents groups : list TableRow.t) :
  (∀ a b, 0 < localeCompare a b ↔ localeCompare b a < 0) →
  (∀ a b c, localeCompare a b < 0 → localeCompare b c < 0 → localeCompare a c < 0) →
  tieFree (compareDocRows localeCompare metaLookup corpusMetaByUrn names sortKey asc)
    documents →
  tieFree (compareTopicRows localeCompare defs yearTotals sortKey asc) groups →
  rev (sort (compareDocRows localeCompare metaLookup corpusMetaByUrn names sortKey asc)
         documents)
  = sort (compareDocRows localeCompare metaLookup corpusMetaByUrn names sortKey desc)
      documents
  ∧ rev (sort (compareTopicRows localeCompare defs yearTotals sortKey asc) groups)
    = sort (compareTopicRows localeCompare defs yearTotals sortKey desc) groups
  ∧ (∀ a b,
       Num.gt0 (compareDocRows localeCompare metaLookup corpusMetaByUrn names sortKey desc a b)
       = Num.lt0 (compareDocRows localeCompare metaLookup corpusMetaByUrn names sortKey asc a b)
       ∧ Num.lt0 (compareDocRows localeCompare metaLookup corpusMetaByUrn names sortKey desc a b)
         = Num.gt0 (compareDocRows localeCompare metaLookup corpusMetaByUrn names sortKey asc a b))
  ∧ (∀ a b,
       Num.gt0 (compareTopicRows localeCompare defs yearTotals sortKey desc a b)
       = Num.lt0 (compareTopicRows localeCompare defs yearTotals sortKey asc a b)
       ∧ Num.lt0 (compareTopicRows localeCompare defs yearTotals sortKey desc a b)
         = Num.gt0 (compareTopicRows localeCompare defs yearTotals sortKey asc a b)).
Proof.
  intros Hanti Htrans Hdocs Hgroups. split_and!.
  - symmetry. apply sort_down_rev; [|intros x y|done].
    + by apply compareDocRows_orders.
    + apply compareDocRows_desc.
  - symmetry. apply sort_down_rev; [|intros x y|done].
    + by apply compareTopicRows_orders.
    + apply compareTopicRows_desc.
  - intros a b. apply compareDocRows_desc.
  - intros a b. apply compareTopicRows_desc.
Qed.

Lemma tieFree_pair {A : Type} (c : A -> A -> num) (x y : A) :
  Num.lt0 (c x y) = true ∨ Num.gt0 (c x y) = true →
  Num.lt0 (c y x) = true ∨ Num.gt0 (c y x) = true →
  tieFree c [x; y].
Proof.
  intros Hxy Hyx u v Hu Hv Hne.
  apply elem_of_cons in Hu as [->|Hu%list_elem_of_singleton];
    apply elem_of_cons in Hv as [->|Hv%list_elem_of_singleton]; subst; done.
Qed.

Lemma descending_is_reversed_ascending_witness :
  let documents := docRows (rowsWithTotals exampleData) in
  let groups :=
    Pivot.topicRows
      (pivot exampleMeta (Width 10) (topics exampleData) (rowsWithTotals exampleData)) in
  rev (sort (compareDocRows byCodeUnits exampleMeta ∅ (topics exampleData) "total" asc)
         documents)
  = sort (compareDocRows byCodeUnits exampleMeta ∅ (topics exampleData) "total" desc)
      documents
  ∧ rev (sort (compareTopicRows byCodeUnits [] ∅ "total" asc) groups)
    = sort (compareTopicRows byCodeUnits [] ∅ "total" desc) groups.
Proof.
  intros documents groups.
  assert (Hdocs : tieFree
            (compareDocRows byCodeUnits exampleMeta ∅ (topics exampleData) "total" asc)
            documents).
  { apply tieFree_pair; [left|right]; reflexivity. }
  assert (Hgroups : tieFree (compareTopicRows byCodeUnits [] ∅ "total" asc) groups).
  { apply tieFree_pair; [right|left]; reflexivity. }
  pose proof (descending_is_reversed_ascending byCodeUnits exampleMeta ∅
                (topics exampleData) [] ∅ "total" documents groups
                byCodeUnits_antisym byCodeUnits_trans Hdocs Hgroups) as H.
  split; [exact (proj1 H)|exact (proj1 (proj2 H))].
Defined.

(** * Further properties of the engine *)

(** ** The threshold filter *)

Lemma filter_sublist {A : Type} (f : A -> bool) (l : list A) :
  List.filter f l `sublist_of` l.
Proof.
  induction l as [|x l IH]; simpl; [constructor|].
  destruct (f x); by constructor.
Qed.

Lemma filter_sublist_mono {A : Type} (f g : A -> bool) (l : list A) :
  (∀ x, g x = true → f x = true) →
  List.filter g l `sublist_of` List.filter f l.
Proof.
  intros Hfg. induction l as [|x l IH]; simpl; [constructor|].
  destruct (g x) eqn:Hg.
  - rewrite (Hfg x Hg). by constructor.
  - destruct (f x); [by constructor|done].
Qed.

Lemma filtered_sublist (t : Q) (l : list TableRow.t) : filtered t l `sublist_of` l.
Proof.
  unfold filtered. destruct (Qle_bool t 0); [done|apply filter_sublist].
Qed.

(** X1. The threshold keeps the rows in their order; a row is kept exactly
    when the threshold is not positive or the row's total reaches it; a
    higher threshold keeps a sublist of what a lower one keeps, so never
    more rows. *)
Theorem threshold_filter (t : Q) (l : list TableRow.t) :
  filtered t l `sublist_of` l
  ∧ (∀ row, row ∈ filtered t l
            ↔ row ∈ l ∧ ((t <= 0)%Q ∨ (t <= inject_Z (TableRow.total row))%Q))
  ∧ (∀ t', (t <= t')%Q →
           filtered t' l `sublist_of` filtered t l
           ∧ (length (filtered t' l) ≤ length (filtered t l))%nat).
Proof.
  split_and!.
  - apply filtered_sublist.
  - intros row. unfold filtered. destruct (Qle_bool t 0) eqn:Ht.
    + apply Qle_bool_iff in Ht. tauto.
    + rewrite list_elem_of_In, filter_In, <- list_elem_of_In, Qle_bool_iff.
      assert (¬ (t <= 0)%Q) by (rewrite <- Qle_bool_iff; congruence). tauto.
  - intros t' Htt'.
    assert (Hsub : filtered t' l `sublist_of` filtered t l).
    { unfold filtered. destruct (Qle_bool t' 0) eqn:Ht'.
      - apply Qle_bool_iff in Ht'.
        rewrite (proj2 (Qle_bool_iff t 0)) by lra. done.
      - destruct (Qle_bool t 0); [apply filter_sublist|].
        apply filter_sublist_mono. intros row. rewrite !Qle_bool_iff. lra. }
    split; [done|]. by apply sublist_length.
Qed.

(** X2. A table never shows more rows than it reports as its total; with no
    evaluation data there is no table. *)
Theorem shown_rows_within_totalRows (localeCompare : string -> string -> Z) (s : State.t) :
  match evaluationTable localeCompare s with
  | Some table => (length (Table.rows table) ≤ Table.totalRows table)%nat
  | None => State.evaluateData s = None
  end.
Proof.
  unfold evaluationTable. destruct (State.evaluateData s) as [rows|]; [|done].
  destruct (State.aggregateByYear s); cbn [Table.rows Table.totalRows].
  - etrans; [apply sublist_length, filtered_sublist|].
    unfold sortedTopicRows. by rewrite sort_length.
  - etrans; [apply sublist_length, filtered_sublist|].
    unfold sortedDocRows. by rewrite sort_length.
Qed.

(** ** Sort keys *)

Lemma sort_without_swaps {A : Type} (c : A -> A -> num) (l : list A) :
  (∀ x y, Num.gt0 (c x y) = false) → sort c l = l.
Proof.
  intros Hc. induction l as [|x l IH]; simpl; [done|].
  rewrite IH. destruct l as [|y l]; simpl; [done|]. by rewrite Hc.
Qed.

(** X3. A sort key the by-document table does not know (none of dhlabid,
    row, total, title, authors, year, and no topic) leaves the rows in the
    order of the evaluation result. *)
Theorem unknown_sort_key_keeps_documents (localeCompare : string -> string -> Z)
    (s : State.t) (rows : list (string * gmap string Z)) :
  State.sortKey s ∉ ["dhlabid"; "row"; "total"; "title"; "authors"; "year"]%string →
  State.sortKey s ∉ topics rows →
  sortedDocRows localeCompare s rows = docRows (rowsWithTotals rows)
  ∧ TableRow.id <$> sortedDocRows localeCompare s rows = rows.*1.
Proof.
  intros Hkey Htopic.
  assert (H : sortedDocRows localeCompare s rows = docRows (rowsWithTotals rows)).
  { unfold sortedDocRows. apply sort_without_swaps.
    intros x y. unfold compareDocRows.
    rewrite !not_elem_of_cons in Hkey. destruct Hkey as (? & ? & ? & ? & ? & ? & _).
    rewrite (decide_False (P := _ ∨ _)) by tauto.
    rewrite (decide_False (P := _ = "total"%string)) by done.
    rewrite (decide_False (P := _ ∨ _)) by tauto.
    rewrite (decide_False (P := _ = "year"%string)) by done.
    by rewrite decide_False. }
  split; [done|]. rewrite H. unfold docRows, rowsWithTotals.
  rewrite <- !list_fmap_compose. by apply list_fmap_ext.
Qed.

Lemma unknown_sort_key_keeps_documents_witness :
  let s := State.mk (Some exampleData) exampleMeta ∅ "1994__count" desc 0 false (ofZ 1)
             false ∅ in
  TableRow.id <$> sortedDocRows byCodeUnits s exampleData = exampleData.*1.
Proof.
  intros s.
  assert (H1 : State.sortKey s
               ∉ ["dhlabid"; "row"; "total"; "title"; "authors"; "year"]%string).
  { apply (bool_decide_unpack _). vm_compute. exact I. }
  assert (H2 : State.sortKey s ∉ topics exampleData).
  { apply (bool_decide_unpack _). vm_compute. exact I. }
  exact (proj2 (unknown_sort_key_keeps_documents byCodeUnits s exampleData H1 H2)).
Defined.

(** X4. A sort key the pivoted table does not know (neither row nor total
    nor the key of one of its columns; so also title, authors and year)
    leaves the topic rows in the order of the topics. *)
Theorem unknown_sort_key_keeps_topics (localeCompare : string -> string -> Z)
    (s : State.t) (rows : list (string * gmap string Z)) :
  State.sortKey s ∉ ["row"; "total"]%string →
  State.sortKey s
    ∉ ColumnDef.key
        <$> columnDefs (State.aggregatePercent s)
              (yearLabels
                 (Pivot.yearBins
                    (pivot (State.corpusMetaById s) (binSize (State.yearBinSize s))
                       (topics rows) (rowsWithTotals rows)))) →
  TableRow.id <$> sortedTopicRows localeCompare s rows = topics rows.
Proof.
  intros Hkey Hcol. unfold sortedTopicRows.
  rewrite sort_without_swaps; [apply pivot_ids|].
  intros x y. unfold compareTopicRows.
  rewrite !not_elem_of_cons in Hkey. destruct Hkey as (? & ? & _).
  rewrite !decide_False by done.
  destruct (List.find _ _) as [column|] eqn:Hfind; [exfalso|done].
  apply find_some in Hfind as [Hin Hk]. apply bool_decide_eq_true in Hk.
  apply Hcol. apply list_elem_of_fmap. exists column.
  by rewrite list_elem_of_In.
Qed.

Lemma unknown_sort_key_keeps_topics_witness :
  let s := State.mk (Some exampleData) exampleMeta ∅ "year" asc 0 true (ofZ 10) true ∅ in
  TableRow.id <$> sortedTopicRows byCodeUnits s exampleData = topics exampleData.
Proof.
  intros s.
  assert (H1 : State.sortKey s ∉ ["row"; "total"]%string).
  { apply (bool_decide_unpack _). vm_compute. exact I. }
  assert (H2 : State.sortKey s
                 ∉ ColumnDef.key
                     <$> columnDefs (State.aggregatePercent s)
                           (yearLabels
                              (Pivot.yearBins
                                 (pivot (State.corpusMetaById s)
                                    (binSize (State.yearBinSize s))
                                    (topics exampleData) (rowsWithTotals exampleData))))).
  { apply (bool_decide_unpack _). vm_compute. exact I. }
  exact (unknown_sort_key_keeps_topics byCodeUnits s exampleData H1 H2).
Defined.

Lemma StronglySorted_sublist {A : Type} (R : A -> A -> Prop) (l k : list A) :
  l `sublist_of` k → StronglySorted R k → StronglySorted R l.
Proof.
  intros Hsub Hk. revert l Hsub.
  induction Hk as [|x k Hk IH Hx]; intros l Hsub.
  - apply sublist_nil_r in Hsub. subst l. constructor.
  - apply sublist_cons_r in Hsub as [Hsub|(l' & -> & Hsub)]; [by apply IH|].
    constructor; [by apply IH|].
    rewrite Forall_forall in Hx |- *. intros y Hy. apply Hx.
    by eapply elem_of_sublist.
Qed.

Lemma StronglySorted_impl {A : Type} (R R' : A -> A -> Prop) (l : list A) :
  (∀ x y, R x y → R' x y) → StronglySorted R l → StronglySorted R' l.
Proof.
  intros HR. induction 1 as [|x l Hl IH Hx]; constructor; [done|].
  eapply Forall_impl; [exact Hx|]. intros y. apply HR.
Qed.

Lemma sort_by_total (c : TableRow.t -> TableRow.t -> num) (sortDir : SortDir)
    (l : list TableRow.t) :
  (∀ a b, c a b
          = Num.mul (direction sortDir)
              (Num.sub (ofZ (TableRow.total a)) (ofZ (TableRow.total b)))) →
  StronglySorted (totalOrder sortDir) (sort c l).
Proof.
  intros Hc.
  assert (Hkeeps : ∀ a b, keeps c a b ↔ totalOrder sortDir a b).
  { intros a b. unfold keeps. rewrite Hc. destruct sortDir; cbn [totalOrder].
    - rewrite (proj1 (sign_asc _)), gt0_sub_ofZ, bool_decide_eq_false. lia.
    - rewrite (proj1 (sign_desc _)), <- sub_antisym, gt0_sub_ofZ, bool_decide_eq_false.
      lia. }
  apply (StronglySorted_impl (keeps c)); [intros x y; apply Hkeeps|].
  apply sort_StronglySorted.
  - intros x y z _ _ _. rewrite !Hkeeps. destruct sortDir; simpl; lia.
  - intros x y _ _. rewrite !Hkeeps. destruct sortDir; simpl; lia.
Qed.

(** X5. With the sort key total, the rows of either table come in the order
    of their totals: never decreasing when ascending, never increasing when
    descending, also after the threshold. *)
Theorem rows_sorted_by_total (localeCompare : string -> string -> Z)
    (data : list (string * gmap string Z)) (byId byUrn : gmap string CorpusMeta.t)
    (sortDir : SortDir) (threshold : Q) (byYear : bool) (binning : num)
    (percent : bool) (hidden : gset string) :
  match evaluationTable localeCompare
          (State.mk (Some data) byId byUrn "total" sortDir threshold byYear binning
             percent hidden) with
  | Some table => StronglySorted (totalOrder sortDir) (Table.rows table)
  | None => False
  end.
Proof.
  unfold evaluationTable. cbn [State.evaluateData State.aggregateByYear].
  destruct byYear; cbn [Table.rows State.totalThreshold].
  - apply (StronglySorted_sublist _ _ _ (filtered_sublist _ _)).
    unfold sortedTopicRows. by apply sort_by_total.
  - apply (StronglySorted_sublist _ _ _ (filtered_sublist _ _)).
    unfold sortedDocRows. by apply sort_by_total.
Qed.

(** ** Invariants of the pivot loop *)

Lemma columnSum_cons (label : string) (row : TableRow.t) (rows : list TableRow.t) :
  columnSum label (row :: rows)
  = default 0 (TableRow.values row !! label) + columnSum label rows.
Proof. reflexivity. Qed.

Lemma updateRow_columnSum (topic label label' : string) (increment : Z)
    (rows : list TableRow.t) :
  NoDup (TableRow.id <$> rows) →
  topic ∈ TableRow.id <$> rows →
  columnSum label' (updateRow topic (addToRow label increment) rows)
  = columnSum label' rows + (if decide (label = label') then increment else 0).
Proof.
  induction rows as [|row rows IH]; intros Hnd Hin.
  - by apply elem_of_nil in Hin.
  - rewrite fmap_cons in Hnd, Hin. apply NoDup_cons in Hnd as [Hrow Hnd].
    rewrite updateRow_cons, !columnSum_cons.
    destruct (decide (TableRow.id row = topic)) as [Hid|Hid].
    + subst topic. rewrite (updateRow_other _ _ rows Hrow).
      unfold addToRow; cbn [TableRow.values]. case_decide as Hl.
      * subst label'. rewrite lookup_insert_eq. simpl. lia.
      * rewrite lookup_insert_ne by done. lia.
    + apply elem_of_cons in Hin as [->|Hin]; [done|].
      rewrite IH by done. lia.
Qed.

Lemma foldl_addCount_denominators (label : string) (entries : list (string * Z))
    (st : Pivot.t) :
  NoDup (TableRow.id <$> Pivot.topicRows st) →
  denominatorsMatch st →
  denominatorsMatch (foldl (addCount label) st entries).
Proof.
  revert st. induction entries as [|entry entries IH]; intros st Hnd Hst; [done|].
  cbn [foldl]. apply IH; [by rewrite addCount_ids|].
  intros l. unfold addCount. case_decide as Hin; [|apply Hst].
  cbn [Pivot.yearTotals Pivot.topicRows].
  rewrite updateRow_columnSum by done. rewrite <- (Hst l).
  case_decide as Hl.
  - subst l. by rewrite lookup_insert_eq.
  - rewrite lookup_insert_ne by done. lia.
Qed.

Lemma emptyPivot_columnSum (names : list string) (label : string) :
  columnSum label (Pivot.topicRows (emptyPivot names)) = 0.
Proof.
  unfold emptyPivot; cbn [Pivot.topicRows].
  induction names as [|n names IH]; [done|].
  rewrite fmap_cons, columnSum_cons, IH. done.
Qed.

Lemma pivot_denominators (metaLookup : gmap string CorpusMeta.t) (b : BinSize)
    (names : list string) (docs : list DocRow.t) :
  NoDup names → denominatorsMatch (pivot metaLookup b names docs).
Proof.
  intros Hnd. unfold pivot.
  assert (H0 : denominatorsMatch (emptyPivot names)).
  { intros l. by rewrite emptyPivot_columnSum. }
  assert (Hids : NoDup (TableRow.id <$> Pivot.topicRows (emptyPivot names))).
  { by rewrite emptyPivot_ids. }
  revert H0 Hids. generalize (emptyPivot names).
  induction docs as [|doc docs IH]; intros st Hst Hids; [done|].
  cbn [foldl]. apply IH.
  - unfold addDocument. destruct (getYearLabel _ _ _ _) as [[label|] bins]; [|done].
    by apply foldl_addCount_denominators.
  - by rewrite addDocument_ids.
Qed.

(** X6. In the pivoted table every denominator is the sum of its year
    column: [yearTotals[label]] is the sum, over all topic rows, of the
    rows' counts under [label]; with the threshold off that is the sum over
    the rows of the table.  (These are sums of integers.  The percent cells
    of a column are quotients rounded to binary64, so their own sum is 100
    only up to rounding.) *)
Theorem denominator_is_column_sum (localeCompare : string -> string -> Z) (s : State.t)
    (rows : list (string * gmap string Z)) (table : Table.t) :
  State.evaluateData s = Some rows →
  State.aggregateByYear s = true →
  evaluationTable localeCompare s = Some table →
  ∃ yearTotals,
    Table.yearTotals table = Some yearTotals
    ∧ ∀ label,
        default 0 (yearTotals !! label)
        = columnSum label
            (Pivot.topicRows
               (pivot (State.corpusMetaById s) (binSize (State.yearBinSize s))
                  (topics rows) (rowsWithTotals rows)))
        ∧ ((State.totalThreshold s <= 0)%Q →
           default 0 (yearTotals !! label) = columnSum label (Table.rows table)).
Proof.
  intros Hdata Hagg. unfold evaluationTable. rewrite Hdata, Hagg.
  intros [= <-]. eexists; split; [reflexivity|].
  cbn [Table.rows Table.yearTotals].
  set (p := pivot (State.corpusMetaById s) (binSize (State.yearBinSize s))
              (topics rows) (rowsWithTotals rows)).
  pose proof (pivot_denominators (State.corpusMetaById s) (binSize (State.yearBinSize s))
                (topics rows) (rowsWithTotals rows) (NoDup_topics rows)) as Hden.
  fold p in Hden.
  intros label. split; [apply Hden|]. intros Hthr.
  rewrite filtered_disabled by done. rewrite (Hden label). unfold columnSum.
  apply sumZ_Permutation, fmap_Permutation. symmetry. apply sort_Permutation.
Qed.

Lemma denominator_is_column_sum_witness :
  let s := State.mk (Some exampleData) exampleMeta ∅ "total" desc 0 true (ofZ 10) true ∅ in
  ∃ table yearTotals,
    evaluationTable byCodeUnits s = Some table
    ∧ Table.yearTotals table = Some yearTotals
    ∧ default 0 (yearTotals !! "1980-1989"%string) = 5
    ∧ default 0 (yearTotals !! "1980-1989"%string)
      = columnSum "1980-1989" (Table.rows table).
Proof.
  intros s.
  destruct (evaluationTable byCodeUnits s) as [table|] eqn:Htable; [|discriminate Htable].
  assert (Hthr : (State.totalThreshold s <= 0)%Q) by (unfold Qle; simpl; lia).
  destruct (denominator_is_column_sum byCodeUnits s exampleData table
              eq_refl eq_refl Htable) as (yearTotals & Hyt & H).
  exists table, yearTotals. split; [reflexivity|]. split; [exact Hyt|].
  split; [|exact (proj2 (H "1980-1989"%string) Hthr)].
  revert Hyt. revert Htable. vm_compute. intros [= <-]. by intros [= <-].
Defined.

Lemma sumZ_objectValues_insert (m : gmap string Z) (k : string) (increment : Z) :
  sumZ (objectValues (<[k := default 0 (m !! k) + increment]> m))
  = sumZ (objectValues m) + increment.
Proof.
  unfold objectValues, objectEntries.
  destruct (m !! k) as [v|] eqn:Hk; cbn [default from_option id].
  - rewrite <- (insert_delete_eq m).
    rewrite (sumZ_Permutation _ _
               (fmap_Permutation snd _ _
                  (map_to_list_insert (delete k m) k (v + increment)
                     (lookup_delete_eq m k)))).
    rewrite <- (sumZ_Permutation _ _
                  (fmap_Permutation snd _ _ (map_to_list_delete m k v Hk))).
    rewrite !fmap_cons. unfold sumZ. cbn [foldr snd]. ring.
  - rewrite (sumZ_Permutation _ _
               (fmap_Permutation snd _ _ (map_to_list_insert m k (0 + increment) Hk))).
    rewrite fmap_cons. unfold sumZ. cbn [foldr snd]. ring.
Qed.

Lemma updateRow_rowTotals (topic label : string) (increment : Z) (rows : list TableRow.t) :
  rowTotalsMatch rows → rowTotalsMatch (updateRow topic (addToRow label increment) rows).
Proof.
  unfold rowTotalsMatch, updateRow. intros H. apply Forall_fmap.
  eapply Forall_impl; [exact H|]. intros row Hrow. unfold compose.
  destruct (decide (TableRow.id row = topic)); [|done]. unfold addToRow; cbn [TableRow.total TableRow.values].
  rewrite sumZ_objectValues_insert. by rewrite Hrow.
Qed.

Lemma pivot_rowTotals (metaLookup : gmap string CorpusMeta.t) (b : BinSize)
    (names : list string) (docs : list DocRow.t) :
  rowTotalsMatch (Pivot.topicRows (pivot metaLookup b names docs)).
Proof.
  unfold pivot.
  assert (H0 : rowTotalsMatch (Pivot.topicRows (emptyPivot names))).
  { unfold emptyPivot, rowTotalsMatch; cbn [Pivot.topicRows].
    apply Forall_fmap, Forall_forall. intros n _. reflexivity. }
  revert H0. generalize (emptyPivot names).
  induction docs as [|doc docs IH]; intros st Hst; [done|].
  cbn [foldl]. apply IH. unfold addDocument.
  destruct (getYearLabel _ _ _ _) as [[label|] bins]; [|done].
  assert (Hst' : rowTotalsMatch
                   (Pivot.topicRows (Pivot.mk (Pivot.topicRows st) (Pivot.yearTotals st) bins)))
    by done.
  revert Hst'. generalize (Pivot.mk (Pivot.topicRows st) (Pivot.yearTotals st) bins).
  generalize (objectEntries (DocRow.topics doc)). intros entries.
  induction entries as [|entry entries IHe]; intros st' Hst'; [done|].
  cbn [foldl]. apply IHe. unfold addCount. case_decide; [|done].
  cbn [Pivot.topicRows]. by apply updateRow_rowTotals.
Qed.

(** X7. In every table, by document or pivoted, each row's total is the sum
    of the values the row holds. *)
Theorem row_total_is_sum_of_values (localeCompare : string -> string -> Z) (s : State.t) :
  match evaluationTable localeCompare s with
  | Some table => rowTotalsMatch (Table.rows table)
  | None => State.evaluateData s = None
  end.
Proof.
  unfold evaluationTable. destruct (State.evaluateData s) as [rows|]; [|done].
  assert (Hsub : ∀ l k : list TableRow.t,
             l `sublist_of` k → rowTotalsMatch k → rowTotalsMatch l).
  { unfold rowTotalsMatch. intros l k Hlk. rewrite !Forall_forall.
    intros Hk row Hrow. apply Hk. by eapply elem_of_sublist. }
  assert (Hperm : ∀ l k : list TableRow.t, l ≡ₚ k → rowTotalsMatch k → rowTotalsMatch l).
  { unfold rowTotalsMatch. intros l k Hlk. by rewrite Hlk. }
  destruct (State.aggregateByYear s); cbn [Table.rows].
  - apply (Hsub _ _ (filtered_sublist _ _)).
    apply (Hperm _ _ (sort_Permutation _ _)). apply pivot_rowTotals.
  - apply (Hsub _ _ (filtered_sublist _ _)).
    apply (Hperm _ _ (sort_Permutation _ _)).
    unfold rowTotalsMatch, docRows, rowsWithTotals. rewrite <- list_fmap_compose.
    apply Forall_fmap, Forall_forall. intros row _. simpl.
    rewrite foldl_add_sumZ. lia.
Qed.

(** ** Year columns *)

Lemma mapSet_keys {V : Type} (k : string) (v : V) (m : list (string * V)) :
  (mapSet k v m).*1 = setAdd (m.*1) k.
Proof.
  unfold setAdd. induction m as [|[k' v'] m IH]; [done|].
  cbn [mapSet]. rewrite !fmap_cons. cbn [fst].
  destruct (decide (k = k')) as [->|Hne].
  - rewrite decide_True by (by left). done.
  - rewrite fmap_cons, IH. cbn [fst].
    destruct (decide (k ∈ m.*1)) as [Hin|Hin].
    + rewrite decide_True by (by right). done.
    + rewrite decide_False; [done|]. by intros [?|?]%elem_of_cons.
Qed.

Lemma getYearLabel_label (metaLookup : gmap string CorpusMeta.t) (b : BinSize)
    (docId : string) (bins : list (string * num)) :
  (getYearLabel metaLookup b docId bins).1 = docLabel metaLookup b docId.
Proof. unfold docLabel, getYearLabel. by destruct (Number _). Qed.

Lemma getYearLabel_keys (metaLookup : gmap string CorpusMeta.t) (b : BinSize)
    (docId : string) (bins : list (string * num)) :
  (getYearLabel metaLookup b docId bins).2.*1
  = match docLabel metaLookup b docId with
    | Some label => setAdd (bins.*1) label
    | None => bins.*1
    end.
Proof.
  unfold docLabel, getYearLabel. destruct (Number _); cbn [fst snd]; try done.
  apply mapSet_keys.
Qed.

Lemma addDocument_yearBins (metaLookup : gmap string CorpusMeta.t) (b : BinSize)
    (st : Pivot.t) (doc : DocRow.t) :
  Pivot.yearBins (addDocument metaLookup b st doc)
  = (getYearLabel metaLookup b (DocRow.docId doc) (Pivot.yearBins st)).2.
Proof.
  unfold addDocument.
  destruct (getYearLabel _ _ _ _) as [[label|] bins] eqn:H; cbn [snd].
  - by rewrite foldl_addCount_yearBins.
  - unfold getYearLabel in H. destruct (Number _); by inversion H.
Qed.

Lemma pivot_yearBins_keys (metaLookup : gmap string CorpusMeta.t) (b : BinSize)
    (names : list string) (docs : list DocRow.t) :
  (Pivot.yearBins (pivot metaLookup b names docs)).*1
  = foldl setAdd [] (omap (fun doc => docLabel metaLookup b (DocRow.docId doc)) docs).
Proof.
  unfold pivot.
  change [] with ((Pivot.yearBins (emptyPivot names)).*1) at 1.
  generalize (emptyPivot names).
  induction docs as [|doc docs IH]; intros st; [done|].
  cbn [foldl omap list_omap]. rewrite IH, addDocument_yearBins, getYearLabel_keys.
  by destruct (docLabel _ _ _).
Qed.

Lemma elem_of_foldl_setAdd_nil (ks : list string) (k : string) :
  k ∈ foldl setAdd [] ks ↔ k ∈ ks.
Proof. rewrite elem_of_foldl_setAdd, elem_of_nil. tauto. Qed.

Lemma yearLabels_Permutation (bins : list (string * num)) : yearLabels bins ≡ₚ bins.*1.
Proof. unfold yearLabels. apply fmap_Permutation, sort_Permutation. Qed.

(** X8. The pivoted table has a year column exactly for the bins of the
    documents that have a usable year, each bin once: no column without
    such a document, no document with a year without its column, and no
    column twice. *)
Theorem year_columns_are_the_bins_in_use (metaLookup : gmap string CorpusMeta.t)
    (yearBinSize : num) (percent : bool) (rows : list (string * gmap string Z)) :
  let labels :=
    yearLabels
      (Pivot.yearBins
         (pivot metaLookup (binSize yearBinSize) (topics rows) (rowsWithTotals rows))) in
  NoDup labels
  ∧ (∀ label,
       label ∈ labels
       ↔ ∃ row, row ∈ rows ∧ docLabel metaLookup (binSize yearBinSize) row.1 = Some label)
  ∧ (∀ column,
       column ∈ columnDefs percent labels →
       ∃ label, label ∈ labels ∧ ColumnDef.year column = Some label)
  ∧ (∀ label,
       label ∈ labels →
       ColumnDef.mk (label +:+ "__count") label ColumnDef.count (Some label)
         ∈ columnDefs percent labels).
Proof.
  intros labels.
  assert (Hperm : labels ≡ₚ foldl setAdd []
            (omap (fun doc => docLabel metaLookup (binSize yearBinSize) (DocRow.docId doc))
                  (rowsWithTotals rows))).
  { unfold labels. by rewrite yearLabels_Permutation, pivot_yearBins_keys. }
  split_and!.
  - rewrite Hperm. apply NoDup_foldl_setAdd, NoDup_nil_2.
  - intros label. rewrite Hperm, elem_of_foldl_setAdd_nil, list_elem_of_omap.
    unfold rowsWithTotals. split.
    + intros (doc & Hdoc & Hlabel). apply list_elem_of_fmap in Hdoc as (row & -> & Hrow).
      by exists row.
    + intros (row & Hrow & Hlabel).
      exists (DocRow.mk row.1 row.2
                (foldl (fun sum value => sum + value) 0 (objectValues row.2))).
      split; [|exact Hlabel].
      apply list_elem_of_fmap. by exists row.
  - intros column. unfold columnDefs. rewrite list_elem_of_In, in_flat_map.
    intros (label & Hlabel & Hcol). exists label. rewrite list_elem_of_In. split; [done|].
    destruct Hcol as [<-|Hcol]; [done|]. destruct percent; [|done].
    by destruct Hcol as [<-|[]].
  - intros label Hlabel. unfold columnDefs. rewrite list_elem_of_In, in_flat_map.
    exists label. rewrite <- list_elem_of_In. split; [done|]. by left.
Qed.

Lemma binsFor_mapSet (b start : Z) (bins : list (string * num)) :
  binsFor b bins → binsFor b (mapSet (binLabel b start) (ofZ start) bins).
Proof.
  unfold binsFor. rewrite !Forall_forall. intros H e [->|He]%elem_of_mapSet; eauto.
Qed.

Lemma pivot_binsFor (metaLookup : gmap string CorpusMeta.t) (b : Z)
    (names : list string) (docs : list DocRow.t) :
  binsFor b (Pivot.yearBins (pivot metaLookup (Width b) names docs)).
Proof.
  unfold pivot.
  assert (H : binsFor b (Pivot.yearBins (emptyPivot names))) by constructor.
  revert H. generalize (emptyPivot names).
  induction docs as [|doc docs IH]; intros st Hst; [done|].
  cbn [foldl]. apply IH. rewrite addDocument_yearBins. unfold getYearLabel.
  destruct (Number _) as [y| | |]; cbn [snd]; try done.
  by apply binsFor_mapSet.
Qed.

Lemma binStart_binsFor (b : Z) (bins : list (string * num)) (e : string * num) :
  binsFor b bins → e ∈ bins → e = (binLabel b (binStart e), ofZ (binStart e)).
Proof.
  unfold binsFor. rewrite Forall_forall. intros H He.
  destruct (H e He) as [start ->]. unfold binStart, ofZ. cbn [snd finitePart].
  by rewrite Qfloor_Z.
Qed.

Lemma sorted_bins_strict (b : Z) (entries : list (string * num)) :
  binsFor b entries →
  NoDup entries.*1 →
  StronglySorted (keeps (fun a b => Num.sub a.2 b.2)) entries →
  StronglySorted Z.lt (binStart <$> entries).
Proof.
  intros Hfor Hnd Hsorted. revert Hfor Hnd.
  induction Hsorted as [|e entries Hsorted IH He]; intros Hfor Hnd; [constructor|].
  rewrite fmap_cons. rewrite ?fmap_cons in Hnd. apply NoDup_cons in Hnd as [Hnin Hnd].
  unfold binsFor in Hfor. apply Forall_cons in Hfor as [Hhead Hfor].
  constructor; [by apply IH|].
  apply Forall_fmap, Forall_forall. intros e' He'. unfold compose.
  rewrite Forall_forall in He. specialize (He e' He').
  pose proof (binStart_binsFor b entries e' Hfor He') as Heq'.
  destruct Hhead as [start Heq].
  assert (Hstart : binStart e = start).
  { rewrite Heq. unfold binStart, ofZ. cbn [snd finitePart]. apply Qfloor_Z. }
  unfold keeps in He. rewrite Heq, Heq' in He. cbn [snd] in He.
  rewrite gt0_sub_ofZ, bool_decide_eq_false in He.
  assert (binStart e' ≠ start); [|lia].
  intros Hsame. apply Hnin. apply list_elem_of_fmap. exists e'. split; [|done].
  rewrite Heq, Heq', Hsame. done.
Qed.

(** X9. For a finite bin size the year columns come in ascending order of
    the bins' first years, no two bins starting in the same year: the
    labels are the labels of a strictly increasing list of starts. *)
Theorem year_columns_ascend (metaLookup : gmap string CorpusMeta.t) (yearBinSize : Q)
    (names : list string) (docs : list DocRow.t) :
  let b := Z.max 1 (Qfloor yearBinSize) in
  ∃ starts,
    yearLabels (Pivot.yearBins (pivot metaLookup (binSize (Fin yearBinSize)) names docs))
    = binLabel b <$> starts
    ∧ StronglySorted Z.lt starts.
Proof.
  intros b. rewrite binSize_finite. fold b.
  set (bins := Pivot.yearBins (pivot metaLookup (Width b) names docs)).
  set (entries := sort (fun a b => Num.sub a.2 b.2) bins).
  pose proof (pivot_binsFor metaLookup b names docs) as Hfor. fold bins in Hfor.
  assert (Hperm : entries ≡ₚ bins) by apply sort_Permutation.
  assert (Hfor' : binsFor b entries) by (unfold binsFor; by rewrite Hperm).
  exists (binStart <$> entries). split.
  - unfold yearLabels. fold entries. rewrite <- list_fmap_compose.
    apply list_fmap_ext. intros i e Hie. unfold compose.
    rewrite (binStart_binsFor b entries e Hfor') at 1; [done|].
    by eapply list_elem_of_lookup_2.
  - apply (sorted_bins_strict b); [done| |].
    + rewrite Hperm. unfold bins. rewrite pivot_yearBins_keys.
      apply NoDup_foldl_setAdd, NoDup_nil_2.
    + apply sort_StronglySorted; unfold keeps.
      * intros x y z Hx Hy Hz.
        rewrite (binStart_binsFor b bins x Hfor Hx), (binStart_binsFor b bins y Hfor Hy),
          (binStart_binsFor b bins z Hfor Hz). cbn [snd].
        rewrite !gt0_sub_ofZ, !bool_decide_eq_false. lia.
      * intros x y Hx Hy.
        rewrite (binStart_binsFor b bins x Hfor Hx), (binStart_binsFor b bins y Hfor Hy).
        cbn [snd]. rewrite !gt0_sub_ofZ, !bool_decide_eq_false. lia.
Qed.

(** ** No usable year at all *)

Lemma pivot_without_years (metaLookup : gmap string CorpusMeta.t) (b : BinSize)
    (names : list string) (docs : list DocRow.t) :
  Forall (fun doc => hasYear metaLookup (DocRow.docId doc) = false) docs →
  pivot metaLookup b names docs = emptyPivot names.
Proof.
  unfold pivot. generalize (emptyPivot names).
  induction docs as [|doc docs IH]; intros st Hdocs; [done|].
  apply Forall_cons in Hdocs as [Hdoc Hdocs]. cbn [foldl].
  unfold addDocument at 2. rewrite getYearLabel_no_year by done. by apply IH.
Qed.

(** X10. When no document has a usable year, the pivoted table has no year
    column and no denominator, reports the number of topics as [totalRows],
    and there is no chart.  With the threshold off its rows are one row per
    topic, each empty and with total 0; with a positive threshold it has no
    row at all, every total being 0. *)
Theorem pivot_without_any_year (localeCompare : string -> string -> Z) (s : State.t)
    (rows : list (string * gmap string Z)) :
  State.evaluateData s = Some rows →
  State.aggregateByYear s = true →
  Forall (fun row => hasYear (State.corpusMetaById s) row.1 = false) rows →
  ∃ table,
    evaluationTable localeCompare s = Some table
    ∧ Table.columns table = []
    ∧ Table.yearTotals table = Some ∅
    ∧ Table.totalRows table = length (topics rows)
    ∧ ((State.totalThreshold s <= 0)%Q →
       Table.rows table ≡ₚ (fun topic => TableRow.mk topic ∅ 0) <$> topics rows)
    ∧ ((0 < State.totalThreshold s)%Q → Table.rows table = [])
    ∧ chartSeries s (Some table) = None.
Proof.
  intros Hdata Hagg Hyears. unfold evaluationTable. rewrite Hdata, Hagg.
  assert (Hp : pivot (State.corpusMetaById s) (binSize (State.yearBinSize s))
                 (topics rows) (rowsWithTotals rows)
               = emptyPivot (topics rows)).
  { apply pivot_without_years. unfold rowsWithTotals.
    apply Forall_fmap. eapply Forall_impl; [exact Hyears|]. done. }
  eexists. split; [reflexivity|]. unfold sortedTopicRows. rewrite !Hp.
  cbn [Table.columns Table.yearTotals Table.totalRows Table.rows
         emptyPivot Pivot.yearBins Pivot.topicRows Pivot.yearTotals].
  split_and!; try done.
  - by rewrite length_fmap.
  - intros Hoff. rewrite filtered_disabled by done. apply sort_Permutation.
  - intros Hon. unfold filtered.
    destruct (Qle_bool (State.totalThreshold s) 0) eqn:Hle.
    { apply Qle_bool_iff in Hle. lra. }
    rewrite (filter_ext_in _ (fun _ => false)); [apply filter_false|].
    intros row Hrow. apply list_elem_of_In, elem_of_sort in Hrow.
    apply list_elem_of_fmap in Hrow as (topic & -> & _). cbn [TableRow.total].
    destruct (Qle_bool (State.totalThreshold s) (inject_Z 0)) eqn:Hz; [|done].
    apply Qle_bool_iff in Hz. change (inject_Z 0) with 0%Q in Hz. lra.
Qed.

Lemma pivot_without_any_year_witness :
  let s := State.mk (Some exampleData) ∅ ∅ "total" desc 0 true (ofZ 1) true ∅ in
  ∃ table,
    evaluationTable byCodeUnits s = Some table
    ∧ Table.columns table = []
    ∧ Table.yearTotals table = Some ∅
    ∧ Table.totalRows table = length (topics exampleData)
    ∧ Table.rows table = [TableRow.mk "nature" ∅ 0; TableRow.mk "war" ∅ 0]
    ∧ chartSeries s (Some table) = None.
Proof.
  intros s.
  assert (H : Forall (fun row => hasYear (State.corpusMetaById s) row.1 = false)
                exampleData).
  { repeat constructor. }
  destruct (pivot_without_any_year byCodeUnits s exampleData eq_refl eq_refl H)
    as (table & Htable & Hcols & Hyt & Hn & _ & _ & Hchart).
  exists table. split; [exact Htable|]. split; [exact Hcols|].
  split; [exact Hyt|]. split; [exact Hn|]. split; [|exact Hchart].
  revert Htable. vm_compute. by intros [= <-].
Defined.

(** ** Column keys *)

Lemma list_ascii_of_string_app (a b : string) :
  list_ascii_of_string (a +:+ b) = list_ascii_of_string a ++ list_ascii_of_string b.
Proof. induction a as [|c a IH]; simpl; [done|]. by rewrite IH. Qed.

Lemma list_ascii_of_string_inj (a b : string) :
  list_ascii_of_string a = list_ascii_of_string b → a = b.
Proof.
  intros H. rewrite <- (string_of_list_ascii_of_string a), H.
  apply string_of_list_ascii_of_string.
Qed.

Lemma key_suffix_inj (a b suffix : string) : a +:+ suffix = b +:+ suffix → a = b.
Proof.
  intros H. apply (f_equal list_ascii_of_string) in H.
  rewrite !list_ascii_of_string_app in H.
  by apply app_inv_tail, list_ascii_of_string_inj in H.
Qed.

Lemma suffixes_differ (a b s t : string) :
  (∀ x y, rev (list_ascii_of_string s) ++ x ≠ rev (list_ascii_of_string t) ++ y) →
  a +:+ s ≠ b +:+ t.
Proof.
  intros Hst H. apply (f_equal list_ascii_of_string) in H.
  rewrite !list_ascii_of_string_app in H. apply (f_equal (@rev ascii)) in H.
  rewrite !rev_app_distr in H. by apply Hst in H.
Qed.

Lemma count_key_not_percent_key (a b : string) : a +:+ "__count" ≠ b +:+ "__percent".
Proof. apply suffixes_differ. intros x y H. simpl in H. discriminate H. Qed.

Lemma column_key_not_fixed (a : string) :
  a +:+ "__count" ≠ "row"%string ∧ a +:+ "__count" ≠ "total"%string
  ∧ a +:+ "__percent" ≠ "row"%string ∧ a +:+ "__percent" ≠ "total"%string.
Proof.
  split_and!; intros H; apply (f_equal list_ascii_of_string) in H;
    rewrite list_ascii_of_string_app in H; apply (f_equal (@rev ascii)) in H;
    rewrite rev_app_distr in H; simpl in H; discriminate H.
Qed.

Lemma columnDefs_cons (percent : bool) (label : string) (labels : list string) :
  columnDefs percent (label :: labels)
  = ColumnDef.mk (label +:+ "__count") label ColumnDef.count (Some label)
    :: (if percent
        then [ColumnDef.mk (label +:+ "__percent") (label +:+ " %")
                ColumnDef.percent (Some label)]
        else [])
    ++ columnDefs percent labels.
Proof. reflexivity. Qed.

Lemma elem_of_columnDefs (percent : bool) (labels : list string) (column : ColumnDef.t) :
  column ∈ columnDefs percent labels →
  ∃ label,
    label ∈ labels
    ∧ (column = ColumnDef.mk (label +:+ "__count") label ColumnDef.count (Some label)
       ∨ column = ColumnDef.mk (label +:+ "__percent") (label +:+ " %")
                    ColumnDef.percent (Some label)).
Proof.
  unfold columnDefs. rewrite list_elem_of_In, in_flat_map.
  intros (label & Hlabel & Hcol). exists label. rewrite list_elem_of_In. split; [done|].
  destruct Hcol as [<-|Hcol]; [by left|]. destruct percent; [|done].
  destruct Hcol as [<-|[]]. by right.
Qed.

Lemma columnDefs_find (percent : bool) (labels : list string) (column : ColumnDef.t) :
  NoDup labels →
  column ∈ columnDefs percent labels →
  List.find (fun def => bool_decide (ColumnDef.key def = ColumnDef.key column))
    (columnDefs percent labels)
  = Some column.
Proof.
  intros Hnd. induction Hnd as [|label labels Hnin Hnd IH]; intros Hin.
  - by apply elem_of_nil in Hin.
  - rewrite columnDefs_cons in Hin |- *.
    apply elem_of_cons in Hin as [->|Hin]; [cbn [List.find ColumnDef.key]; by rewrite bool_decide_true|].
    apply elem_of_app in Hin as [Hin|Hin].
    + destruct percent; [|by apply elem_of_nil in Hin].
      apply list_elem_of_singleton in Hin as ->.
      cbn [List.find ColumnDef.key app].
      rewrite bool_decide_false by apply count_key_not_percent_key.
      by rewrite bool_decide_true.
    + destruct (elem_of_columnDefs _ _ _ Hin) as (l & Hl & Hcol).
      assert (Hne : l ≠ label) by (by intros ->).
      assert (Hk1 : label +:+ "__count" ≠ ColumnDef.key column).
      { destruct Hcol as [-> | ->]; cbn [ColumnDef.key].
        - intros H. by apply key_suffix_inj in H.
        - apply count_key_not_percent_key. }
      assert (Hk2 : label +:+ "__percent" ≠ ColumnDef.key column).
      { destruct Hcol as [-> | ->]; cbn [ColumnDef.key].
        - intros H. symmetry in H. by apply count_key_not_percent_key in H.
        - intros H. by apply key_suffix_inj in H. }
      cbn [List.find ColumnDef.key]. rewrite bool_decide_false by done.
      destruct percent; cbn [List.find ColumnDef.key app].
      * rewrite bool_decide_false by done. by apply IH.
      * by apply IH.
Qed.

(** X11. Every column of the pivoted table can be sorted by: with the key of
    a column as sort key, the comparator is the direction times the
    difference of the two rows' values in exactly that column (counts for a
    count column, shares of the year's total for a percent column).  No
    key of a column is taken for row or total, and no two columns share a
    key. *)
Theorem column_key_sorts_its_column (localeCompare : string -> string -> Z)
    (percent : bool) (labels : list string) (yearTotals : gmap string Z)
    (sortDir : SortDir) (column : ColumnDef.t) (a b : TableRow.t) :
  NoDup labels →
  column ∈ columnDefs percent labels →
  compareTopicRows localeCompare (columnDefs percent labels) yearTotals
    (ColumnDef.key column) sortDir a b
  = Num.mul (direction sortDir)
      (Num.sub (columnSortValue yearTotals column a) (columnSortValue yearTotals column b)).
Proof.
  intros Hnd Hin. unfold compareTopicRows.
  destruct (elem_of_columnDefs _ _ _ Hin) as (label & _ & Hcol).
  pose proof (column_key_not_fixed label) as (? & ? & ? & ?).
  rewrite !decide_False by (destruct Hcol as [-> | ->]; done).
  rewrite columnDefs_find by done.
  unfold columnSortValue. by destruct (ColumnDef.kind column).
Qed.

Lemma column_key_sorts_its_column_witness :
  let labels := ["1980-1989"; "1990-1999"]%string in
  let column :=
    ColumnDef.mk "1990-1999__percent" "1990-1999 %" ColumnDef.percent
      (Some "1990-1999"%string) in
  let yearTotals : gmap string Z := {[ "1990-1999"%string := 4 ]} in
  let a := TableRow.mk "war" {[ "1990-1999"%string := 1 ]} 1 in
  let b := TableRow.mk "nature" {[ "1990-1999"%string := 3 ]} 3 in
  NoDup labels
  ∧ column ∈ columnDefs true labels
  ∧ compareTopicRows byCodeUnits (columnDefs true labels) yearTotals
      (ColumnDef.key column) desc a b
    = Num.mul (direction desc)
        (Num.sub (columnSortValue yearTotals column a)
                 (columnSortValue yearTotals column b)).
Proof.
  intros labels column yearTotals a b.
  assert (Hnd : NoDup labels).
  { apply (bool_decide_unpack _). vm_compute. exact I. }
  assert (Hin : column ∈ columnDefs true labels).
  { unfold labels, column. cbn. do 3 right. left. }
  split; [exact Hnd|]. split; [exact Hin|].
  exact (column_key_sorts_its_column byCodeUnits true labels yearTotals desc column
           a b Hnd Hin).
Defined.

(** ** Percentages in the table and in the chart *)

Lemma toString_head_low (z : Z) :
  ∃ c s, toString z = String c s ∧ (N_of_ascii c < 95)%N.
Proof.
  unfold toString. destruct (Z.to_int z) as [d|d]; simpl.
  - destruct d; simpl; eexists _, _; (split; [reflexivity|done]).
  - eexists _, _; split; [reflexivity|done].
Qed.

(** The names of [Object.prototype] start with a small letter or an
    underscore. *)
Lemma low_head_not_inherited (c : ascii) (s : string) :
  (N_of_ascii c < 95)%N → String c s ∉ objectPrototype.
Proof.
  intros Hc Hin. unfold objectPrototype in Hin.
  repeat (apply elem_of_cons in Hin as [Heq|Hin];
          [injection Heq as -> _; vm_compute in Hc; discriminate Hc|]).
  by apply elem_of_nil in Hin.
Qed.

(** A year label is never the name of a member of [Object.prototype]: a
    read of a row of the pivoted table under a year label finds the row's
    own count or nothing. *)
Lemma yearBin_not_inherited (b : BinSize) (y : Q) : (yearBin b y).1 ∉ objectPrototype.
Proof.
  destruct b as [b|]; [|by apply (low_head_not_inherited "N")].
  unfold yearBin. cbn [fst].
  destruct (toString_head_low (Qfloor (y / inject_Z b) * b)) as (c & s & Hs & Hc).
  destruct (1 <? b); rewrite Hs; by apply low_head_not_inherited.
Qed.

Lemma readValue_label (values : gmap string Z) (label : string) :
  label ∉ objectPrototype → readValue values label = Count (default 0 (values !! label)).
Proof.
  intros Hlabel. unfold readValue. destruct (values !! label); [done|].
  by rewrite decide_False.
Qed.

Lemma mapSet_Forall {V : Type} (P : string * V -> Prop) (k : string) (v : V)
    (m : list (string * V)) :
  P (k, v) → Forall P m → Forall P (mapSet k v m).
Proof.
  intros Hk. induction 1 as [|[k' v'] m Hx Hm IH]; cbn [mapSet].
  - by repeat constructor.
  - destruct (decide (k = k')); by constructor.
Qed.

Lemma pivot_bins_not_inherited (metaLookup : gmap string CorpusMeta.t) (b : BinSize)
    (names : list string) (docs : list DocRow.t) :
  Forall (fun e => e.1 ∉ objectPrototype) (Pivot.yearBins (pivot metaLookup b names docs)).
Proof.
  unfold pivot.
  assert (H0 : Forall (fun e : string * num => e.1 ∉ objectPrototype)
                 (Pivot.yearBins (emptyPivot names))) by constructor.
  revert H0. generalize (emptyPivot names).
  induction docs as [|doc docs IH]; intros st Hst; [done|].
  cbn [foldl]. apply IH. unfold addDocument, getYearLabel.
  destruct (Number _) as [y| | |]; try done.
  rewrite foldl_addCount_yearBins. cbn [Pivot.yearBins fst snd].
  apply mapSet_Forall; [|done]. apply yearBin_not_inherited.
Qed.

(** C4 (amended). No percentage is computed by a division by zero, and every
    one is a finite number.  In every pivoted table the cell of any row under
    a percent column is [100 × count / yearTotals[bin]], for the row's own
    count under the bin of the column, when the denominator is positive and
    [0] otherwise.  Every value of a chart series is finite; the series of
    a row holds, for each year of the chart in turn, the row's own count
    under that year, or with percentages on [100 × count / yearTotals[year]]
    when the denominator is positive and [0] otherwise.  The value the
    comparator orders a percent column by is [count / yearTotals[bin]] when
    the denominator is positive and [0] otherwise. *)
Theorem percent_never_divides_by_zero :
  (∀ value denom,
     ∃ q, percentValue value denom = Fin q
          ∧ (q == if 0 <? denom then 100 * inject_Z value / inject_Z denom else 0)%Q)
  ∧ (∀ value denom,
       ∃ q, percentKey value denom = Fin q
            ∧ (q == if 0 <? denom then inject_Z value / inject_Z denom else 0)%Q)
  ∧ (∀ localeCompare s table row column,
       evaluationTable localeCompare s = Some table →
       Table.mode table = Mode.topics →
       column ∈ Table.columns table →
       ColumnDef.kind column = ColumnDef.percent →
       ∃ label yearTotals,
         ColumnDef.year column = Some label
         ∧ Table.yearTotals table = Some yearTotals
         ∧ cellValue table row column
           = CellNumber
               (percentValue (default 0 (TableRow.values row !! label))
                  (default 0 (yearTotals !! label))))
  ∧ (∀ localeCompare columnDefs yearTotals sortKey sortDir a b column,
       sortKey ≠ "row"%string → sortKey ≠ "total"%string →
       List.find (fun def => bool_decide (ColumnDef.key def = sortKey)) columnDefs
       = Some column →
       ColumnDef.kind column = ColumnDef.percent →
       let year := default ""%string (ColumnDef.year column) in
       let denom := default 0 (yearTotals !! year) in
       compareTopicRows localeCompare columnDefs yearTotals sortKey sortDir a b
       = Num.mul (direction sortDir)
           (Num.sub (percentKey (default 0 (TableRow.values a !! year)) denom)
                    (percentKey (default 0 (TableRow.values b !! year)) denom))
       ∧ Num.isFinite
           (compareTopicRows localeCompare columnDefs yearTotals sortKey sortDir a b) = true)
  ∧ (∀ s table chart,
       chartSeries s (Some table) = Some chart →
       Forall
         (fun serie =>
            Forall (fun v => Num.isFinite v = true) serie.2
            ∧ ∃ row,
                row ∈ Table.rows table
                ∧ TableRow.id row = serie.1
                ∧ serie.2
                  = (fun year =>
                       if State.aggregatePercent s
                       then percentValue (default 0 (TableRow.values row !! year))
                              (default 0 (Table.yearTotals table ≫= fun m => m !! year))
                       else ofZ (default 0 (TableRow.values row !! year)))
                      <$> ChartSeries.years chart)
         (ChartSeries.series chart)).
Proof.
  split_and!.
  - apply percentValue_finite.
  - apply percentKey_finite.
  - intros lc s table row column Htable Hmode Hcol Hkind.
    unfold evaluationTable in Htable.
    destruct (State.evaluateData s) as [rows|]; [|done].
    destruct (State.aggregateByYear s); [|by injection Htable as <-].
    injection Htable as <-. cbn [Table.columns Table.yearTotals] in *.
    set (p := pivot (State.corpusMetaById s) (binSize (State.yearBinSize s))
                (topics rows) (rowsWithTotals rows)) in *.
    apply elem_of_columnDefs in Hcol as (label & Hlabel & [->| ->]); [done|].
    exists label, (Pivot.yearTotals p). split_and!; [done|done|].
    assert (Hown : label ∉ objectPrototype).
    { unfold yearLabels in Hlabel.
      apply list_elem_of_fmap in Hlabel as (e & -> & He). apply elem_of_sort in He.
      by apply (proj1 (Forall_forall _ _)
                  (pivot_bins_not_inherited (State.corpusMetaById s)
                     (binSize (State.yearBinSize s)) (topics rows) (rowsWithTotals rows))). }
    unfold cellValue.
    cbn [ColumnDef.kind ColumnDef.year ColumnDef.key Table.mode Table.yearTotals
           default from_option mbind option_bind id].
    by rewrite (readValue_label _ _ Hown).
  - intros lc defs yt key dir a b column Hrow Htotal Hfind Hkind year denom.
    unfold compareTopicRows.
    rewrite !decide_False by done. rewrite Hfind, Hkind. split; [done|].
    fold year. fold denom.
    destruct (percentKey_finite (default 0 (TableRow.values a !! year)) denom) as (qa & -> & _).
    destruct (percentKey_finite (default 0 (TableRow.values b !! year)) denom) as (qb & -> & _).
    by destruct dir.
  - intros s table chart. unfold chartSeries.
    destruct (Table.mode table); [done|].
    set (yearColumns := List.filter _ (Table.columns table)).
    assert (Hyears : Forall (fun column =>
                       ∃ year, ColumnDef.year column = Some year) yearColumns).
    { apply Forall_forall. intros column Hin.
      apply list_elem_of_In, filter_In in Hin as [_ Hin].
      destruct (ColumnDef.kind column); [|done].
      destruct (ColumnDef.year column) as [year|]; [by exists year|done]. }
    destruct yearColumns as [|column yearColumns'] eqn:Hcols; [done|].
    rewrite <- Hcols in *. clear Hcols column yearColumns'.
    intros Heq. apply (inj Some) in Heq. subst chart.
    cbn [ChartSeries.series ChartSeries.years].
    apply Forall_fmap, Forall_forall. intros row Hrow. cbn [fst snd].
    split.
    + apply Forall_fmap, Forall_forall. intros col _. unfold compose.
      destruct (State.aggregatePercent s); [|done].
      by destruct (percentValue_finite
                     (default 0 (TableRow.values row !! default ""%string (ColumnDef.year col)))
                     (default 0 (Table.yearTotals table
                                   ≫= fun m => m !! default ""%string (ColumnDef.year col))))
        as (q & -> & _).
    + exists row. split_and!; [|done|].
      * apply elem_of_take in Hrow as (i & Hrow & _).
        apply list_elem_of_lookup_2, list_elem_of_In, filter_In in Hrow as [Hrow _].
        by apply list_elem_of_In, elem_of_sort in Hrow.
      * rewrite <- list_fmap_compose. apply Forall_fmap_ext.
        eapply Forall_impl; [exact Hyears|]. intros col [year Hyear]. cbn.
        by rewrite Hyear.
Qed.

(** ** The chart *)

Lemma sort_total_descending (l : list TableRow.t) :
  StronglySorted (totalOrder desc)
    (sort (fun a b => Num.sub (ofZ (TableRow.total b)) (ofZ (TableRow.total a))) l).
Proof.
  set (c := fun a b : TableRow.t => Num.sub (ofZ (TableRow.total b)) (ofZ (TableRow.total a))).
  assert (Hkeeps : ∀ a b, keeps c a b ↔ totalOrder desc a b).
  { intros a b. unfold keeps, c. cbn [totalOrder].
    rewrite gt0_sub_ofZ, bool_decide_eq_false. lia. }
  apply (StronglySorted_impl (keeps c)); [intros x y; apply Hkeeps|].
  apply sort_StronglySorted.
  - intros x y z _ _ _. rewrite !Hkeeps. simpl. lia.
  - intros x y _ _. rewrite !Hkeeps. simpl. lia.
Qed.

(** X12. The chart shows at most five series, one per row of the table,
    none of them hidden, each with one value per year of the chart; and the
    rows it shows are the visible rows with the highest totals: no visible
    row left out has a higher total than a row shown. *)
Theorem chart_shows_top_visible_rows (s : State.t) (table : Table.t)
    (chart : ChartSeries.t) :
  chartSeries s (Some table) = Some chart →
  Table.mode table = Mode.topics
  ∧ ChartSeries.years chart ≠ []
  ∧ (length (ChartSeries.series chart) ≤ 5)%nat
  ∧ Forall
      (fun serie =>
         (fst serie ∉ State.hiddenSeries s)
         ∧ length serie.2 = length (ChartSeries.years chart)
         ∧ ∃ row,
             row ∈ Table.rows table
             ∧ TableRow.id row = serie.1
             ∧ ∀ other,
                 other ∈ Table.rows table →
                 TableRow.id other ∉ State.hiddenSeries s →
                 TableRow.id other ∉ fst <$> ChartSeries.series chart →
                 TableRow.total other ≤ TableRow.total row)
      (ChartSeries.series chart).
Proof.
  unfold chartSeries. destruct (Table.mode table); [done|].
  destruct (List.filter _ (Table.columns table)) as [|column yearColumns] eqn:Hcols;
    [done|].
  set (columns := column :: yearColumns).
  set (sortedRows :=
         sort (fun a b => Num.sub (ofZ (TableRow.total b)) (ofZ (TableRow.total a)))
              (Table.rows table)).
  set (visible := List.filter
                    (fun row => negb (bool_decide (TableRow.id row ∈ State.hiddenSeries s)))
                    sortedRows).
  intros Heq. apply (inj Some) in Heq. subst chart.
  cbn [ChartSeries.years ChartSeries.series].
  split_and!; [done|done|by rewrite length_fmap, length_take; lia|].
  assert (Hsorted : StronglySorted (totalOrder desc) (take 5 visible ++ drop 5 visible)).
  { rewrite take_drop. apply (StronglySorted_sublist _ _ sortedRows).
    - apply filter_sublist.
    - apply sort_total_descending. }
  apply StronglySorted_app in Hsorted as (Hcross & _ & _).
  assert (Hvis : ∀ row, row ∈ visible
                        ↔ row ∈ Table.rows table ∧ TableRow.id row ∉ State.hiddenSeries s).
  { intros row. unfold visible. rewrite list_elem_of_In, filter_In, <- list_elem_of_In.
    unfold sortedRows. rewrite elem_of_sort, negb_true_iff, bool_decide_eq_false. done. }
  apply Forall_fmap, Forall_forall. intros row Hrow. unfold compose. cbn [fst snd].
  assert (Hrow' : row ∈ visible) by (by eapply elem_of_sublist; [|apply sublist_take]).
  apply Hvis in Hrow' as [Hin Hshown].
  split_and!; [done|by rewrite !length_fmap|].
  exists row. split_and!; [done|done|].
  intros other Hother Hnot Hout.
  assert (Hov : other ∈ take 5 visible ++ drop 5 visible).
  { rewrite take_drop. by apply Hvis. }
  apply elem_of_app in Hov as [Hov|Hov].
  - exfalso. apply Hout. rewrite <- list_fmap_compose.
    apply list_elem_of_fmap. by exists other.
  - apply (Hcross row other Hrow Hov).
Qed.

Lemma chart_shows_top_visible_rows_witness :
  let s := State.mk (Some exampleData) exampleMeta ∅ "total" desc 0 true (ofZ 10) false
             {[ "nature"%string ]} in
  ∃ table chart,
    evaluationTable byCodeUnits s = Some table
    ∧ chartSeries s (Some table) = Some chart
    ∧ (ChartSeries.series chart).*1 = ["war"%string]
    ∧ (length (ChartSeries.series chart) ≤ 5)%nat.
Proof.
  intros s.
  let t := eval vm_compute in (evaluationTable byCodeUnits s) in
  match t with
  | Some ?table =>
      let c := eval vm_compute in (chartSeries s (Some table)) in
      match c with
      | Some ?chart =>
          exists table, chart;
          assert (Hchart : chartSeries s (Some table) = Some chart)
            by (vm_compute; reflexivity);
          split; [vm_compute; reflexivity|];
          split; [exact Hchart|];
          split; [vm_compute; reflexivity|];
          exact (proj1 (proj2 (proj2
                   (chart_shows_top_visible_rows s table chart Hchart))))
      end
  end.
Defined.

(** ** Pages *)

Lemma slice_page {A : Type} (pageSize pageIndex : Z) (l : list A) :
  0 < pageSize → 0 ≤ pageIndex →
  slice (pageIndex * pageSize) (pageIndex * pageSize + pageSize) l
  = take (Z.to_nat pageSize) (drop (Z.to_nat (pageIndex * pageSize)) l).
Proof.
  intros Hp Hi. unfold slice.
  assert (0 ≤ pageIndex * pageSize) by lia.
  rewrite !(proj2 (Z.ltb_ge _ 0)) by lia.
  set (len := Z.of_nat (length l)).
  destruct (decide (len ≤ pageIndex * pageSize)) as [Hge|Hlt].
  - rewrite !drop_ge by lia. by rewrite !take_nil.
  - rewrite (Z.min_l (pageIndex * pageSize)) by lia.
    destruct (decide (pageIndex * pageSize + pageSize ≤ len)) as [Hfull|Hpart].
    + rewrite Z.min_l by lia. f_equal. lia.
    + rewrite Z.min_r by lia.
      rewrite !take_ge; [done|rewrite length_drop; lia|rewrite length_drop; lia].
Qed.

Lemma pageCount_div (rows : nat) (pageSize : Z) :
  0 < pageSize →
  pageCount rows pageSize = (Z.of_nat rows + pageSize - 1) `div` pageSize.
Proof.
  intros Hp. unfold pageCount, Qceiling.
  assert (Heq : (- (inject_Z (Z.of_nat rows) / inject_Z pageSize)
                 == inject_Z (- Z.of_nat rows) / inject_Z pageSize)%Q).
  { rewrite inject_Z_opp. field. intros H. unfold Qeq in H. simpl in H. lia. }
  rewrite (Qfloor_comp _ _ Heq), <- Zdiv_Qdiv.
  set (n := Z.of_nat rows).
  pose proof (Z.div_mod (- n) pageSize ltac:(lia)) as H1.
  pose proof (Z.mod_pos_bound (- n) pageSize Hp) as H2.
  pose proof (Z.div_mod (n + pageSize - 1) pageSize ltac:(lia)) as H3.
  pose proof (Z.mod_pos_bound (n + pageSize - 1) pageSize Hp) as H4.
  nia.
Qed.

Lemma pages_join {A : Type} (pageSize : nat) (l : list A) (pages : nat) :
  mjoin ((fun i => take pageSize (drop (i * pageSize) l)) <$> seq 0 pages)
  = take (pages * pageSize) l.
Proof.
  induction pages as [|pages IH]; [done|].
  rewrite seq_S, fmap_app, join_app, IH. cbn [fmap list_fmap mjoin list_join].
  rewrite app_nil_r. simpl plus.
  replace (S pages * pageSize)%nat with (pages * pageSize + pageSize)%nat by lia.
  by rewrite take_take_drop.
Qed.

Lemma page_within_rows (table : Table.t) (pageSize pageIndex : Z) :
  Table.mode table = Mode.docs →
  0 < pageSize →
  0 ≤ pageIndex →
  let count := pageCount (length (Table.rows table)) pageSize in
  pageRows table pageSize pageIndex
  = take (Z.to_nat pageSize)
      (drop (Z.to_nat (pageIndex * pageSize)) (Table.rows table))
  ∧ Z.of_nat (length (pageRows table pageSize pageIndex)) ≤ pageSize
  ∧ (pageIndex < count → pageRows table pageSize pageIndex ≠ [])
  ∧ (count ≤ pageIndex → pageRows table pageSize pageIndex = []).
Proof.
  intros Hmode Hp Hi count.
  assert (Hcount : count = (Z.of_nat (length (Table.rows table)) + pageSize - 1)
                             `div` pageSize) by (by apply pageCount_div).
  set (n := Z.of_nat (length (Table.rows table))) in *.
  pose proof (Z.div_mod (n + pageSize - 1) pageSize ltac:(lia)) as Hdm.
  pose proof (Z.mod_pos_bound (n + pageSize - 1) pageSize Hp) as Hmod.
  assert (Hpage : pageRows table pageSize pageIndex
                  = take (Z.to_nat pageSize)
                      (drop (Z.to_nat (pageIndex * pageSize)) (Table.rows table))).
  { unfold pageRows. rewrite Hmode, (proj2 (Z.ltb_lt 0 pageSize) Hp).
    by apply slice_page. }
  split; [exact Hpage|]. rewrite Hpage. split_and!.
  - rewrite length_take. lia.
  - intros Hlt Hnil. apply (f_equal length) in Hnil.
    rewrite length_take, length_drop in Hnil. simpl in Hnil.
    assert (pageIndex * pageSize < n) by nia. lia.
  - intros Hge. rewrite drop_ge; [by rewrite take_nil|].
    assert (n ≤ pageIndex * pageSize) by nia. lia.
Qed.

(** X13. Paging of the by-document table, for a positive page size: a page
    holds at most [pageSize] rows; the pages from the first to the last, one
    after the other, are the rows of the table; a page below the page count
    is not empty and a page from the page count on is empty. *)
Theorem pages_partition_rows (table : Table.t) (pageSize : Z) :
  Table.mode table = Mode.docs →
  0 < pageSize →
  let count := pageCount (length (Table.rows table)) pageSize in
  (∀ pageIndex, 0 ≤ pageIndex →
     Z.of_nat (length (pageRows table pageSize pageIndex)) ≤ pageSize
     ∧ (pageIndex < count → pageRows table pageSize pageIndex ≠ [])
     ∧ (count ≤ pageIndex → pageRows table pageSize pageIndex = []))
  ∧ mjoin ((fun i => pageRows table pageSize (Z.of_nat i)) <$> seq 0 (Z.to_nat count))
    = Table.rows table.
Proof.
  intros Hmode Hp count. split.
  - intros i Hi. by destruct (page_within_rows table pageSize i Hmode Hp Hi) as [_ H].
  - assert (Hcount : count = (Z.of_nat (length (Table.rows table)) + pageSize - 1)
                               `div` pageSize) by (by apply pageCount_div).
    set (n := Z.of_nat (length (Table.rows table))) in *.
    pose proof (Z.div_mod (n + pageSize - 1) pageSize ltac:(lia)) as Hdm.
    pose proof (Z.mod_pos_bound (n + pageSize - 1) pageSize Hp) as Hmod.
    transitivity (mjoin ((fun i => take (Z.to_nat pageSize)
                                     (drop (i * Z.to_nat pageSize) (Table.rows table)))
                           <$> seq 0 (Z.to_nat count))).
    + f_equal. apply list_fmap_ext. intros ? i _.
      destruct (page_within_rows table pageSize (Z.of_nat i) Hmode Hp ltac:(lia))
        as [-> _].
      do 2 f_equal. lia.
    + rewrite pages_join. apply take_ge.
      assert (n ≤ count * pageSize) by nia. nia.
Qed.

Lemma pages_partition_rows_witness :
  let table :=
    Table.mk Mode.docs (docRows (rowsWithTotals exampleData)) [] 2 None in
  mjoin ((fun i => pageRows table 1 (Z.of_nat i)) <$> seq 0 2) = Table.rows table.
Proof.
  intros table.
  exact (proj2 (pages_partition_rows table 1 eq_refl eq_refl)).
Defined.

(** X14. From the first page, the pager only reaches pages that exist: the
    index stays at least 0 and, unless it is still 0, below the page count;
    so the page it shows is never empty when the table has rows. *)
Theorem pager_stays_within_pages (table : Table.t) (pageSize pageIndex : Z) :
  Table.mode table = Mode.docs →
  0 < pageSize →
  reachablePage (length (Table.rows table)) pageSize pageIndex →
  0 ≤ pageIndex
  ∧ (pageIndex = 0 ∨ pageIndex < pageCount (length (Table.rows table)) pageSize)
  ∧ (Table.rows table ≠ [] → pageRows table pageSize pageIndex ≠ []).
Proof.
  intros Hmode Hp Hreach.
  assert (Hrange : 0 ≤ pageIndex
                   ∧ (pageIndex = 0
                      ∨ pageIndex < pageCount (length (Table.rows table)) pageSize)).
  { induction Hreach as [|i Hreach IH Hprev|i Hreach IH Hnext].
    - lia.
    - unfold previousPage. lia.
    - unfold nextDisabled in Hnext. apply bool_decide_eq_false in Hnext.
      unfold nextPage. lia. }
  split_and!; [lia|tauto|].
  intros Hrows.
  destruct (page_within_rows table pageSize pageIndex Hmode Hp ltac:(lia))
    as (_ & _ & Hnonempty & _).
  apply Hnonempty. destruct Hrange as [_ [-> | Hlt]]; [|done].
  rewrite pageCount_div by done.
  assert (0 < Z.of_nat (length (Table.rows table))).
  { destruct (Table.rows table); [done|simpl; lia]. }
  apply Z.div_str_pos. lia.
Qed.

Lemma pager_stays_within_pages_witness :
  let table :=
    Table.mk Mode.docs (docRows (rowsWithTotals exampleData)) [] 2 None in
  reachablePage 2 1 1 ∧ pageRows table 1 1 ≠ [].
Proof.
  intros table.
  assert (Hreach : reachablePage (length (Table.rows table)) 1 1).
  { apply (reach_next 2 1 0); [apply reach_first|reflexivity]. }
  split; [exact Hreach|].
  apply (pager_stays_within_pages table 1 1 eq_refl eq_refl Hreach).
  intros H. discriminate H.
Defined.

(** ** Sort clicks *)

Lemma filter_Permutation {A : Type} (f : A -> bool) (l l' : list A) :
  l ≡ₚ l' → List.filter f l ≡ₚ List.filter f l'.
Proof.
  induction 1 as [|x l l' _ IH|x y l|l l' l'' _ IH1 _ IH2]; simpl.
  - done.
  - destruct (f x); by rewrite IH.
  - destruct (f x), (f y); try done. apply perm_swap.
  - by rewrite IH1.
Qed.

Lemma filtered_Permutation (t : Q) (l l' : list TableRow.t) :
  l ≡ₚ l' → filtered t l ≡ₚ filtered t l'.
Proof.
  intros H. unfold filtered. destruct (Qle_bool t 0); [done|].
  by apply filter_Permutation.
Qed.

(** X15. A click on a column header selects that key and changes the order
    only: the table has the same rows up to their order, and the same mode,
    columns, total row count and denominators as before. *)
Theorem sort_click_keeps_table_content (localeCompare : string -> string -> Z)
    (s : State.t) (key : string) :
  State.sortKey (handleSort s key) = key
  ∧ match evaluationTable localeCompare s,
          evaluationTable localeCompare (handleSort s key) with
    | Some before, Some after =>
        Table.rows after ≡ₚ Table.rows before
        ∧ Table.mode after = Table.mode before
        ∧ Table.columns after = Table.columns before
        ∧ Table.totalRows after = Table.totalRows before
        ∧ Table.yearTotals after = Table.yearTotals before
    | None, None => True
    | _, _ => False
    end.
Proof.
  split.
  - unfold handleSort. by case_decide.
  - assert (Hsame : State.evaluateData (handleSort s key) = State.evaluateData s
                    ∧ State.corpusMetaById (handleSort s key) = State.corpusMetaById s
                    ∧ State.corpusMetaByUrn (handleSort s key) = State.corpusMetaByUrn s
                    ∧ State.totalThreshold (handleSort s key) = State.totalThreshold s
                    ∧ State.aggregateByYear (handleSort s key) = State.aggregateByYear s
                    ∧ State.yearBinSize (handleSort s key) = State.yearBinSize s
                    ∧ State.aggregatePercent (handleSort s key) = State.aggregatePercent s).
    { unfold handleSort. by case_decide. }
    destruct Hsame as (Hd & Hi & Hu & Ht & Ha & Hy & Hp).
    unfold evaluationTable. rewrite Hd, Ha, Ht, Hi, Hy, Hp.
    destruct (State.evaluateData s) as [rows|]; [|done].
    destruct (State.aggregateByYear s); cbn [Table.rows Table.mode Table.columns
                                               Table.totalRows Table.yearTotals].
    + split_and!; try done. apply filtered_Permutation.
      unfold sortedTopicRows. rewrite !sort_Permutation. by rewrite Hi, Hy.
    + split_and!; try done. apply filtered_Permutation.
      unfold sortedDocRows. by rewrite !sort_Permutation.
Qed.



(** ** Text helpers *)

Lemma rev_reverse {A : Type} (l : list A) : List.rev l = reverse l.
Proof. unfold reverse. apply rev_alt. Qed.

Lemma trimStart_head (s : list ascii) (c : ascii) :
  head (StringToNumber.trimStart s) = Some c → StringToNumber.isWhiteSpace c = false.
Proof.
  induction s as [|d s IH]; simpl; [done|].
  destruct (StringToNumber.isWhiteSpace d) eqn:Hd; [done|].
  simpl. by intros [= <-].
Qed.

Lemma trimStart_fixed (s : list ascii) :
  (∀ c, head s = Some c → StringToNumber.isWhiteSpace c = false) →
  StringToNumber.trimStart s = s.
Proof.
  destruct s as [|d s]; simpl; [done|]. intros H. by rewrite (H d).
Qed.

Lemma trimStart_last (s : list ascii) (c : ascii) :
  (∀ c, last s = Some c → StringToNumber.isWhiteSpace c = false) →
  last (StringToNumber.trimStart s) = Some c → StringToNumber.isWhiteSpace c = false.
Proof.
  induction s as [|d s IH]; simpl; [done|].
  intros Hlast. destruct (StringToNumber.isWhiteSpace d) eqn:Hd.
  - apply IH. intros e He. apply Hlast. destruct s; [done|]. by rewrite last_cons, He.
  - apply Hlast.
Qed.

Lemma trimStart_split (s : list ascii) :
  ∃ white, s = white ++ StringToNumber.trimStart s
           ∧ Forall (fun c => StringToNumber.isWhiteSpace c = true) white.
Proof.
  induction s as [|d s (white & IH & Hwhite)]; simpl; [by exists []|].
  destruct (StringToNumber.isWhiteSpace d) eqn:Hd; [|by exists []].
  exists (d :: white). split; [by rewrite IH at 1|by constructor].
Qed.

Lemma trimStart_white (white s : list ascii) :
  Forall (fun c => StringToNumber.isWhiteSpace c = true) white →
  StringToNumber.trimStart (white ++ s) = StringToNumber.trimStart s.
Proof. induction 1 as [|c white Hc _ IH]; simpl; [done|]. by rewrite Hc. Qed.

Lemma trim_trimmed (s : list ascii) : trimmed (JsString.trim s).
Proof.
  unfold JsString.trim, StringToNumber.trim. rewrite !rev_reverse. split.
  - intros c. rewrite head_reverse. apply trimStart_last.
    intros d. rewrite last_reverse. apply trimStart_head.
  - intros c. rewrite last_reverse. apply trimStart_head.
Qed.

Lemma trimmed_trim (s : list ascii) : trimmed s → JsString.trim s = s.
Proof.
  intros [Hhead Hlast]. unfold JsString.trim, StringToNumber.trim.
  rewrite (trimStart_fixed s Hhead), !rev_reverse, trimStart_fixed.
  - apply reverse_involutive.
  - intros c. rewrite head_reverse. apply Hlast.
Qed.

Lemma trim_idempotent (s : list ascii) : JsString.trim (JsString.trim s) = JsString.trim s.
Proof. apply trimmed_trim, trim_trimmed. Qed.

Lemma trim_split (s : list ascii) :
  ∃ before after, s = before ++ JsString.trim s ++ after
    ∧ Forall (fun c => StringToNumber.isWhiteSpace c = true) before
    ∧ Forall (fun c => StringToNumber.isWhiteSpace c = true) after.
Proof.
  unfold JsString.trim, StringToNumber.trim. rewrite !rev_reverse.
  destruct (trimStart_split s) as (before & Hs & Hbefore).
  destruct (trimStart_split (reverse (StringToNumber.trimStart s)))
    as (after & Ha & Hafter).
  exists before, (reverse after). split_and!; [|done|by apply Forall_reverse].
  rewrite <- reverse_app, <- Ha, reverse_involutive. exact Hs.
Qed.

Lemma trim_Forall (P : ascii → Prop) (s : list ascii) :
  Forall P s → Forall P (JsString.trim s).
Proof.
  destruct (trim_split s) as (before & after & Hs & _). rewrite Hs at 1.
  rewrite !Forall_app. tauto.
Qed.

Lemma trim_white (white s : list ascii) :
  Forall (fun c => StringToNumber.isWhiteSpace c = true) white →
  JsString.trim (white ++ s) = JsString.trim s.
Proof.
  intros H. unfold JsString.trim, StringToNumber.trim. by rewrite trimStart_white.
Qed.

Lemma truthy_nonempty (s : list ascii) : JsString.truthy s = true ↔ s ≠ [].
Proof. by destruct s. Qed.
(** *** Word lists *)

Lemma splitRuns_cons (isSeparator : ascii → bool) (inRun : bool) (s : list ascii) :
  ∃ piece pieces, JsString.splitRuns isSeparator inRun s = piece :: pieces.
Proof.
  revert inRun. induction s as [|c s IH]; intros inRun; simpl; [by eexists _, _|].
  destruct (isSeparator c).
  - destruct inRun; [apply IH|by eexists _, _].
  - destruct (IH false) as (piece & pieces & ->). by eexists _, _.
Qed.

Lemma splitRuns_pieces (isSeparator : ascii → bool) (inRun : bool) (s : list ascii) :
  Forall (Forall (fun c => isSeparator c = false))
    (JsString.splitRuns isSeparator inRun s).
Proof.
  revert inRun. induction s as [|c s IH]; intros inRun; simpl.
  - by repeat constructor.
  - destruct (isSeparator c) eqn:Hc.
    + destruct inRun; [apply IH|]. constructor; [constructor|apply IH].
    + specialize (IH false).
      destruct (JsString.splitRuns isSeparator false s) as [|piece pieces]; simpl.
      * by repeat constructor.
      * inversion IH; subst. by repeat constructor.
Qed.

Lemma splitRuns_word (isSeparator : ascii → bool) (inRun : bool)
    (word rest : list ascii) :
  Forall (fun c => isSeparator c = false) word → word ≠ [] →
  JsString.splitRuns isSeparator inRun (word ++ rest)
  = (word ++ hd [] (JsString.splitRuns isSeparator false rest))
      :: tl (JsString.splitRuns isSeparator false rest).
Proof.
  intros Hword. revert inRun.
  induction Hword as [|c word Hc Hword IH]; intros inRun Hne; [done|].
  simpl. rewrite Hc. destruct word as [|d word].
  - simpl. by destruct (splitRuns_cons isSeparator false rest) as (? & ? & ->).
  - by rewrite (IH false).
Qed.

Lemma parseWordList_join (words : list (list ascii)) :
  Forall (fun word => word ≠ [] ∧ trimmed word
                      ∧ Forall (fun c => isWordSeparator c = false) word) words →
  words ≠ [] →
  ∀ (before : list ascii) (inRun : bool),
    Forall (fun c => StringToNumber.isWhiteSpace c = true) before →
    Forall (fun c => isWordSeparator c = false) before →
    List.filter JsString.truthy
      (JsString.trim <$> JsString.splitRuns isWordSeparator inRun
         (before ++ JsString.join (list_ascii_of_string ", ") words))
    = words.
Proof.
  induction 1 as [|word words (Hne & Htrim & Hword) _ IH]; [done|].
  intros _ before inRun Hwhite Hbefore.
  assert (Hhead : JsString.trim (before ++ word) = word).
  { rewrite trim_white by done. by apply trimmed_trim. }
  assert (Htruthy : JsString.truthy word = true) by (by apply truthy_nonempty).
  destruct words as [|word' words].
  - cbn [JsString.join]. rewrite <- (app_nil_r (before ++ word)).
    rewrite splitRuns_word; [|by apply Forall_app|by destruct before, word].
    cbn. rewrite app_nil_r. change (StringToNumber.trim ?s) with (JsString.trim s).
    by rewrite Hhead, Htruthy.
  - cbn [JsString.join]. rewrite (app_assoc before).
    rewrite splitRuns_word; [|by apply Forall_app|by destruct before, word].
    cbn [list_ascii_of_string app JsString.splitRuns hd tl].
    change (isWordSeparator ","%char) with true. cbn iota.
    rewrite app_nil_r, fmap_cons. cbn [List.filter]. rewrite Hhead, Htruthy.
    f_equal.
    apply (IH ltac:(done) [JsString.space] true); by repeat constructor.
Qed.

(** X17. The words read from a word list are not empty, neither start nor
    end with white space and contain no comma, semicolon or line break; and
    writing them back with [", "] between them, as the import of a word-bag
    file does for the text field, reads as the same words again. *)
Theorem parseWordList_round_trip (value : list ascii) :
  let words := parseWordList value in
  Forall (fun word => word ≠ [] ∧ trimmed word
                      ∧ Forall (fun c => isWordSeparator c = false) word) words
  ∧ parseWordList (JsString.join (list_ascii_of_string ", ") words) = words.
Proof.
  intros words.
  assert (Hwords : Forall (fun word => word ≠ [] ∧ trimmed word
                      ∧ Forall (fun c => isWordSeparator c = false) word) words).
  { apply Forall_forall. intros word Hin. unfold words, parseWordList in Hin.
    apply list_elem_of_In, filter_In in Hin as [Hin Htruthy].
    apply list_elem_of_In, list_elem_of_fmap in Hin as (piece & -> & Hin).
    split_and!.
    - by apply truthy_nonempty.
    - apply trim_trimmed.
    - apply trim_Forall.
      by eapply (proj1 (Forall_forall _ _) (splitRuns_pieces _ _ _)). }
  split; [exact Hwords|].
  destruct (decide (words = [])) as [->|Hne]; [done|].
  by apply (parseWordList_join words Hwords Hne [] false).
Qed.
(** *** CSV lines *)

Lemma parseDelimitedLineFrom_quoted (delimiter : list ascii) (cell : list ascii) :
  ∀ (values : list (list ascii)) (current rest : list ascii),
    head rest ≠ Some JsString.quote →
    parseDelimitedLineFrom delimiter values current true
      ((cell ≫= fun c => if decide (c = JsString.quote)
                          then [JsString.quote; JsString.quote] else [c])
       ++ JsString.quote :: rest)
    = parseDelimitedLineFrom delimiter values (current ++ cell) false rest.
Proof.
  induction cell as [|c cell IH]; intros values current rest Hrest.
  - cbn. rewrite app_nil_r. destruct rest as [|next rest]; [done|].
    rewrite bool_decide_eq_false_2; [done|]. intros ->. by apply Hrest.
  - cbn [mbind list_bind]. destruct (decide (c = JsString.quote)) as [->|Hc].
    + cbn. fold (@mbind list _ ascii ascii). rewrite IH by done.
      by rewrite <- app_assoc.
    + cbn [app parseDelimitedLineFrom]. rewrite decide_False by done.
      rewrite andb_false_r, IH by done. by rewrite <- app_assoc.
Qed.

Lemma parseDelimitedLineFrom_plain (delimiter : list ascii) (cell : list ascii) :
  ∀ (values : list (list ascii)) (current rest : list ascii),
    Forall (fun c => c ≠ JsString.quote ∧ [c] ≠ delimiter) cell →
    parseDelimitedLineFrom delimiter values current false (cell ++ rest)
    = parseDelimitedLineFrom delimiter values (current ++ cell) false rest.
Proof.
  induction cell as [|c cell IH]; intros values current rest Hcell.
  - by rewrite app_nil_r.
  - inversion Hcell as [|? ? [Hq Hd] Hcell']; subst.
    cbn [app parseDelimitedLineFrom]. rewrite decide_False by done.
    rewrite bool_decide_eq_false_2 by done. cbn [andb].
    rewrite IH by done. by rewrite <- app_assoc.
Qed.

Lemma bind_without_quote (cell : list ascii) :
  JsString.quote ∉ cell →
  (cell ≫= fun c => if decide (c = JsString.quote)
                     then [JsString.quote; JsString.quote] else [c]) = cell.
Proof.
  induction cell as [|c cell IH]; [done|]. rewrite not_elem_of_cons. intros [Hc Hcell].
  cbn [mbind list_bind]. rewrite decide_False by done.
  fold (@mbind list _ ascii ascii). by rewrite IH.
Qed.

Lemma parseDelimitedLineFrom_escaped (cell : list ascii)
    (values : list (list ascii)) (current rest : list ascii) :
  head rest ≠ Some JsString.quote →
  parseDelimitedLineFrom [JsString.comma] values current false
    (escapeCsvValue cell ++ rest)
  = parseDelimitedLineFrom [JsString.comma] values (current ++ cell) false rest.
Proof.
  intros Hrest. unfold escapeCsvValue. case_bool_decide as Hquote.
  - rewrite <- !app_assoc. cbn [app parseDelimitedLineFrom].
    rewrite decide_True by done.
    transitivity (parseDelimitedLineFrom [JsString.comma] values current true
                    ((cell ≫= fun c => if decide (c = JsString.quote)
                                        then [JsString.quote; JsString.quote] else [c])
                     ++ JsString.quote :: rest)).
    { by destruct (_ ++ _). }
    by apply parseDelimitedLineFrom_quoted.
  - destruct (existsb _ cell) eqn:Hsep.
    + rewrite <- !app_assoc. cbn [app parseDelimitedLineFrom].
      rewrite decide_True by done.
      transitivity (parseDelimitedLineFrom [JsString.comma] values current true
                      (cell ++ JsString.quote :: rest)).
      { by destruct (_ ++ _). }
      rewrite <- (bind_without_quote cell Hquote) at 1.
      by apply parseDelimitedLineFrom_quoted.
    + apply parseDelimitedLineFrom_plain. apply Forall_forall. intros c Hc.
      split; [by intros ->|]. intros [= ->].
      assert (Hex : existsb (fun c => bool_decide (c = JsString.comma)
                                      || bool_decide (c = JsString.newline)) cell = true).
      { apply existsb_exists. exists JsString.comma. split; [by apply list_elem_of_In|done]. }
      congruence.
Qed.

Lemma parseDelimitedLineFrom_row (row : list (list ascii)) :
  row ≠ [] →
  ∀ values,
    parseDelimitedLineFrom [JsString.comma] values [] false
      (JsString.join [JsString.comma] (escapeCsvValue <$> row))
    = values ++ (JsString.trim <$> row).
Proof.
  induction row as [|cell row IH]; [done|]. intros _ values.
  destruct row as [|cell' row].
  - cbn [fmap list_fmap JsString.join].
    rewrite <- (app_nil_r (escapeCsvValue cell)).
    by rewrite parseDelimitedLineFrom_escaped.
  - change (JsString.join [JsString.comma] (escapeCsvValue <$> cell :: cell' :: row))
      with (escapeCsvValue cell
            ++ JsString.comma
               :: JsString.join [JsString.comma] (escapeCsvValue <$> cell' :: row)).
    rewrite parseDelimitedLineFrom_escaped by done.
    cbn [app parseDelimitedLineFrom]. rewrite decide_False by done.
    rewrite bool_decide_eq_true_2 by done. cbn [andb negb].
    rewrite IH by done. by rewrite <- app_assoc.
Qed.

(** X18. A line of the exported CSV reads back as the cells it was written
    from, each with the white space at its ends removed: [parseDelimitedLine]
    with the comma undoes the escaping and joining of [downloadCsv], for any
    row with at least one cell. *)
Theorem csv_line_round_trip (row : list (list ascii)) :
  row ≠ [] →
  parseDelimitedLine (JsString.join [JsString.comma] (escapeCsvValue <$> row))
    [JsString.comma]
  = JsString.trim <$> row.
Proof. intros Hrow. unfold parseDelimitedLine. by rewrite parseDelimitedLineFrom_row. Qed.

Lemma csv_line_round_trip_witness :
  let row := [list_ascii_of_string "a,b"; JsString.quote :: list_ascii_of_string " x";
              list_ascii_of_string " 12 "] in
  row ≠ []
  ∧ parseDelimitedLine (JsString.join [JsString.comma] (escapeCsvValue <$> row))
      [JsString.comma]
    = [list_ascii_of_string "a,b"; JsString.quote :: list_ascii_of_string " x";
       list_ascii_of_string "12"].
Proof.
  intros row.
  assert (Hrow : row ≠ []) by (intros H; discriminate H).
  split; [exact Hrow|]. exact (csv_line_round_trip row Hrow).
Defined.
(** *** Lines of a file *)

Lemma splitLines_single (line : list ascii) :
  JsString.newline ∉ line → JsString.splitLines line = [line].
Proof.
  induction line as [|c line IH]; [done|]. rewrite not_elem_of_cons. intros [Hc Hline].
  cbn [JsString.splitLines]. rewrite decide_False by done.
  destruct (decide (c = JsString.carriageReturn)) as [->|_].
  - destruct line as [|next line]; [done|].
    rewrite decide_False by (intros ->; apply Hline; left).
    by rewrite IH.
  - by rewrite IH.
Qed.

Lemma splitLines_line (line rest : list ascii) :
  JsString.newline ∉ line → last line ≠ Some JsString.carriageReturn →
  JsString.splitLines (line ++ JsString.newline :: rest)
  = line :: JsString.splitLines rest.
Proof.
  induction line as [|c line IH].
  - intros _ _. cbn [app JsString.splitLines]. by rewrite decide_True.
  - rewrite not_elem_of_cons. intros [Hc Hline] Hlast.
    assert (Htail : last line ≠ Some JsString.carriageReturn).
    { destruct line; [done|]. by rewrite last_cons_cons in Hlast. }
    cbn [app JsString.splitLines]. rewrite decide_False by done.
    destruct (decide (c = JsString.carriageReturn)) as [->|_].
    + destruct line as [|next line]; [done|].
      cbn [app]. rewrite decide_False by (intros ->; apply Hline; left).
      change (next :: line ++ JsString.newline :: rest)
        with ((next :: line) ++ JsString.newline :: rest).
      by rewrite IH.
    + by rewrite IH.
Qed.

Lemma splitLines_join (lines : list (list ascii)) :
  lines ≠ [] →
  Forall (fun line => (JsString.newline ∉ line)
                      ∧ last line ≠ Some JsString.carriageReturn) lines →
  JsString.splitLines (JsString.join [JsString.newline] lines) = lines.
Proof.
  intros Hne Hlines. induction Hlines as [|line lines [Hline Hlast] _ IH]; [done|].
  destruct lines as [|line' lines].
  - by apply splitLines_single.
  - change (JsString.join [JsString.newline] (line :: line' :: lines))
      with (line ++ JsString.newline :: JsString.join [JsString.newline] (line' :: lines)).
    rewrite splitLines_line by done. by rewrite IH.
Qed.

Lemma join_Forall (P : ascii → Prop) (separator : list ascii)
    (pieces : list (list ascii)) :
  Forall P separator → Forall (Forall P) pieces →
  Forall P (JsString.join separator pieces).
Proof.
  intros Hsep. induction 1 as [|piece pieces Hpiece Hpieces IH]; [constructor|].
  destruct pieces as [|piece' pieces]; [done|].
  change (JsString.join separator (piece :: piece' :: pieces))
    with (piece ++ separator ++ JsString.join separator (piece' :: pieces)).
  rewrite !Forall_app. by split_and!.
Qed.

Lemma escapeCsvValue_Forall (P : ascii → Prop) (cell : list ascii) :
  P JsString.quote → Forall P cell → Forall P (escapeCsvValue cell).
Proof.
  intros Hquote Hcell. unfold escapeCsvValue. case_bool_decide.
  - rewrite !Forall_app. split_and!; [by repeat constructor| |by repeat constructor].
    apply Forall_bind. eapply Forall_impl; [exact Hcell|].
    intros c Hc. simpl. destruct (decide (c = JsString.quote)); by repeat constructor.
  - destruct (existsb _ cell); [|done].
    rewrite !Forall_app. split_and!; by repeat constructor.
Qed.

Lemma Forall_last {A : Type} (P : A → Prop) (l : list A) (x : A) :
  Forall P l → last l = Some x → P x.
Proof.
  intros Hl Hx. apply last_Some in Hx as [l' ->].
  apply Forall_app in Hl as [_ Hl]. by inversion Hl.
Qed.

(** X19. The exported file, split into lines and each line read with the
    comma as delimiter, gives back the rows it was written from, each cell
    with the white space at its ends removed, when there is at least one row,
    every row has at least one cell and no cell contains a line break. *)
Theorem csv_file_round_trip (rows : list (list (list ascii))) :
  rows ≠ [] →
  Forall (fun row =>
            row ≠ []
            ∧ Forall (Forall (fun c => c ≠ JsString.newline
                                       ∧ c ≠ JsString.carriageReturn)) row) rows →
  (fun line => parseDelimitedLine line [JsString.comma])
    <$> JsString.splitLines (downloadCsv rows)
  = fmap JsString.trim <$> rows.
Proof.
  intros Hne Hrows. unfold downloadCsv. rewrite splitLines_join.
  - rewrite <- list_fmap_compose. apply Forall_fmap_ext.
    eapply Forall_impl; [exact Hrows|]. intros row [Hrow _]. simpl.
    unfold parseDelimitedLine. by rewrite parseDelimitedLineFrom_row.
  - by destruct rows.
  - apply Forall_fmap. eapply Forall_impl; [exact Hrows|]. intros row [_ Hcells]. simpl.
    assert (Hline : Forall (fun c => c ≠ JsString.newline ∧ c ≠ JsString.carriageReturn)
                      (JsString.join [JsString.comma] (escapeCsvValue <$> row))).
    { apply join_Forall; [by repeat constructor|].
      apply Forall_fmap. eapply Forall_impl; [exact Hcells|]. intros cell Hcell. simpl.
      by apply escapeCsvValue_Forall. }
    split.
    + intros Hin. by destruct (proj1 (Forall_forall _ _) Hline _ Hin) as [? _].
    + intros Hlast. by destruct (Forall_last _ _ _ Hline Hlast) as [_ ?].
Qed.

Lemma csv_file_round_trip_witness :
  let rows := [[list_ascii_of_string "vektor"; list_ascii_of_string "sum"];
               [list_ascii_of_string "war, peace"; list_ascii_of_string "3"]] in
  (fun line => parseDelimitedLine line [JsString.comma])
    <$> JsString.splitLines (downloadCsv rows)
  = rows.
Proof.
  intros rows.
  assert (Hne : rows ≠ []) by (intros H; discriminate H).
  assert (Hrows : Forall (fun row =>
            row ≠ []
            ∧ Forall (Forall (fun c => c ≠ JsString.newline
                                       ∧ c ≠ JsString.carriageReturn)) row) rows).
  { repeat (constructor; try (intros H; discriminate H)). }
  exact (csv_file_round_trip rows Hne Hrows).
Defined.

(** *** The delimiter of a header line *)

Lemma split_cons (isSeparator : ascii → bool) (s : list ascii) :
  ∃ piece pieces, JsString.split isSeparator s = piece :: pieces.
Proof.
  induction s as [|c s (piece & pieces & IH)]; simpl; [by eexists _, _|].
  destruct (isSeparator c); [by eexists _, _|]. rewrite IH. by eexists _, _.
Qed.

Lemma split_length (isSeparator : ascii → bool) (s : list ascii) :
  length (JsString.split isSeparator s) = S (length (List.filter isSeparator s)).
Proof.
  induction s as [|c s IH]; simpl; [done|].
  destruct (isSeparator c); simpl; [by rewrite IH|].
  destruct (split_cons isSeparator s) as (piece & pieces & Hs).
  by rewrite Hs in *.
Qed.

Lemma detectDelimiter_cases (line : list ascii) :
  let count delimiter := occurrences [delimiter] line in
  (detectDelimiter line = [JsString.comma]
   ∧ (count JsString.semicolon ≤ count JsString.comma)%nat
   ∧ (count JsString.tab ≤ count JsString.comma)%nat)
  ∨ (detectDelimiter line = [JsString.semicolon]
     ∧ (count JsString.comma < count JsString.semicolon)%nat
     ∧ (count JsString.tab ≤ count JsString.semicolon)%nat)
  ∨ (detectDelimiter line = [JsString.tab]
     ∧ (count JsString.comma < count JsString.tab)%nat
     ∧ (count JsString.semicolon < count JsString.tab)%nat).
Proof.
  intros count. unfold detectDelimiter, candidates. cbn [foldl].
  cbv beta iota zeta. rewrite !split_length.
  change (length (List.filter (fun c => bool_decide ([c] = [?d])) line))
    with (count d).
  change (0 <? S (count JsString.comma))%nat with true. cbv beta iota.
  destruct (S (count JsString.comma) <? _)%nat eqn:H1; cbv beta iota;
    rewrite ?split_length in *;
    change (length (List.filter (fun c => bool_decide ([c] = [?d])) line))
      with (count d) in *.
  - apply Nat.ltb_lt in H1.
    destruct (S (count JsString.semicolon) <? S (count JsString.tab))%nat eqn:H2.
    + apply Nat.ltb_lt in H2. right; right. split_and!; [done|lia..].
    + apply Nat.ltb_ge in H2. right; left. split_and!; [done|lia..].
  - apply Nat.ltb_ge in H1.
    destruct (S (count JsString.comma) <? S (count JsString.tab))%nat eqn:H2.
    + apply Nat.ltb_lt in H2. right; right. split_and!; [done|lia..].
    + apply Nat.ltb_ge in H2. left. split_and!; [done|lia..].
Qed.

(** X20. The delimiter detected for a header line is the comma, the
    semicolon or the tab that occurs most often in it; when several occur
    equally often the comma wins over both others and the semicolon over
    the tab. *)
Theorem detectDelimiter_most_frequent (line : list ascii) :
  let best := detectDelimiter line in
  best ∈ candidates
  ∧ (∀ delimiter, delimiter ∈ candidates →
       (occurrences delimiter line ≤ occurrences best line)%nat)
  ∧ (occurrences [JsString.comma] line = occurrences best line
     → best = [JsString.comma])
  ∧ (occurrences [JsString.semicolon] line = occurrences best line
     → best ≠ [JsString.tab]).
Proof.
  intros best. unfold best, candidates.
  destruct (detectDelimiter_cases line) as [(-> & H1 & H2)|[(-> & H1 & H2)|(-> & H1 & H2)]];
    (split_and!;
     [ set_solver
     | intros d Hd; repeat (apply elem_of_cons in Hd as [->|Hd]); [lia..|by apply elem_of_nil in Hd]
     | intros; first [done|lia]
     | intros; first [done|lia] ]).
Qed.

Lemma parseDelimitedLineFrom_unquoted (delimiter : list ascii) (rest : list ascii) :
  ∀ (values : list (list ascii)) (current : list ascii),
    JsString.quote ∉ rest →
    parseDelimitedLineFrom delimiter values current false rest
    = values
      ++ (JsString.trim
            <$> match JsString.split (fun c => bool_decide ([c] = delimiter)) rest with
                | piece :: pieces => (current ++ piece) :: pieces
                | [] => [current]
                end).
Proof.
  induction rest as [|c rest IH]; intros values current Hquote.
  - cbn. by rewrite app_nil_r.
  - apply not_elem_of_cons in Hquote as [Hc Hrest].
    cbn [parseDelimitedLineFrom JsString.split].
    rewrite decide_False by (by intros ->).
    destruct (split_cons (fun c => bool_decide ([c] = delimiter)) rest)
      as (piece & pieces & Hsplit).
    rewrite Hsplit in IH |- *.
    destruct (bool_decide ([c] = delimiter)); cbn [andb negb JsString.prepend].
    + rewrite (IH (values ++ [JsString.trim current]) [] Hrest).
      rewrite app_nil_r, <- app_assoc. done.
    + rewrite (IH values (current ++ [c]) Hrest). by rewrite <- app_assoc.
Qed.

(** X21. On a line without double quotes, [parseDelimitedLine] gives the
    trimmed pieces between the delimiters; so the delimiter detected for such
    a header line is one that gives the most columns among the three
    candidates. *)
Theorem unquoted_line_fields (line : list ascii) :
  JsString.quote ∉ line →
  (∀ delimiter,
     parseDelimitedLine line delimiter
     = JsString.trim <$> JsString.split (fun c => bool_decide ([c] = delimiter)) line)
  ∧ (∀ delimiter, delimiter ∈ candidates →
       (length (parseDelimitedLine line delimiter)
        ≤ length (parseDelimitedLine line (detectDelimiter line)))%nat).
Proof.
  intros Hquote.
  assert (Hfields : ∀ delimiter,
     parseDelimitedLine line delimiter
     = JsString.trim <$> JsString.split (fun c => bool_decide ([c] = delimiter)) line).
  { intros delimiter. unfold parseDelimitedLine.
    rewrite parseDelimitedLineFrom_unquoted by done.
    by destruct (split_cons (fun c => bool_decide ([c] = delimiter)) line)
      as (piece & pieces & ->). }
  split; [exact Hfields|]. intros delimiter Hd.
  rewrite !Hfields, !length_fmap, !split_length.
  change (length (List.filter (fun c => bool_decide ([c] = ?d)) line))
    with (occurrences d line).
  unfold candidates in Hd.
  destruct (detectDelimiter_cases line) as [(-> & H1 & H2)|[(-> & H1 & H2)|(-> & H1 & H2)]];
    repeat (apply elem_of_cons in Hd as [->|Hd]); try lia; by apply elem_of_nil in Hd.
Qed.

Lemma unquoted_line_fields_witness :
  let line := list_ascii_of_string "urn; title, subtitle; year" in
  (JsString.quote ∉ line)
  ∧ parseDelimitedLine line (detectDelimiter line)
    = list_ascii_of_string <$> ["urn"; "title, subtitle"; "year"]%string.
Proof.
  intros line.
  assert (Hquote : JsString.quote ∉ line).
  { apply (bool_decide_unpack _). vm_compute. exact I. }
  split; [exact Hquote|].
  exact (proj1 (unquoted_line_fields line Hquote) (detectDelimiter line)).
Defined.
(** *** URN lists *)

Lemma unique_step {A : Type} `{EqDecision A} (seen l : list A) :
  NoDup seen →
  let result :=
    foldl (fun seen s => if decide (s ∈ seen) then seen else seen ++ [s]) seen l in
  NoDup result ∧ (∀ s, s ∈ result ↔ s ∈ seen ∨ s ∈ l)
  ∧ (NoDup (seen ++ l) → result = seen ++ l).
Proof.
  revert seen. induction l as [|s l IH]; intros seen Hseen; cbn [foldl].
  - split_and!; [done| |by rewrite app_nil_r].
    intros s. rewrite elem_of_nil. tauto.
  - destruct (decide (s ∈ seen)) as [Hin|Hout].
    + destruct (IH seen Hseen) as (Hnd & Hiff & Hid). split_and!; [done| |].
      * intros t. rewrite Hiff, elem_of_cons. split; [tauto|].
        intros [?|[->|?]]; tauto.
      * intros Hall. apply NoDup_app in Hall as (_ & Hsep & _).
        exfalso. apply (Hsep s Hin). left.
    + assert (Hseen' : NoDup (seen ++ [s])).
      { apply NoDup_app. split_and!; [done| |apply NoDup_singleton].
        intros t Ht Hts. apply list_elem_of_singleton in Hts as ->. by apply Hout. }
      destruct (IH (seen ++ [s]) Hseen') as (Hnd & Hiff & Hid). split_and!; [done| |].
      * intros t. rewrite Hiff, elem_of_app, list_elem_of_singleton, elem_of_cons. tauto.
      * rewrite <- app_assoc in Hid. exact Hid.
Qed.

Lemma unique_spec {A : Type} `{EqDecision A} (l : list A) :
  NoDup (JsString.unique l) ∧ (∀ s, s ∈ JsString.unique l ↔ s ∈ l)
  ∧ (NoDup l → JsString.unique l = l).
Proof.
  destruct (unique_step [] l (NoDup_nil_2)) as (Hnd & Hiff & Hid).
  split_and!; [done| |done]. intros s. unfold JsString.unique.
  rewrite Hiff, elem_of_nil. tauto.
Qed.

Lemma split_pieces (isSeparator : ascii → bool) (s : list ascii) :
  Forall (Forall (fun c => isSeparator c = false)) (JsString.split isSeparator s).
Proof.
  induction s as [|c s IH]; simpl; [by repeat constructor|].
  destruct (isSeparator c) eqn:Hc; [by repeat constructor|].
  destruct (JsString.split isSeparator s) as [|piece pieces]; simpl.
  - by repeat constructor.
  - inversion IH; subst. by repeat constructor.
Qed.

Lemma split_Forall (P : ascii → Prop) (isSeparator : ascii → bool) (s : list ascii) :
  Forall P s → Forall (Forall P) (JsString.split isSeparator s).
Proof.
  induction 1 as [|c s Hc Hs IH]; simpl; [by repeat constructor|].
  destruct (isSeparator c); [by repeat constructor|].
  destruct (JsString.split isSeparator s) as [|piece pieces]; simpl.
  - by repeat constructor.
  - inversion IH; subst. by repeat constructor.
Qed.

Lemma split_single (isSeparator : ascii → bool) (s : list ascii) :
  Forall (fun c => isSeparator c = false) s → JsString.split isSeparator s = [s].
Proof. induction 1 as [|c s Hc _ IH]; simpl; [done|]. by rewrite Hc, IH. Qed.

Lemma splitLines_pieces (n : nat) (s : list ascii) :
  (length s ≤ n)%nat →
  Forall (Forall (fun c => c ≠ JsString.newline)) (JsString.splitLines s).
Proof.
  revert s. induction n as [|n IH]; intros s Hn.
  { destruct s; [by repeat constructor|simpl in Hn; lia]. }
  assert (Hprepend : ∀ c pieces, c ≠ JsString.newline →
            Forall (Forall (fun c => c ≠ JsString.newline)) pieces →
            Forall (Forall (fun c => c ≠ JsString.newline)) (JsString.prepend c pieces)).
  { intros c [|piece pieces] Hc Hpieces; simpl; [by repeat constructor|].
    inversion Hpieces; subst. by repeat constructor. }
  destruct s as [|c s]; [by repeat constructor|]. simpl in Hn.
  cbn [JsString.splitLines]. destruct (decide (c = JsString.newline)) as [->|Hc].
  - constructor; [constructor|apply IH; lia].
  - destruct (decide (c = JsString.carriageReturn)) as [->|_].
    + destruct s as [|next s]; [by repeat constructor|]. simpl in Hn.
      destruct (decide (next = JsString.newline)) as [->|Hnext].
      * constructor; [constructor|apply IH; lia].
      * apply Hprepend; [done|apply IH; simpl; lia].
    + apply Hprepend; [done|apply IH; lia].
Qed.

Lemma isUrn_nonempty (token : list ascii) : isUrn token = true → token ≠ [].
Proof. intros H ->. vm_compute in H. discriminate H. Qed.

Lemma corpusLine_Some (line urn : list ascii) :
  corpusLine line = Some urn →
  urn ≠ [] ∧ trimmed urn
  ∧ ((urn = JsString.trim line
      ∧ List.find isUrn (JsString.trim <$> JsString.split isTokenSeparator
                                              (JsString.trim line)) = None)
     ∨ (isUrn urn = true
        ∧ urn ∈ JsString.trim <$> JsString.split isTokenSeparator (JsString.trim line))).
Proof.
  unfold corpusLine. destruct (JsString.truthy (JsString.trim line)) eqn:Htruthy; [|done].
  destruct (List.find isUrn _) as [token|] eqn:Hfind; cbn [default from_option id];
    intros [= <-].
  - apply find_some in Hfind as [Hin Hurn]. apply list_elem_of_In in Hin.
    split_and!; [by apply isUrn_nonempty| |by right].
    apply list_elem_of_fmap in Hin as (piece & -> & _). apply trim_trimmed.
  - split_and!; [by apply truthy_nonempty|apply trim_trimmed|by left].
Qed.

Lemma corpusLine_fixed (line urn : list ascii) :
  corpusLine line = Some urn → corpusLine urn = Some urn.
Proof.
  intros Hline. destruct (corpusLine_Some line urn Hline) as (Hne & Htrim & Hcases).
  unfold corpusLine. rewrite (trimmed_trim urn Htrim).
  rewrite (proj2 (truthy_nonempty urn) Hne). f_equal.
  destruct Hcases as [[-> Hnone]|[Hurn Hin]].
  - by rewrite Hnone.
  - apply list_elem_of_fmap in Hin as (piece & Hpiece & Hin).
    assert (Hplain : Forall (fun c => isTokenSeparator c = false) urn).
    { rewrite Hpiece. apply trim_Forall.
      by eapply (proj1 (Forall_forall _ _) (split_pieces _ _)). }
    rewrite (split_single _ _ Hplain). cbn [fmap list_fmap List.find].
    by rewrite (trimmed_trim urn Htrim), Hurn.
Qed.

Lemma omap_fixed {A : Type} (f : A → option A) (l : list A) :
  Forall (fun x => f x = Some x) l → omap f l = l.
Proof. induction 1 as [|x l Hx _ IH]; [done|]. cbn. by rewrite Hx, IH. Qed.

Lemma parseCorpusText_spec (text : list ascii) :
  NoDup (parseCorpusText text)
  ∧ (length (parseCorpusText text) ≤ MAX_CORPUS)%nat
  ∧ (∀ urn, urn ∈ parseCorpusText text →
       ∃ line, line ∈ JsString.splitLines text ∧ corpusLine line = Some urn).
Proof.
  unfold parseCorpusText.
  destruct (unique_spec (omap corpusLine (JsString.splitLines text)))
    as (Hnd & Hiff & _).
  split_and!.
  - rewrite <- (take_drop MAX_CORPUS (JsString.unique _)) in Hnd.
    by apply NoDup_app in Hnd as [? _].
  - rewrite length_take. lia.
  - intros urn Hin. apply elem_of_take in Hin as (i & Hin & _).
    apply list_elem_of_lookup_2, Hiff, list_elem_of_omap in Hin. exact Hin.
Qed.

(** X22. The URN list read from a text file has no duplicates and at most
    50000 entries; every entry is not empty, neither starts nor ends with
    white space and contains no line feed, and it is either a whole trimmed
    line of the text or a field of such a line that starts with [URN:] in
    any letter case. *)
Theorem parseCorpusText_entries (text : list ascii) :
  NoDup (parseCorpusText text)
  ∧ Z.of_nat (length (parseCorpusText text)) ≤ 50000
  ∧ (∀ urn, urn ∈ parseCorpusText text →
       urn ≠ [] ∧ trimmed urn ∧ (JsString.newline ∉ urn)
       ∧ ∃ line, line ∈ JsString.splitLines text
           ∧ (urn = JsString.trim line
              ∨ (isUrn urn = true
                 ∧ urn ∈ JsString.trim
                     <$> JsString.split isTokenSeparator (JsString.trim line)))).
Proof.
  destruct (parseCorpusText_spec text) as (Hnd & Hlen & Hfrom).
  split_and!; [done| |].
  - unfold MAX_CORPUS in Hlen. lia.
  - intros urn Hin. destruct (Hfrom urn Hin) as (line & Hline & Hurn).
    destruct (corpusLine_Some line urn Hurn) as (Hne & Htrim & Hcases).
    assert (Hplain : Forall (fun c => c ≠ JsString.newline) line).
    { by eapply (proj1 (Forall_forall _ _) (splitLines_pieces _ text (le_n _))). }
    split_and!; [done|done| |].
    + intros Hnl. destruct Hcases as [[-> _]|[_ Htoken]].
      * by eapply (proj1 (Forall_forall _ _) (trim_Forall _ _ Hplain)).
      * apply list_elem_of_fmap in Htoken as (piece & -> & Hpiece).
        assert (Hp : Forall (fun c => c ≠ JsString.newline) piece).
        { eapply (proj1 (Forall_forall _ _)); [|exact Hpiece].
          apply split_Forall. by apply trim_Forall. }
        by eapply (proj1 (Forall_forall _ _) (trim_Forall _ _ Hp)).
    + exists line. split; [done|]. destruct Hcases as [[-> _]|?]; [by left|by right].
Qed.

(** X23. Reading is idempotent: the URN list written one entry per line
    reads as the same list again. *)
Theorem parseCorpusText_idempotent (text : list ascii) :
  parseCorpusText (JsString.join [JsString.newline] (parseCorpusText text))
  = parseCorpusText text.
Proof.
  destruct (parseCorpusText_spec text) as (Hnd & Hlen & Hfrom).
  set (urns := parseCorpusText text) in *.
  destruct (decide (urns = [])) as [->|Hne]; [done|].
  unfold parseCorpusText at 1. cbv zeta.
  rewrite splitLines_join; [|done|].
  - rewrite omap_fixed.
    + rewrite (proj2 (proj2 (unique_spec urns)) Hnd). by apply take_ge.
    + apply Forall_forall. intros urn Hin.
      destruct (Hfrom urn Hin) as (line & _ & Hurn). by eapply corpusLine_fixed.
  - apply Forall_forall. intros urn Hin.
    destruct (Hfrom urn Hin) as (line & Hline & Hurn).
    destruct (corpusLine_Some line urn Hurn) as (_ & [_ Hlast] & Hcases).
    assert (Hplain : Forall (fun c => c ≠ JsString.newline) line).
    { by eapply (proj1 (Forall_forall _ _) (splitLines_pieces _ text (le_n _))). }
    split.
    + intros Hnl. destruct Hcases as [[-> _]|[_ Htoken]].
      * by eapply (proj1 (Forall_forall _ _) (trim_Forall _ _ Hplain)).
      * apply list_elem_of_fmap in Htoken as (piece & -> & Hpiece).
        assert (Hp : Forall (fun c => c ≠ JsString.newline) piece).
        { eapply (proj1 (Forall_forall _ _)); [|exact Hpiece].
          apply split_Forall. by apply trim_Forall. }
        by eapply (proj1 (Forall_forall _ _) (trim_Forall _ _ Hp)).
    + intros Hcr. by specialize (Hlast _ Hcr).
Qed.

(** *** Corpus files *)

Lemma string_of_list_ascii_empty (s : list ascii) :
  string_of_list_ascii s = EmptyString → s = [].
Proof. by destruct s. Qed.

Lemma truthy_key (s : list ascii) :
  JsString.truthy s = true → string_of_list_ascii s ≠ EmptyString.
Proof. intros H Hs. apply string_of_list_ascii_empty in Hs as ->. discriminate H. Qed.

Lemma parseCorpusCsv_None (text : list ascii) :
  parseCorpusCsv text = None ↔ (length (nonBlankLines text) ≤ 1)%nat.
Proof.
  unfold parseCorpusCsv. fold (nonBlankLines text).
  destruct (nonBlankLines text) as [|headerLine [|line lines]]; simpl.
  - split; [lia|done].
  - split; [lia|done].
  - split; [done|lia].
Qed.

Lemma addCorpusRow_linked (acc : ParsedCorpus.t) (row : gmap string (list ascii)) :
  linked acc → linked (addCorpusRow acc row).
Proof.
  intros Hacc. unfold addCorpusRow.
  set (cleanedUrn := JsString.trim (default [] (nullish (row !! "urn"%string) _))).
  set (cleanedId := JsString.trim (default [] (nullish (row !! "dhlabid"%string) _))).
  set (title := trimmedOrUndefined (default [] (row !! "title"%string))).
  set (authors := trimmedOrUndefined (default [] (row !! "authors"%string))).
  set (year := trimmedOrUndefined (default [] (row !! "year"%string))).
  cbv zeta.
  set (afterUrn := if JsString.truthy cleanedUrn then _ else acc).
  assert (Hafter : linked afterUrn
                   ∧ (JsString.truthy cleanedUrn = true →
                      is_Some (ParsedCorpus.metaByUrn afterUrn
                                 !! string_of_list_ascii cleanedUrn))).
  { unfold afterUrn. destruct (JsString.truthy cleanedUrn) eqn:Hurn; [|by split].
    destruct Hacc as (Hurns & HbyUrn & HbyId).
    split; [|intros _; cbn; rewrite lookup_insert_eq; by eexists].
    split_and!; cbn [ParsedCorpus.urns ParsedCorpus.metaByUrn ParsedCorpus.metaById].
    - intros urn Hin. apply lookup_insert_is_Some'.
      apply elem_of_app in Hin as [Hin|Hin]; [right; by apply Hurns|left].
      by apply list_elem_of_singleton in Hin.
    - apply map_Forall_insert_2.
      + split_and!; [by apply truthy_key|done|].
        apply elem_of_app. right. apply list_elem_of_singleton. done.
      + eapply map_Forall_impl; [exact HbyUrn|]. intros key m (? & ? & ?).
        split_and!; [done|done|]. apply elem_of_app. by left.
    - eapply map_Forall_impl; [exact HbyId|]. intros key m (? & ? & Hlink).
      split_and!; [done|done|]. intros urn Hm. apply lookup_insert_is_Some'.
      right. by apply Hlink. }
  destruct Hafter as [(Hurns & HbyUrn & HbyId) Hkey].
  destruct (JsString.truthy cleanedId) eqn:Hid; [|done].
  split_and!; cbn [ParsedCorpus.urns ParsedCorpus.metaByUrn ParsedCorpus.metaById];
    [done|done|].
  apply map_Forall_insert_2; [|done].
  split_and!; [by apply truthy_key|done|]. cbn [CorpusMeta.urn].
  intros urn. unfold orUndefined.
  destruct (JsString.truthy cleanedUrn) eqn:Hurn; [|done].
  intros [= <-]. by apply Hkey.
Qed.

Lemma foldl_addCorpusRow_linked (rows : list (gmap string (list ascii)))
    (acc : ParsedCorpus.t) :
  linked acc → linked (foldl addCorpusRow acc rows).
Proof.
  revert acc. induction rows as [|row rows IH]; intros acc Hacc; [done|].
  cbn [foldl]. by apply IH, addCorpusRow_linked.
Qed.

Lemma linked_empty : linked (ParsedCorpus.mk [] ∅ ∅).
Proof.
  split_and!; cbn.
  - intros urn Hin. by apply elem_of_nil in Hin.
  - apply map_Forall_empty.
  - apply map_Forall_empty.
Qed.

(** X24. What [parseCorpusRows] returns hangs together: the URN list has no
    duplicates and at most 50000 entries; every URN in it has a record
    under [metaByUrn]; a record under [metaByUrn] or [metaById] carries its
    own key, which is not empty; the URN that a [metaById] record names
    has a record under [metaByUrn]; and unless the list was cut at 50000,
    every key of [metaByUrn] is in the URN list. *)
Theorem parseCorpusRows_linked (rows : list (gmap string (list ascii)))
    (parsed : ParsedCorpus.t) :
  parseCorpusRows rows = Some parsed →
  NoDup (ParsedCorpus.urns parsed)
  ∧ Z.of_nat (length (ParsedCorpus.urns parsed)) ≤ 50000
  ∧ (∀ urn, urn ∈ ParsedCorpus.urns parsed →
       is_Some (ParsedCorpus.metaByUrn parsed !! urn))
  ∧ (∀ key m, ParsedCorpus.metaByUrn parsed !! key = Some m →
       key ≠ EmptyString ∧ CorpusMeta.urn m = Some key
       ∧ (Z.of_nat (length (ParsedCorpus.urns parsed)) < 50000 →
          key ∈ ParsedCorpus.urns parsed))
  ∧ (∀ key m, ParsedCorpus.metaById parsed !! key = Some m →
       key ≠ EmptyString ∧ CorpusMeta.dhlabid m = Some key
       ∧ ∀ urn, CorpusMeta.urn m = Some urn →
           is_Some (ParsedCorpus.metaByUrn parsed !! urn)).
Proof.
  unfold parseCorpusRows. destruct rows as [|row rows]; [done|].
  set (result := foldl addCorpusRow _ (row :: rows)).
  assert (Hlinked : linked result) by apply foldl_addCorpusRow_linked, linked_empty.
  destruct Hlinked as (Hurns & HbyUrn & HbyId).
  destruct (unique_spec (ParsedCorpus.urns result)) as (Hnd & Hiff & _).
  intros [= <-]. cbn [ParsedCorpus.urns ParsedCorpus.metaByUrn ParsedCorpus.metaById].
  split_and!.
  - rewrite <- (take_drop MAX_CORPUS (JsString.unique _)) in Hnd.
    by apply NoDup_app in Hnd as [? _].
  - rewrite length_take. unfold MAX_CORPUS. lia.
  - intros urn Hin. apply Hurns, Hiff.
    apply elem_of_take in Hin as (i & Hin & _). by eapply list_elem_of_lookup_2.
  - intros key m Hm. destruct (HbyUrn key m Hm) as (? & ? & Hin).
    split_and!; [done|done|]. rewrite length_take. unfold MAX_CORPUS. intros Hlen.
    rewrite take_ge by lia. by apply Hiff.
  - intros key m Hm. by apply (HbyId key m Hm).
Qed.

Lemma parseCorpusRows_linked_witness :
  let rows := [{[ "urn"%string := list_ascii_of_string " URN:1 ";
                  "dhlabid"%string := list_ascii_of_string "100" ]}] in
  ∃ parsed, parseCorpusRows rows = Some parsed
            ∧ NoDup (ParsedCorpus.urns parsed)
            ∧ ParsedCorpus.urns parsed = ["URN:1"%string].
Proof.
  intros rows.
  destruct (parseCorpusRows rows) as [parsed|] eqn:Hparsed; [|discriminate Hparsed].
  exists parsed. split; [reflexivity|].
  split; [exact (proj1 (parseCorpusRows_linked rows parsed Hparsed))|].
  revert Hparsed. vm_compute. by intros [= <-].
Defined.
Lemma trimmed_nil : trimmed [].
Proof. by split. Qed.

Lemma trimmed_snoc (values : list (list ascii)) (current : list ascii) :
  Forall trimmed values → Forall trimmed (values ++ [JsString.trim current]).
Proof.
  intros Hvalues. apply Forall_app. split; [done|].
  apply Forall_singleton, trim_trimmed.
Qed.

Lemma parseDelimitedLineFrom_trimmed (delimiter : list ascii) (n : nat) :
  ∀ (rest : list ascii) (values : list (list ascii)) (current : list ascii)
    (inQuotes : bool),
    (length rest ≤ n)%nat → Forall trimmed values →
    Forall trimmed (parseDelimitedLineFrom delimiter values current inQuotes rest).
Proof.
  induction n as [|n IH]; intros rest values current inQuotes Hn Hvalues.
  { destruct rest; [|simpl in Hn; lia]. by apply trimmed_snoc. }
  destruct rest as [|char rest]; cbn [parseDelimitedLineFrom].
  { by apply trimmed_snoc. }
  simpl in Hn. destruct (decide (char = JsString.quote)).
  - destruct rest as [|next rest]; [apply IH; [simpl; lia|done]|].
    simpl in Hn. destruct (inQuotes && bool_decide (next = JsString.quote));
      (apply IH; [simpl; lia|done]).
  - destruct (bool_decide ([char] = delimiter) && negb inQuotes).
    + apply IH; [lia|]. by apply trimmed_snoc.
    + apply IH; [lia|done].
Qed.

Lemma csvRow_trimmed (header values : list (list ascii)) :
  Forall trimmed values →
  map_Forall (fun _ cell => trimmed cell) (csvRow header values).
Proof.
  intros Hvalues. unfold csvRow.
  generalize (imap (fun index key => (index, key)) header).
  intros keys.
  assert (Hempty : map_Forall (fun (_ : string) cell => trimmed cell)
                     (∅ : gmap string (list ascii))) by apply map_Forall_empty.
  revert Hempty. generalize (∅ : gmap string (list ascii)).
  induction keys as [|[index key] keys IH]; intros row Hrow; [done|].
  cbn [foldl]. apply IH. apply map_Forall_insert_2; [|done].
  destruct (values !! index) as [cell|] eqn:Hcell; cbn; [|apply trimmed_nil].
  by eapply (proj1 (Forall_forall _ _) Hvalues), list_elem_of_lookup_2.
Qed.

Lemma cleanField_None : cleanField None.
Proof. by intros value. Qed.

Lemma cleanField_trim (s : list ascii) :
  JsString.truthy (JsString.trim s) = true →
  cleanField (Some (string_of_list_ascii (JsString.trim s))).
Proof.
  intros Htruthy value [= <-]. split; [by apply truthy_key|].
  rewrite list_ascii_of_string_of_list_ascii. apply trim_trimmed.
Qed.

Lemma cleanField_orUndefined (s : list ascii) :
  cleanField (orUndefined (JsString.trim s)).
Proof.
  unfold orUndefined. destruct (JsString.truthy _) eqn:Htruthy;
    [by apply cleanField_trim|apply cleanField_None].
Qed.

Lemma cleanField_trimmedOrUndefined (s : list ascii) :
  trimmed s → cleanField (trimmedOrUndefined s).
Proof.
  intros Hs. unfold trimmedOrUndefined.
  destruct (JsString.truthy s) eqn:Htruthy; [|apply cleanField_None].
  apply cleanField_trim. by rewrite (trimmed_trim s Hs).
Qed.

Lemma row_cell_trimmed (row : gmap string (list ascii)) (key : string) :
  map_Forall (fun _ cell => trimmed cell) row → trimmed (default [] (row !! key)).
Proof.
  intros Hrow. destruct (row !! key) as [cell|] eqn:Hcell; cbn; [|apply trimmed_nil].
  by apply (Hrow key).
Qed.

Lemma addCorpusRow_clean (acc : ParsedCorpus.t) (row : gmap string (list ascii)) :
  map_Forall (fun _ cell => trimmed cell) row →
  map_Forall (fun _ m => cleanMeta m) (ParsedCorpus.metaById acc)
  ∧ map_Forall (fun _ m => cleanMeta m) (ParsedCorpus.metaByUrn acc) →
  map_Forall (fun _ m => cleanMeta m) (ParsedCorpus.metaById (addCorpusRow acc row))
  ∧ map_Forall (fun _ m => cleanMeta m) (ParsedCorpus.metaByUrn (addCorpusRow acc row)).
Proof.
  intros Hrow [HbyId HbyUrn]. unfold addCorpusRow.
  pose proof (cleanField_trimmedOrUndefined _ (row_cell_trimmed row "title" Hrow))
    as Htitle.
  pose proof (cleanField_trimmedOrUndefined _ (row_cell_trimmed row "authors" Hrow))
    as Hauthors.
  pose proof (cleanField_trimmedOrUndefined _ (row_cell_trimmed row "year" Hrow))
    as Hyear.
  set (cleanedUrn := JsString.trim (default [] (nullish (row !! "urn"%string) _))).
  set (cleanedId := JsString.trim (default [] (nullish (row !! "dhlabid"%string) _))).
  cbv zeta.
  destruct (JsString.truthy cleanedUrn) eqn:Hurn, (JsString.truthy cleanedId) eqn:Hid;
    cbn [ParsedCorpus.urns ParsedCorpus.metaByUrn ParsedCorpus.metaById];
    (split; [|]); try done;
    apply map_Forall_insert_2; try done; unfold cleanMeta;
    cbn [CorpusMeta.dhlabid CorpusMeta.urn CorpusMeta.title CorpusMeta.authors
         CorpusMeta.year];
    split_and!; try done;
    first [by apply cleanField_trim|apply cleanField_orUndefined].
Qed.

Lemma foldl_addCorpusRow_clean (rows : list (gmap string (list ascii))) :
  Forall (map_Forall (fun _ cell => trimmed cell)) rows →
  ∀ acc,
    map_Forall (fun _ m => cleanMeta m) (ParsedCorpus.metaById acc)
    ∧ map_Forall (fun _ m => cleanMeta m) (ParsedCorpus.metaByUrn acc) →
    map_Forall (fun _ m => cleanMeta m)
      (ParsedCorpus.metaById (foldl addCorpusRow acc rows))
    ∧ map_Forall (fun _ m => cleanMeta m)
        (ParsedCorpus.metaByUrn (foldl addCorpusRow acc rows)).
Proof.
  induction 1 as [|row rows Hrow _ IH]; intros acc Hacc; [done|].
  cbn [foldl]. by apply IH, addCorpusRow_clean.
Qed.

Lemma parseCorpusRows_clean (rows : list (gmap string (list ascii)))
    (parsed : ParsedCorpus.t) :
  Forall (map_Forall (fun _ cell => trimmed cell)) rows →
  parseCorpusRows rows = Some parsed →
  map_Forall (fun _ m => cleanMeta m) (ParsedCorpus.metaById parsed)
  ∧ map_Forall (fun _ m => cleanMeta m) (ParsedCorpus.metaByUrn parsed).
Proof.
  intros Hrows. unfold parseCorpusRows. destruct rows as [|row rows]; [done|].
  intros [= <-]. cbn [ParsedCorpus.metaById ParsedCorpus.metaByUrn].
  apply (foldl_addCorpusRow_clean (row :: rows) Hrows). split; apply map_Forall_empty.
Qed.

(** X25. Every record read from a CSV file is clean: each of [dhlabid],
    [urn], [title], [authors] and [year] is either absent or a string that is
    not empty and neither starts nor ends with white space.  An empty or
    blank cell of the file, the year in particular, is stored as absent and
    never as an empty string. *)
Theorem csv_records_are_clean (text : list ascii) (parsed : ParsedCorpus.t) :
  parseCorpusCsv text = Some parsed →
  ∀ key m,
    ParsedCorpus.metaById parsed !! key = Some m
    ∨ ParsedCorpus.metaByUrn parsed !! key = Some m →
    cleanMeta m ∧ CorpusMeta.year m ≠ Some EmptyString.
Proof.
  unfold parseCorpusCsv. fold (nonBlankLines text).
  destruct (nonBlankLines text) as [|headerLine dataLines]; [done|]. cbv zeta.
  intros Hparsed key m Hm.
  apply parseCorpusRows_clean in Hparsed as [HbyId HbyUrn].
  - assert (Hclean : cleanMeta m).
    { destruct Hm as [Hm|Hm]; [by apply (HbyId key)|by apply (HbyUrn key)]. }
    split; [done|]. destruct Hclean as (_ & _ & _ & _ & Hyear).
    intros Hblank. by destruct (Hyear _ Hblank).
  - apply Forall_fmap, Forall_forall. intros line _. simpl.
    apply csvRow_trimmed. unfold parseDelimitedLine.
    by apply (parseDelimitedLineFrom_trimmed _ _ _ _ _ _ (le_n _)).
Qed.

Lemma csv_records_are_clean_witness :
  let text := list_ascii_of_string "urn;year
URN:1;  
URN:2; 1900 " in
  ∃ parsed, parseCorpusCsv text = Some parsed
    ∧ CorpusMeta.year <$> ParsedCorpus.metaByUrn parsed !! "URN:1"%string = Some None
    ∧ CorpusMeta.year <$> ParsedCorpus.metaByUrn parsed !! "URN:2"%string
      = Some (Some "1900"%string)
    ∧ ∀ key m, ParsedCorpus.metaByUrn parsed !! key = Some m →
        CorpusMeta.year m ≠ Some EmptyString.
Proof.
  intros text.
  destruct (parseCorpusCsv text) as [parsed|] eqn:Hparsed; [|discriminate Hparsed].
  exists parsed. split; [reflexivity|].
  split_and!.
  - revert Hparsed. vm_compute. by intros [= <-].
  - revert Hparsed. vm_compute. by intros [= <-].
  - intros key m Hm.
    exact (proj2 (csv_records_are_clean text parsed Hparsed key m (or_intror Hm))).
Defined.

(** *** Word bags and the chart legend *)

Lemma bagsNamed_app (key : string) (l k : list Wordbag.t) :
  bagsNamed key (l ++ k) = bagsNamed key l ++ bagsNamed key k.
Proof. unfold bagsNamed. apply List.filter_app. Qed.

(** X26. The request body holds, under each name but [__proto__], the
    words of the last bag with that name: names are compared after trimming,
    bags with a blank name are left out, and an earlier bag of the same name
    is overwritten.  A bag named [__proto__] never gets into the body. *)
Theorem wordbagJson_last_bag_wins (wordbags : list Wordbag.t) (key : string) :
  wordbagJson wordbags !! key
  = if decide (key = "__proto__"%string) then None
    else Wordbag.words <$> last (bagsNamed key wordbags).
Proof.
  unfold wordbagJson. induction wordbags as [|bag wordbags IH] using rev_ind.
  - by destruct (decide (key = "__proto__"%string)).
  - rewrite foldl_app, bagsNamed_app. cbn [foldl]. unfold bagsNamed at 2.
    cbn [List.filter].
    destruct (JsString.truthy (JsString.trim (Wordbag.name bag))) eqn:Hname;
      cbn [andb]; [|by rewrite app_nil_r].
    destruct (decide (string_of_list_ascii (JsString.trim (Wordbag.name bag))
                      = "__proto__"%string)) as [Hproto|Hproto].
    + rewrite IH. destruct (decide (key = "__proto__"%string)) as [Hkey|Hkey]; [done|].
      rewrite bool_decide_eq_false_2 by congruence. by rewrite app_nil_r.
    + case_bool_decide as Hkey.
      * rewrite Hkey, lookup_insert_eq, last_snoc.
        by rewrite decide_False by congruence.
      * rewrite lookup_insert_ne by done. by rewrite app_nil_r.
Qed.

(** X27. A click on a legend button flips that series only, and a second
    click restores the set of hidden series. *)
Theorem toggleSeries_flips_one (prev : gset string) (id : string) :
  (id ∈ toggleSeries prev id ↔ id ∉ prev)
  ∧ (∀ other, other ≠ id → (other ∈ toggleSeries prev id ↔ other ∈ prev))
  ∧ toggleSeries (toggleSeries prev id) id = prev.
Proof.
  assert (Hflip : ∀ s : gset string, id ∈ toggleSeries s id ↔ id ∉ s).
  { intros s. unfold toggleSeries. destruct (decide (id ∈ s)).
    - rewrite elem_of_difference, elem_of_singleton. tauto.
    - rewrite elem_of_union, elem_of_singleton. tauto. }
  assert (Hother : ∀ (s : gset string) other, other ≠ id →
                     (other ∈ toggleSeries s id ↔ other ∈ s)).
  { intros s other Hne. unfold toggleSeries. destruct (decide (id ∈ s)).
    - rewrite elem_of_difference, elem_of_singleton. tauto.
    - rewrite elem_of_union, elem_of_singleton. tauto. }
  split_and!; [apply Hflip|apply Hother|].
  apply set_eq. intros x. destruct (decide (x = id)) as [->|Hne].
  - rewrite Hflip, Hflip. destruct (decide (id ∈ prev)); tauto.
  - by rewrite !Hother.
Qed.
Lemma omap_filter {A B : Type} (f : A → option B) (p : A → bool) (l : list A) :
  (∀ x, p x = false → f x = None) → omap f (List.filter p l) = omap f l.
Proof.
  intros Hp. induction l as [|x l IH]; [done|]. cbn [List.filter].
  destruct (p x) eqn:Hx.
  - cbn. by rewrite IH.
  - cbn. by rewrite (Hp x Hx), IH.
Qed.

Lemma corpusLine_blank (line : list ascii) :
  (0 <? length (JsString.trim line))%nat = false → corpusLine line = None.
Proof.
  intros Hblank. apply Nat.ltb_ge in Hblank. unfold corpusLine.
  destruct (JsString.trim line); [done|simpl in Hblank; lia].
Qed.

Lemma corpusLine_non_blank (line : list ascii) :
  (0 <? length (JsString.trim line))%nat = true → is_Some (corpusLine line).
Proof.
  intros Hline. apply Nat.ltb_lt in Hline. unfold corpusLine.
  destruct (JsString.trim line); [simpl in Hline; lia|]. by eexists.
Qed.

(** X28. A CSV file with a header line and nothing else is not read as a
    table: its header line is read as a line of a plain URN list, so the
    import yields exactly one URN, taken from the header, and leaves the
    metadata of an earlier import in place. *)
Theorem header_only_csv_is_read_as_text (text line : list ascii)
    (prev : ParsedCorpus.t) :
  nonBlankLines text = [line] →
  ∃ urn,
    corpusLine line = Some urn
    ∧ handleCorpusFile true text prev
      = ParsedCorpus.mk [string_of_list_ascii urn]
          (ParsedCorpus.metaById prev) (ParsedCorpus.metaByUrn prev).
Proof.
  intros Hlines.
  assert (Hline : is_Some (corpusLine line)).
  { apply corpusLine_non_blank.
    assert (Hin : In line (nonBlankLines text)) by (rewrite Hlines; by left).
    by apply filter_In in Hin as [_ ?]. }
  destruct Hline as [urn Hurn]. exists urn. split; [done|].
  unfold handleCorpusFile.
  rewrite (proj2 (parseCorpusCsv_None text)) by (by rewrite Hlines).
  f_equal. unfold parseCorpusText. cbv zeta.
  rewrite <- (omap_filter corpusLine
                (fun line => (0 <? length (JsString.trim line))%nat))
    by apply corpusLine_blank.
  fold (nonBlankLines text). rewrite Hlines. cbn [omap list_omap].
  by rewrite Hurn.
Qed.

Lemma header_only_csv_is_read_as_text_witness :
  let text := list_ascii_of_string "urn;title;year
" in
  ParsedCorpus.urns (handleCorpusFile true text (ParsedCorpus.mk [] ∅ ∅))
  = ["urn;title;year"%string].
Proof.
  intros text.
  destruct (header_only_csv_is_read_as_text text
              (list_ascii_of_string "urn;title;year") (ParsedCorpus.mk [] ∅ ∅)
              eq_refl) as (urn & Hurn & ->).
  cbn [ParsedCorpus.urns]. revert Hurn. vm_compute. by intros [= <-].
Defined.
